(** * NGO impact tracker: the CSV ingestion pipeline, the report store and
      the dashboard query, embedded from the JavaScript sources.

    - [JS]        the JavaScript primitives the sources rely on
                  (strings, [parseInt], [parseFloat], truthiness, numbers);
    - [Database]  the two tables of database.js and its statements;
    - [Validate]  [validateHeaders], [validateRow] (services/csvProcessor.js)
                  and [validateReport] (routes/reports.js);
    - [Pipeline]  [processCSVFile] (services/csvProcessor.js);
    - [Routes]    POST /report and the paging of GET /dashboard
                  (routes/reports.js);
    - the vocabulary of the statements, and then the statements.

    Strings are sequences of ASCII characters.  A JavaScript Number is kept
    as the decimal it was read from: [Finite c e] stands for the Number
    nearest to c * 10^e.  Rounding to zero and to an infinity at the two
    ends of the double range is followed ([number_of_decimal]), rounding in
    between is not.  One run of the pipeline is followed on its own: no
    other request writes to the store meanwhile. *)

From Stdlib Require Import ZArith String Ascii DecimalString.
From stdpp Require Import gmap strings list.

Local Open Scope string_scope.
Local Open Scope Z_scope.

(* ===================================================================== *)
(** ** JavaScript primitives *)
(* ===================================================================== *)

Module JS.

(** *** Characters and strings *)

Definition code (c : ascii) : Z := Z.of_N (N_of_ascii c).

(** White space and line terminators of the ASCII range: TAB, LF, VT, FF,
    CR and SPACE.  [trim], [parseInt] and [parseFloat] skip these. *)
Definition is_space (c : ascii) : bool :=
  ((9 <=? code c) && (code c <=? 13)) || (code c =? 32).

Definition is_digit (c : ascii) : bool :=
  (48 <=? code c) && (code c <=? 57).

Definition is_upper (c : ascii) : bool :=
  (65 <=? code c) && (code c <=? 90).

Definition lower_char (c : ascii) : ascii :=
  if is_upper c then ascii_of_N (N_of_ascii c + 32) else c.

(** [s.toLowerCase()] *)
Fixpoint toLowerCase (s : string) : string :=
  match s with
  | EmptyString => EmptyString
  | String c s' => String (lower_char c) (toLowerCase s')
  end.

Fixpoint trimStart (s : string) : string :=
  match s with
  | EmptyString => EmptyString
  | String c s' => if is_space c then trimStart s' else s
  end.

Fixpoint trimEnd (s : string) : string :=
  match s with
  | EmptyString => EmptyString
  | String c s' =>
      match trimEnd s' with
      | EmptyString => if is_space c then EmptyString else String c EmptyString
      | t => String c t
      end
  end.

(** [s.trim()] *)
Definition trim (s : string) : string := trimEnd (trimStart s).

(** [arr.includes(x)] on an array of strings *)
Definition includes (arr : list string) (x : string) : bool :=
  existsb (String.eqb x) arr.

(** [arr.join(sep)] *)
Definition join (sep : string) (arr : list string) : string :=
  String.concat sep arr.

(** The decimal numeral of a row index, as a template literal prints it. *)
Definition show_nat (n : nat) : string :=
  NilZero.string_of_uint (Nat.to_uint n).

(** [/^\d{4}-\d{2}$/.test(s)] *)
Definition test_year_month (s : string) : bool :=
  match s with
  | String y1 (String y2 (String y3 (String y4
      (String dash (String m1 (String m2 EmptyString)))))) =>
      is_digit y1 && is_digit y2 && is_digit y3 && is_digit y4
      && Ascii.eqb dash "-" && is_digit m1 && is_digit m2
  | _ => false
  end.

(** *** Values *)

(** The values a field of a parsed CSV record or of a JSON request body
    holds here: absent, [null], a boolean, a string, or an integer-valued
    number of magnitude below 10^21 (whose [String(_)] is its plain decimal
    numeral). *)
Inductive value :=
| Undefined
| Null
| Bool (b : bool)
| Num (z : Z)
| Str (s : string).

(** [String(v)] *)
Definition ToString (v : value) : string :=
  match v with
  | Undefined => "undefined"
  | Null => "null"
  | Bool true => "true"
  | Bool false => "false"
  | Num z => NilZero.string_of_int (Z.to_int z)
  | Str s => s
  end.

(** [!v] *)
Definition falsy (v : value) : bool :=
  match v with
  | Undefined | Null => true
  | Bool b => negb b
  | Num z => z =? 0
  | Str s => String.eqb s ""
  end.

(** *** Numbers *)

Inductive number :=
| NaN
| Infinity (negative : bool)
| Finite (c : Z) (e : Z).

(** [c * 10^e <= n * 2^k], over the integers *)
Definition scaled_le (c e n k : Z) : bool :=
  c * 10 ^ Z.max e 0 * 2 ^ Z.max (- k) 0
  <=? n * 2 ^ Z.max k 0 * 10 ^ Z.max (- e) 0.

(** [n * 2^k <= c * 10^e] *)
Definition scaled_ge (c e n k : Z) : bool :=
  n * 2 ^ Z.max k 0 * 10 ^ Z.max (- e) 0
  <=? c * 10 ^ Z.max e 0 * 2 ^ Z.max (- k) 0.

(** The Number a decimal rounds to, at the two ends of the double range:
    a magnitude of at most 2^-1075 rounds to zero, one of at least
    2^1024 - 2^970 to an infinity. *)
Definition number_of_decimal (c e : Z) : number :=
  if scaled_le (Z.abs c) e 1 (-1075) then Finite 0 0
  else if scaled_ge (Z.abs c) e (2 ^ 54 - 1) 970 then Infinity (c <? 0)
  else Finite c e.

(** [isNaN(n)] *)
Definition isNaN (n : number) : bool :=
  match n with NaN => true | _ => false end.

(** [a < b] *)
Definition lt (a b : number) : bool :=
  match a, b with
  | NaN, _ | _, NaN => false
  | Infinity na, Infinity nb => na && negb nb
  | Infinity na, Finite _ _ => na
  | Finite _ _, Infinity nb => negb nb
  | Finite ca ea, Finite cb eb =>
      ca * 10 ^ (ea - Z.min ea eb) <? cb * 10 ^ (eb - Z.min ea eb)
  end.

(** [n < 0] *)
Definition negative (n : number) : bool := lt n (Finite 0 0).

(** [Math.max(a, b)] and [Math.min(a, b)] *)
Definition max (a b : number) : number :=
  if isNaN a || isNaN b then NaN else if lt a b then b else a.

Definition min (a b : number) : number :=
  if isNaN a || isNaN b then NaN else if lt b a then b else a.

(** [n || d] on Numbers: [d] when [n] is NaN or zero *)
Definition or_default (n d : number) : number :=
  match n with
  | NaN => d
  | Infinity _ => n
  | Finite c _ => if c =? 0 then d else n
  end.

(** *** parseInt *)

Definition digit_value (radix : Z) (c : ascii) : option Z :=
  let v :=
    if is_digit c then code c - 48
    else if (97 <=? code c) && (code c <=? 102) then code c - 87
    else if (65 <=? code c) && (code c <=? 70) then code c - 55
    else 99 in
  if v <? radix then Some v else None.

(** The digits of the longest prefix of [s] in the given radix,
    accumulated into their value; [None] when there is no digit. *)
Fixpoint read_digits (radix : Z) (acc : option Z) (s : string) : option Z :=
  match s with
  | EmptyString => acc
  | String c s' =>
      match digit_value radix c with
      | Some d => read_digits radix (Some (default 0 acc * radix + d)) s'
      | None => acc
      end
  end.

Definition strip_sign (s : string) : bool * string :=
  match s with
  | String "-" s' => (true, s')
  | String "+" s' => (false, s')
  | _ => (false, s)
  end.

Definition strip_hex_prefix (s : string) : Z * string :=
  match s with
  | String "0" (String "x" s') => (16, s')
  | String "0" (String "X" s') => (16, s')
  | _ => (10, s)
  end.

Definition parseInt_string (s : string) : number :=
  let '(neg, s1) := strip_sign (trimStart s) in
  let '(radix, s2) := strip_hex_prefix s1 in
  match read_digits radix None s2 with
  | None => NaN
  | Some n => number_of_decimal (if neg then - n else n) 0
  end.

(** [parseInt(v)] *)
Definition parseInt (v : value) : number := parseInt_string (ToString v).

(** *** parseFloat *)

(** The decimal digits at the start of [s]: their value on top of [acc],
    how many there are, and what follows them. *)
Fixpoint read_decimal (acc : Z) (n : Z) (s : string) : Z * Z * string :=
  match s with
  | EmptyString => (acc, n, s)
  | String c s' =>
      if is_digit c then read_decimal (acc * 10 + (code c - 48)) (n + 1) s'
      else (acc, n, s)
  end.

(** An exponent part [e], [E] with an optional sign and at least one digit;
    0 when there is none. *)
Definition read_exponent (s : string) : Z :=
  match s with
  | String c s' =>
      if Ascii.eqb c "e" || Ascii.eqb c "E" then
        let '(neg, s1) := strip_sign s' in
        let '(x, nx, _) := read_decimal 0 0 s1 in
        if nx =? 0 then 0 else if neg then - x else x
      else 0
  | EmptyString => 0
  end.

Definition parseFloat_string (s : string) : number :=
  let '(neg, s1) := strip_sign (trimStart s) in
  if String.prefix "Infinity" s1 then Infinity neg
  else
    let '(i, ni, s2) := read_decimal 0 0 s1 in
    let '(m, nf, s3) :=
      match s2 with
      | String "." s' => read_decimal i 0 s'
      | _ => (i, 0, s2)
      end in
    if ni + nf =? 0 then NaN
    else number_of_decimal (if neg then - m else m) (read_exponent s3 - nf).

(** [parseFloat(v)] *)
Definition parseFloat (v : value) : number := parseFloat_string (ToString v).

End JS.

(* ===================================================================== *)
(** ** database.js *)
(* ===================================================================== *)

Module Database.

(** *** Table [reports]

    A row of [reports], and also the named parameters bound to
    [insertOrUpdateReport].  The surrogate [id] and the two timestamps are
    left out. *)
Record report := {
  ngo_id : string;
  month : string;
  people_helped : JS.number;
  events_conducted : JS.number;
  funds_utilized : JS.number;
}.

(** The columns of [UNIQUE(ngo_id, month)] *)
Definition key (r : report) : string * string := (ngo_id r, month r).

Definition same_key (p r : report) : bool :=
  String.eqb (ngo_id p) (ngo_id r) && String.eqb (month p) (month r).

(** [DO UPDATE SET people_helped = @people_helped, ...] on the row in
    conflict.  The clause also sets [updated_at = CURRENT_TIMESTAMP]; the
    timestamps are not among the columns of [report], so a row is
    compared here by its five data columns only. *)
Definition do_update (p r : report) : report :=
  {| ngo_id := ngo_id r;
     month := month r;
     people_helped := people_helped p;
     events_conducted := events_conducted p;
     funds_utilized := funds_utilized p |}.

(** [INSERT INTO reports ... ON CONFLICT(ngo_id, month) DO UPDATE SET ...] *)
Definition insertOrUpdateReport (p : report) (t : list report) : list report :=
  if existsb (same_key p) t
  then map (fun r => if same_key p r then do_update p r else r) t
  else t ++ [p].

(** *** The dashboard queries *)

(** SQLite's [text LIKE pattern] without ESCAPE, as database.js runs it
    (no [PRAGMA case_sensitive_like]): [%] stands for any run of
    characters, [_] for any one character, and every other character for
    itself, upper and lower case ASCII letters taken as equal. *)
Fixpoint like (pattern text : string) : bool :=
  match pattern with
  | EmptyString =>
      match text with EmptyString => true | _ => false end
  | String p pattern' =>
      if Ascii.eqb p "%" then
        (fix from (t : string) : bool :=
           like pattern' t
           || match t with
              | EmptyString => false
              | String _ t' => from t'
              end) text
      else
        match text with
        | EmptyString => false
        | String c text' =>
            (Ascii.eqb p "_" || Ascii.eqb (JS.lower_char p) (JS.lower_char c))
            && like pattern' text'
        end
  end.

(** The [filters] object of the dashboard route *)
Record filters := {
  monthFrom : option string;
  monthTo : option string;
  ngoId : option string;
}.

(** [if (filters.x)]: the property is set to a non-empty string *)
Definition truthy (o : option string) : option string :=
  match o with
  | Some s => if String.eqb s "" then None else Some s
  | None => None
  end.

(** An entry of [conditions] with its bound parameter *)
Inductive condition :=
| MonthGe (param : string)      (* month >= ? *)
| MonthLe (param : string)      (* month <= ? *)
| NgoIdLike (param : string).   (* ngo_id LIKE ? *)

(** The [conditions] and [params] that [getFilteredDashboardStats] and
    [getFilteredReports] both build *)
Definition conditions (f : filters) : list condition :=
  match truthy (monthFrom f) with Some m => [MonthGe m] | None => [] end
  ++ match truthy (monthTo f) with Some m => [MonthLe m] | None => [] end
  ++ match truthy (ngoId f) with
     | Some n => [NgoIdLike ("%" +:+ n +:+ "%")]
     | None => []
     end.

Definition holds (r : report) (c : condition) : bool :=
  match c with
  | MonthGe m => String.leb m (month r)
  | MonthLe m => String.leb (month r) m
  | NgoIdLike pat => like pat (ngo_id r)
  end.

(** [WHERE c1 AND c2 ...]; no clause at all when there is no condition *)
Definition whereClause (f : filters) (r : report) : bool :=
  forallb (holds r) (conditions f).

(** [ORDER BY month DESC, ngo_id ASC] *)
Definition before (a b : report) : bool :=
  String.ltb (month b) (month a)
  || (String.eqb (month a) (month b) && String.leb (ngo_id a) (ngo_id b)).

Fixpoint place (r : report) (sorted : list report) : list report :=
  match sorted with
  | [] => [r]
  | x :: rest => if before r x then r :: x :: rest else x :: place r rest
  end.

Definition orderBy (rows : list report) : list report :=
  foldr place [] rows.

(** [LIMIT ? OFFSET ?]: a negative limit is no limit, a negative offset is
    no offset *)
Definition limitOffset (limit offset : Z) (rows : list report) : list report :=
  let rest := drop (Z.to_nat offset) rows in
  if limit <? 0 then rest else take (Z.to_nat limit) rest.

Record page := {
  reports : list report;
  totalRecords : Z;
  hasMore : bool;
}.

(** [getFilteredReports(filters, offset = 0, limit = 20)] *)
Definition getFilteredReports (f : filters) (offset limit : option Z)
    (table : list report) : page :=
  let offset := default 0 offset in
  let limit := default 20 limit in
  let totalRecords := Z.of_nat (length (filter (fun r => whereClause f r = true) table)) in
  let reports :=
    limitOffset limit offset
      (orderBy (filter (fun r => whereClause f r = true) table)) in
  {| reports := reports;
     totalRecords := totalRecords;
     hasMore := offset + Z.of_nat (length reports) <? totalRecords |}.

(** What [statement.run(params)] does: it returns, leaving the table
    changed, or it throws. *)
Inductive run_result :=
| Done (table : list report)
| Throws (message : string).

(** [insertOrUpdateReport.run(params)] on a store that accepts the
    statement *)
Definition run_insertOrUpdateReport (p : report) (t : list report) : run_result :=
  Done (insertOrUpdateReport p t).

(** *** Table [jobs] *)

Inductive status := pending | processing | completed | failed.

(** A row of [jobs] without its key and timestamps; the [errors] column
    holds a JSON array of strings, kept here as the list it encodes. *)
Record job := {
  job_status : status;
  total_rows : nat;
  processed_rows : nat;
  successful_rows : nat;
  failed_rows : nat;
  errors : list string;
}.

(** [INSERT INTO jobs (id, status, total_rows) VALUES (?, 'pending', ?)];
    [None] when the primary key is taken and the statement throws. *)
Definition createJob (id : string) (total : nat) (jobs : gmap string job)
  : option (gmap string job) :=
  match jobs !! id with
  | Some _ => None
  | None => Some (<[id := {| job_status := pending; total_rows := total;
                             processed_rows := 0; successful_rows := 0;
                             failed_rows := 0; errors := [] |}]> jobs)
  end.

(** [UPDATE jobs SET total_rows = @total_rows, ... WHERE id = @id] *)
Definition updateJobProgress (id : string) (j : job) (jobs : gmap string job)
  : gmap string job :=
  alter (fun _ => j) id jobs.

(** [SELECT * FROM jobs WHERE id = ?] *)
Definition getJob (id : string) (jobs : gmap string job) : option job :=
  jobs !! id.

End Database.

(* ===================================================================== *)
(** ** The validators *)
(* ===================================================================== *)

Module Validate.
Import JS.

(** [row.name] on a parsed CSV record, whose properties are strings *)
Definition prop (row : gmap string string) (name : string) : value :=
  match row !! name with
  | Some s => Str s
  | None => Undefined
  end.

(** [Object.keys(row)] *)
Definition keys (row : gmap string string) : list string :=
  (map_to_list row).*1.

(** *** services/csvProcessor.js *)

Definition REQUIRED_HEADERS : list string :=
  ["ngo_id"; "month"; "people_helped"; "events_conducted"; "funds_utilized"].

Record headerValidation := {
  headersValid : bool;
  error : option string;
}.

Definition missingHeaders (headers : list string) : list string :=
  let normalizedHeaders := map (fun h => trim (toLowerCase h)) headers in
  List.filter (fun required => negb (includes normalizedHeaders required))
    REQUIRED_HEADERS.

Definition validateHeaders (headers : list string) : headerValidation :=
  match missingHeaders headers with
  | [] => {| headersValid := true; error := None |}
  | missing =>
      {| headersValid := false;
         error := Some ("Missing required columns: " +:+ join ", " missing) |}
  end.

Record validation := {
  isValid : bool;
  errors : list string;
  data : Database.report;
}.

Definition push_if (cond : bool) (msg : string) (errors : list string)
  : list string :=
  if cond then (errors ++ [msg])%list else errors.

Definition validateRow (row : gmap string string) (rowIndex : nat) : validation :=
  let at_row msg := "Row " +:+ show_nat rowIndex +:+ ": " +:+ msg in
  let errors := [] in
  let errors :=
    push_if (falsy (prop row "ngo_id")
             || String.eqb (trim (ToString (prop row "ngo_id"))) "")
      (at_row "NGO ID is required") errors in
  let errors :=
    if falsy (prop row "month")
       || String.eqb (trim (ToString (prop row "month"))) ""
    then (errors ++ [at_row "Month is required"])%list
    else push_if (negb (test_year_month (trim (ToString (prop row "month")))))
           (at_row "Month must be in YYYY-MM format") errors in
  let peopleHelped := parseInt (prop row "people_helped") in
  let errors :=
    push_if (isNaN peopleHelped || negative peopleHelped)
      (at_row "People Helped must be a non-negative number") errors in
  let eventsConducted := parseInt (prop row "events_conducted") in
  let errors :=
    push_if (isNaN eventsConducted || negative eventsConducted)
      (at_row "Events Conducted must be a non-negative number") errors in
  let fundsUtilized := parseFloat (prop row "funds_utilized") in
  let errors :=
    push_if (isNaN fundsUtilized || negative fundsUtilized)
      (at_row "Funds Utilized must be a non-negative number") errors in
  {| isValid := Nat.eqb (length errors) 0;
     errors := errors;
     data :=
       {| Database.ngo_id := trim (ToString (prop row "ngo_id"));
          Database.month := trim (ToString (prop row "month"));
          Database.people_helped := or_default peopleHelped (Finite 0 0);
          Database.events_conducted := or_default eventsConducted (Finite 0 0);
          Database.funds_utilized := or_default fundsUtilized (Finite 0 0) |} |}.

(** *** routes/reports.js *)

(** [data.name] on a request body *)
Definition field (body : gmap string value) (name : string) : value :=
  default Undefined (body !! name).

Definition validateReport (body : gmap string value) : validation :=
  let errors := [] in
  let errors :=
    push_if (falsy (field body "ngo_id")
             || String.eqb (trim (ToString (field body "ngo_id"))) "")
      "NGO ID is required" errors in
  let errors :=
    if falsy (field body "month")
       || String.eqb (trim (ToString (field body "month"))) ""
    then (errors ++ ["Month is required"])%list
    else push_if (negb (test_year_month (trim (ToString (field body "month")))))
           "Month must be in YYYY-MM format (e.g., 2024-01)" errors in
  let peopleHelped := parseInt (field body "people_helped") in
  let errors :=
    push_if (isNaN peopleHelped || negative peopleHelped)
      "People Helped must be a non-negative number" errors in
  let eventsConducted := parseInt (field body "events_conducted") in
  let errors :=
    push_if (isNaN eventsConducted || negative eventsConducted)
      "Events Conducted must be a non-negative number" errors in
  let fundsUtilized := parseFloat (field body "funds_utilized") in
  let errors :=
    push_if (isNaN fundsUtilized || negative fundsUtilized)
      "Funds Utilized must be a non-negative number" errors in
  {| isValid := Nat.eqb (length errors) 0;
     errors := errors;
     data :=
       {| Database.ngo_id := trim (ToString (field body "ngo_id"));
          Database.month := trim (ToString (field body "month"));
          Database.people_helped := or_default peopleHelped (Finite 0 0);
          Database.events_conducted := or_default eventsConducted (Finite 0 0);
          Database.funds_utilized := or_default fundsUtilized (Finite 0 0) |} |}.

End Validate.

(* ===================================================================== *)
(** ** services/csvProcessor.js: processCSVFile *)
(* ===================================================================== *)

Module Pipeline.
Import JS Database Validate.

(** *** The parser stream

    What [csv-parse] makes of an upload under [columns: true]: the column
    names of the header line, one object per data line, and then either
    ['end'] or ['error'].  The header line itself is never a ['data']
    event, and every object has the column names as its keys
    ([well_formed]): a data line with another number of fields is an
    ['error']. *)
Inductive ending := End | ParseError (message : string).

Record upload := {
  columns : list string;
  records : list (gmap string string);
  ending_of : ending;
}.

(** Every record has exactly the columns of the header as its keys. *)
Definition well_formed (u : upload) : Prop :=
  Forall (fun row : gmap string string =>
            forall k, is_Some (row !! k) <-> k ∈ columns u) (records u).

(** *** The header line under [trim: true]

    The column names above are the names as the parser delivers them.
    The parser is set up with [trim: true], which drops the white space
    around a field that is not quoted before any handler sees it. *)







(** *** What the promise settles to *)
Record summary := {
  totalRows : nat;
  successfulRows : nat;
  failedRows : nat;
  summaryErrors : list string;
}.

Inductive settlement :=
| Resolved (result : summary)
| Rejected (message : string).

(** *** The state outside the closure *)
Record store := {
  reports_table : list report;
  jobs_table : gmap string job;
}.

(** The two tables, the store as it stood after each write to [jobs]
    (oldest first), the promise, and whether [parser.destroy()] ran. *)
Record effects := {
  tables : store;
  journal : list store;
  promise : option settlement;
  parserDestroyed : bool;
}.

Definition start (s : store) : effects :=
  {| tables := s; journal := []; promise := None; parserDestroyed := false |}.

(** [updateJobProgress.run({ id: jobId, ... })] *)
Definition write_job (jobId : string) (j : job) (fx : effects) : effects :=
  let s := {| reports_table := reports_table (tables fx);
              jobs_table := updateJobProgress jobId j (jobs_table (tables fx)) |} in
  {| tables := s;
     journal := journal fx ++ [s];
     promise := promise fx;
     parserDestroyed := parserDestroyed fx |}.

Definition set_reports (t : list report) (fx : effects) : effects :=
  {| tables := {| reports_table := t; jobs_table := jobs_table (tables fx) |};
     journal := journal fx;
     promise := promise fx;
     parserDestroyed := parserDestroyed fx |}.

(** [resolve(_)] and [reject(_)]: only the first call settles the promise *)
Definition settle (o : settlement) (fx : effects) : effects :=
  {| tables := tables fx;
     journal := journal fx;
     promise := match promise fx with Some old => Some old | None => Some o end;
     parserDestroyed := parserDestroyed fx |}.

(** [parser.destroy()] *)
Definition destroy (fx : effects) : effects :=
  {| tables := tables fx;
     journal := journal fx;
     promise := promise fx;
     parserDestroyed := true |}.

Definition setJobFailed (jobId errorMessage : string) (fx : effects) : effects :=
  write_job jobId
    {| job_status := failed;
       total_rows := 0;
       processed_rows := 0;
       successful_rows := 0;
       failed_rows := 0;
       Database.errors := [errorMessage] |} fx.

(** *** The closure of [processCSVFile] during the first pass *)
Record closure := {
  results : list (gmap string string * nat);
  rowIndex : nat;
  headersValidated : bool;
  processingAborted : bool;
}.

Definition abort (c : closure) : closure :=
  {| results := results c;
     rowIndex := rowIndex c;
     headersValidated := headersValidated c;
     processingAborted := true |}.

(** [headersValidated = true; rowIndex++; results.push({ row, rowIndex })] *)
Definition keep (row : gmap string string) (c : closure) : closure :=
  {| results := results c ++ [(row, S (rowIndex c))];
     rowIndex := S (rowIndex c);
     headersValidated := true;
     processingAborted := processingAborted c |}.

(** [parser.on('data', (row) => ...)] *)
Definition on_data (jobId : string) (row : gmap string string)
    (st : closure * effects) : closure * effects :=
  let '(c, fx) := st in
  if processingAborted c then st
  else if headersValidated c then (keep row c, fx)
  else
    let headerValidation := validateHeaders (keys row) in
    if headersValid headerValidation then (keep row c, fx)
    else
      let message := default "" (error headerValidation) in
      (abort c, settle (Rejected message) (setJobFailed jobId message (destroy fx))).

(** [parser.on('error', (err) => ...)] *)
Definition on_error (jobId message : string) (st : closure * effects)
  : closure * effects :=
  let '(c, fx) := st in
  (abort c,
   settle (Rejected message)
     (setJobFailed jobId ("CSV parse error: " +:+ message) fx)).

(** The variables of the ['end'] handler, with the shared [errors] array *)
Record progress := {
  processedRows : nat;
  successfulRows_so_far : nat;
  failedRows_so_far : nat;
  errors_so_far : list string;
  fx_so_far : effects;
}.

Section WithStore.

(** [insertOrUpdateReport.run]: the [try] of the row loop allows for a
    store that throws. *)
Variable run : report -> list report -> run_result.

(** One turn of [for (const { row, rowIndex } of results)]; the pause
    before each row and the removal of the file after the loop are not
    modelled. *)
Definition process_row (jobId : string) (total : nat) (p : progress)
    (item : gmap string string * nat) : progress :=
  let '(row, rowIndex) := item in
  let validation := validateRow row rowIndex in
  let processedRows := S (processedRows p) in
  let '(successfulRows, failedRows, errors, fx) :=
    if isValid validation then
      match run (data validation) (reports_table (tables (fx_so_far p))) with
      | Done t =>
          (S (successfulRows_so_far p), failedRows_so_far p, errors_so_far p,
           set_reports t (fx_so_far p))
      | Throws message =>
          (successfulRows_so_far p, S (failedRows_so_far p),
           (errors_so_far p
              ++ ["Row " +:+ show_nat rowIndex +:+ ": Database error - "
                    +:+ message])%list,
           fx_so_far p)
      end
    else
      (successfulRows_so_far p, S (failedRows_so_far p),
       (errors_so_far p ++ Validate.errors validation)%list, fx_so_far p) in
  {| processedRows := processedRows;
     successfulRows_so_far := successfulRows;
     failedRows_so_far := failedRows;
     errors_so_far := errors;
     fx_so_far :=
       write_job jobId
         {| job_status :=
              if Nat.eqb processedRows total then completed else processing;
            total_rows := total;
            processed_rows := processedRows;
            successful_rows := successfulRows;
            failed_rows := failedRows;
            Database.errors := errors |} fx |}.

Definition process_rows (jobId : string) (total : nat) (p : progress)
    (items : list (gmap string string * nat)) : progress :=
  foldl (process_row jobId total) p items.

(** [parser.on('end', async () => ...)] *)
Definition on_end (jobId : string) (st : closure * effects) : effects :=
  let '(c, fx) := st in
  if processingAborted c then fx
  else
    match results c with
    | [] =>
        let message := "CSV file is empty or contains no data rows" in
        settle (Resolved {| totalRows := 0; successfulRows := 0;
                            failedRows := 0; summaryErrors := [message] |})
          (setJobFailed jobId message fx)
    | _ =>
        let total := length (results c) in
        let fx :=
          write_job jobId
            {| job_status := processing;
               total_rows := total;
               processed_rows := 0;
               successful_rows := 0;
               failed_rows := 0;
               Database.errors := [] |} fx in
        let p :=
          process_rows jobId total
            {| processedRows := 0; successfulRows_so_far := 0;
               failedRows_so_far := 0; errors_so_far := [];
               fx_so_far := fx |} (results c) in
        settle (Resolved {| totalRows := total;
                            successfulRows := successfulRows_so_far p;
                            failedRows := failedRows_so_far p;
                            summaryErrors := errors_so_far p |})
          (fx_so_far p)
    end.

(** The stream drives the handlers: a destroyed parser emits nothing
    more. *)
Definition emit_data (jobId : string) (st : closure * effects)
    (row : gmap string string) : closure * effects :=
  if parserDestroyed (snd st) then st else on_data jobId row st.

Definition processCSVFile (u : upload) (jobId : string) (s : store) : effects :=
  let st :=
    foldl (emit_data jobId)
      ({| results := []; rowIndex := 0; headersValidated := false;
          processingAborted := false |}, start s)
      (records u) in
  if parserDestroyed (snd st) then snd st
  else
    match ending_of u with
    | End => on_end jobId st
    | ParseError message => snd (on_error jobId message st)
    end.

(** The rows of job [jobId] that GET /job-status can read, in the order
    they were written. *)
Definition persisted (jobId : string) (fx : effects) : list job :=
  omap (fun s : store => getJob jobId (jobs_table s)) (journal fx).

(** The row of job [jobId] at the end *)
Definition final_job (jobId : string) (fx : effects) : option job :=
  getJob jobId (jobs_table (tables fx)).

End WithStore.

End Pipeline.

(* ===================================================================== *)
(** ** routes/reports.js *)
(* ===================================================================== *)

Module Routes.
Import JS Database Validate.

(** *** POST /report *)

Inductive reply :=
| Created (stored : report)             (* 201 *)
| BadRequest (messages : list string)   (* 400 *)
| ServerError.                          (* 500 *)

Definition post_report (run : report -> list report -> run_result)
    (body : gmap string value) (table : list report) : reply * list report :=
  let validation := validateReport body in
  if isValid validation then
    match run (data validation) table with
    | Done table' => (Created (data validation), table')
    | Throws _ => (ServerError, table)
    end
  else (BadRequest (Validate.errors validation), table).

(** *** POST /reports/upload *)

(** [createJob.run(jobId, 0)] and then [processCSVFile(req.file.path, jobId)],
    which the route starts without awaiting it; [None] when [createJob]
    throws.  [jobId] is the fresh [uuidv4()]. *)
Definition post_reports_upload (run : report -> list report -> run_result)
    (u : Pipeline.upload) (jobId : string) (s : Pipeline.store)
  : option Pipeline.effects :=
  match createJob jobId 0 (Pipeline.jobs_table s) with
  | Some jobs =>
      Some (Pipeline.processCSVFile run u jobId
              {| Pipeline.reports_table := Pipeline.reports_table s;
                 Pipeline.jobs_table := jobs |})
  | None => None
  end.

(** *** GET /dashboard *)

(** [req.query], each parameter a string when it is given *)
Record query := {
  q_month : option string;
  q_month_from : option string;
  q_month_to : option string;
  q_ngo_id : option string;
  q_offset : option string;
  q_limit : option string;
}.

(** The filters object, or the message of the 400 reply *)
Definition build_filters (q : query) : string + filters :=
  let ngoId :=
    match truthy (q_ngo_id q) with
    | Some n => match truthy (Some (trim n)) with
                | Some _ => Some (trim n)
                | None => None
                end
    | None => None
    end in
  match truthy (q_month q) with
  | Some m =>
      if test_year_month m
      then inr {| monthFrom := Some m; monthTo := Some m; ngoId := ngoId |}
      else inl "Invalid month format. Use YYYY-MM"
  | None =>
      match truthy (q_month_from q) with
      | Some f =>
          if negb (test_year_month f)
          then inl "Invalid month_from format. Use YYYY-MM"
          else
            match truthy (q_month_to q) with
            | Some t =>
                if test_year_month t
                then inr {| monthFrom := Some f; monthTo := Some t; ngoId := ngoId |}
                else inl "Invalid month_to format. Use YYYY-MM"
            | None => inr {| monthFrom := Some f; monthTo := None; ngoId := ngoId |}
            end
      | None =>
          match truthy (q_month_to q) with
          | Some t =>
              if test_year_month t
              then inr {| monthFrom := None; monthTo := Some t; ngoId := ngoId |}
              else inl "Invalid month_to format. Use YYYY-MM"
          | None => inr {| monthFrom := None; monthTo := None; ngoId := ngoId |}
          end
      end
  end.

(** [Math.max(0, parseInt(offset) || 0)], with [offset = '0'] when the
    parameter is absent *)
Definition offsetNum (q : query) : number :=
  max (Finite 0 0)
    (or_default (parseInt (Str (default "0" (q_offset q)))) (Finite 0 0)).

(** [Math.min(100, Math.max(1, parseInt(limit) || 20))], with
    [limit = '20'] when the parameter is absent *)
Definition limitNum (q : query) : number :=
  min (Finite 100 0)
    (max (Finite 1 0)
       (or_default (parseInt (Str (default "20" (q_limit q)))) (Finite 20 0))).

(** The integer SQLite takes for a Number bound to [LIMIT ?] or
    [OFFSET ?]; the statement throws on a Number that is not an integer of
    64 bits. *)
Definition sql_integer (n : number) : option Z :=
  match n with
  | Finite c e =>
      let scale := 10 ^ Z.abs e in
      let z := if 0 <=? e then Some (c * scale)
               else if c mod scale =? 0 then Some (c / scale) else None in
      match z with
      | Some v => if Z.abs v <? 2 ^ 63 - 512 then Some v else None
      | None => None
      end
  | _ => None
  end.

Record pagination := {
  offset : number;
  limit : number;
  p_totalRecords : Z;
  p_hasMore : bool;
}.

(** [data] of the 200 reply, without the [summary] that
    [getFilteredDashboardStats] computes *)
Record dashboard_data := {
  d_filters : filters;
  d_reports : list report;
  d_pagination : pagination;
}.

Inductive dashboard_reply :=
| Ok (data : dashboard_data)           (* 200 *)
| Invalid (message : string)           (* 400 *)
| Failed.                              (* 500 *)

Definition get_dashboard (q : query) (table : list report) : dashboard_reply :=
  match build_filters q with
  | inl message => Invalid message
  | inr f =>
      match sql_integer (offsetNum q), sql_integer (limitNum q) with
      | Some o, Some l =>
          let page := getFilteredReports f (Some o) (Some l) table in
          Ok {| d_filters := f;
                d_reports := reports page;
                d_pagination :=
                  {| offset := offsetNum q;
                     limit := limitNum q;
                     p_totalRecords := totalRecords page;
                     p_hasMore := hasMore page |} |}
      | _, _ => Failed
      end
  end.

End Routes.

(* ===================================================================== *)
(** ** The read statements, the read routes and the pages that call them *)
(* ===================================================================== *)

Module Reads.
Import JS Database Validate.

(** *** database.js *)

(** [SELECT * FROM reports ORDER BY month DESC, ngo_id ASC] *)
Definition getAllReports (table : list report) : list report :=
  orderBy table.

(** [ORDER BY ngo_id ASC] *)
Fixpoint place_by_ngo_id (r : report) (sorted : list report) : list report :=
  match sorted with
  | [] => [r]
  | x :: rest =>
      if String.leb (ngo_id r) (ngo_id x) then r :: x :: rest
      else x :: place_by_ngo_id r rest
  end.

(** [SELECT * FROM reports WHERE month = ? ORDER BY ngo_id ASC] *)
Definition getReportsByMonth (m : string) (table : list report) : list report :=
  foldr place_by_ngo_id [] (filter (fun r => month r = m) table).

(** The [total_ngos] column of [getFilteredDashboardStats]:
    [SELECT COUNT(DISTINCT ngo_id) ... FROM reports WHERE ...], under the
    conditions that [getFilteredReports] builds as well.  The three sums
    of the statement are left out. *)
Definition total_ngos (f : filters) (table : list report) : nat :=
  length (remove_dups (map ngo_id (filter (fun r => whereClause f r = true) table))).

(** *** routes/reports.js *)

(** GET /job-status/:jobId: the job of the 200 reply, or the 404 *)
Inductive job_status_reply :=
| JobFound (j : job)      (* 200 *)
| JobNotFound.            (* 404 *)

Definition get_job_status (jobId : string) (jobs : gmap string job)
  : job_status_reply :=
  match getJob jobId jobs with
  | Some j => JobFound j
  | None => JobNotFound
  end.

(** GET /reports: [data] of the 200 reply *)
Definition get_reports (month : option string) (table : list report)
  : list report :=
  match truthy month with
  | Some m => getReportsByMonth m table
  | None => getAllReports table
  end.

(** *** components/BulkUpload.jsx *)

(** The statuses at which the page stops polling GET /job-status *)
Definition isTerminalStatus (s : status) : bool :=
  match s with
  | completed | failed => true
  | _ => false
  end.

(** *** components/Dashboard.jsx *)

(** [isDateRangeValid] on the two month inputs; [>] on strings compares
    them code unit by code unit. *)
Definition isDateRangeValid (monthFrom monthTo : string) : bool :=
  negb (negb (String.eqb monthFrom "") && negb (String.eqb monthTo "")
        && String.ltb monthTo monthFrom).

End Reads.

(* ===================================================================== *)
(** ** Vocabulary of the statements *)
(* ===================================================================== *)

Section ReportStoreTerms.
Import Database.

(** The [UNIQUE(ngo_id, month)] constraint of the table *)
Definition unique (t : list report) : Prop := NoDup (map key t).

(** The rows stored under a key *)
Definition stored (k : string * string) (t : list report) : list report :=
  filter (fun r => key r = k) t.

(** A run of upserts, oldest first *)
Definition upserts (ps : list report) (t : list report) : list report :=
  foldl (fun t p => insertOrUpdateReport p t) t ps.

End ReportStoreTerms.

Section FirstPassTerms.
Import JS Database Validate Pipeline.

(** The closure before the first event *)
Definition fresh : closure :=
  {| results := []; rowIndex := 0; headersValidated := false;
     processingAborted := false |}.

(** Records with their 1-based row numbers, counting on from [k] *)
Definition numbered (k : nat) (rows : list (gmap string string))
  : list (gmap string string * nat) :=
  imap (fun i row => (row, S (k + i))) rows.

End FirstPassTerms.

Section SecondPassTerms.
Import JS Database Validate Pipeline.
Local Open Scope nat_scope.
Local Open Scope list_scope.

(** A job is registered when [createJob] has inserted its row. *)
Definition registered (id : string) (s : store) : Prop :=
  is_Some (jobs_table s !! id).

(** The counters of a row of [jobs] agree with each other. *)
Definition counts_ok (j : job) : Prop :=
  processed_rows j = successful_rows j + failed_rows j
  /\ processed_rows j <= total_rows j.

Definition counts_le (a b : job) : Prop :=
  processed_rows a <= processed_rows b
  /\ successful_rows a <= successful_rows b
  /\ failed_rows a <= failed_rows b.

(** No counter ever goes down along a list of rows, oldest first. *)
Definition monotone (js : list job) : Prop :=
  forall i j a b, i <= j -> js !! i = Some a -> js !! j = Some b -> counts_le a b.

(** The row that a turn of the loop writes *)
Definition snapshot (total : nat) (p : progress) : job :=
  {| job_status := if Nat.eqb (processedRows p) total then completed else processing;
     total_rows := total;
     processed_rows := processedRows p;
     successful_rows := successfulRows_so_far p;
     failed_rows := failedRows_so_far p;
     Database.errors := errors_so_far p |}.

(** What one turn of the loop does, case by case. *)
Inductive turn (run : report -> list report -> run_result) (p : progress)
    (row : gmap string string) (rowIndex : nat)
  : progress -> Prop :=
| turn_stored t :
    isValid (validateRow row rowIndex) = true ->
    run (data (validateRow row rowIndex)) (reports_table (tables (fx_so_far p)))
      = Done t ->
    turn run p row rowIndex
      {| processedRows := S (processedRows p);
         successfulRows_so_far := S (successfulRows_so_far p);
         failedRows_so_far := failedRows_so_far p;
         errors_so_far := errors_so_far p;
         fx_so_far := set_reports t (fx_so_far p) |}
| turn_thrown message :
    isValid (validateRow row rowIndex) = true ->
    run (data (validateRow row rowIndex)) (reports_table (tables (fx_so_far p)))
      = Throws message ->
    turn run p row rowIndex
      {| processedRows := S (processedRows p);
         successfulRows_so_far := successfulRows_so_far p;
         failedRows_so_far := S (failedRows_so_far p);
         errors_so_far :=
           errors_so_far p
             ++ [("Row " +:+ show_nat rowIndex +:+ ": Database error - "
                    +:+ message)%string];
         fx_so_far := fx_so_far p |}
| turn_invalid :
    isValid (validateRow row rowIndex) = false ->
    turn run p row rowIndex
      {| processedRows := S (processedRows p);
         successfulRows_so_far := successfulRows_so_far p;
         failedRows_so_far := S (failedRows_so_far p);
         errors_so_far := errors_so_far p ++ Validate.errors (validateRow row rowIndex);
         fx_so_far := fx_so_far p |}.

Definition below (p : progress) (j : job) : Prop :=
  processed_rows j <= processedRows p
  /\ successful_rows j <= successfulRows_so_far p
  /\ failed_rows j <= failedRows_so_far p.

(** The loop invariant: the running totals add up, and every row of [jobs]
    written so far is consistent, below the running totals, and in
    non-decreasing order. *)
Definition steady (jobId : string) (p : progress) : Prop :=
  processedRows p = successfulRows_so_far p + failedRows_so_far p
  /\ Forall (fun j => counts_ok j /\ below p j) (persisted jobId (fx_so_far p))
  /\ monotone (persisted jobId (fx_so_far p)).

End SecondPassTerms.

Section RowNumberTerms.
Import JS Database Validate.
Local Open Scope list_scope.

(** A data row is well-formed when the record validator accepts it. *)
Definition well_formed_row (row : gmap string string) : bool :=
  isValid (validateRow row 1).

End RowNumberTerms.

Section RunsTerms.
Import JS Database Validate Pipeline.
Local Open Scope nat_scope.
Local Open Scope list_scope.

(** The row that [setJobFailed] writes *)
Definition failed_job (message : string) : job :=
  {| job_status := failed; total_rows := 0; processed_rows := 0;
     successful_rows := 0; failed_rows := 0; Database.errors := [message] |}.

Definition empty_message : string :=
  "CSV file is empty or contains no data rows".

Definition missing_message (headers : list string) : string :=
  "Missing required columns: " +:+ join ", " (missingHeaders headers).

(** The loop variables when the row loop is entered: the job has just been
    set to [processing]. *)
Definition loop_entry (jobId : string) (total : nat) (s : store) : progress :=
  {| processedRows := 0; successfulRows_so_far := 0; failedRows_so_far := 0;
     errors_so_far := [];
     fx_so_far :=
       write_job jobId
         {| job_status := processing; total_rows := total; processed_rows := 0;
            successful_rows := 0; failed_rows := 0; Database.errors := [] |}
         (start s) |}.

(** The loop variables when the row loop is left *)
Definition loop_exit (run : report -> list report -> run_result) (jobId : string)
    (rows : list (gmap string string)) (s : store) : progress :=
  process_rows run jobId (length rows) (loop_entry jobId (length rows) s)
    (numbered 0 rows).

End RunsTerms.

Section TallyTerms.
Import JS Database Validate Pipeline.
Local Open Scope nat_scope.
Local Open Scope list_scope.

(** The rows the record validator accepts, and those it refuses *)
Definition accepted (rows : list (gmap string string)) : list (gmap string string) :=
  filter (fun row => well_formed_row row = true) rows.

Definition refused (rows : list (gmap string string)) : list (gmap string string) :=
  filter (fun row => well_formed_row row = false) rows.

(** The statement parameters of a row *)
Definition row_data (row : gmap string string) : report :=
  data (validateRow row 1).

End TallyTerms.

Section ScenariosTerms.
Import JS Database Validate Pipeline.

Definition pending_job : job :=
  {| job_status := pending; total_rows := 0; processed_rows := 0;
     successful_rows := 0; failed_rows := 0; Database.errors := [] |}.

(** An empty [reports] table and one job just created *)
Definition store0 : store :=
  {| reports_table := []; jobs_table := {[ "job-1" := pending_job ]} |}.

Definition csv_row (ngo month people events funds : string) : gmap string string :=
  {[ "ngo_id" := ngo; "month" := month; "people_helped" := people;
     "events_conducted" := events; "funds_utilized" := funds ]}.

Definition row_a : gmap string string := csv_row "NGO001" "2024-01" "150" "5" "50000".
Definition row_b : gmap string string := csv_row "NGO002" "2024-01" "80" "2" "1200.50".
Definition row_bad : gmap string string := csv_row "NGO003" "2024-1" "-4" "x" "10".

(** Two good rows *)
Definition upload_good : upload :=
  {| columns := REQUIRED_HEADERS; records := [row_a; row_b]; ending_of := End |}.

(** A bad row between two good ones *)
Definition upload_one_bad : upload :=
  {| columns := REQUIRED_HEADERS; records := [row_a; row_bad; row_b];
     ending_of := End |}.

(** A header without three of the required columns, over one data line *)
Definition upload_short_header : upload :=
  {| columns := ["ngo_id"; "month"];
     records := [ {[ "ngo_id" := "NGO001"; "month" := "2024-01" ]} ];
     ending_of := End |}.

(** The same header with no data line under it *)
Definition upload_header_only : upload :=
  {| columns := ["ngo_id"; "month"]; records := []; ending_of := End |}.


(** Well-formedness of an upload, decided record by record and name by
    name. *)
Definition well_formed_check (u : upload) : bool :=
  forallb (fun row : gmap string string =>
             forallb (fun k => includes (columns u) k) (keys row)
             && forallb (fun k => includes (keys row) k) (columns u))
    (records u).

End ScenariosTerms.

Section MissingFieldsTerms.
Import JS Database Validate Pipeline.
Local Open Scope nat_scope.
Local Open Scope list_scope.

(** The message [validateRow] gives for a required field that the record
    does not have, after the ["Row n: "] prefix *)
Definition absent_field_message (name : string) : string :=
  if String.eqb name "ngo_id" then "NGO ID is required"
  else if String.eqb name "month" then "Month is required"
  else if String.eqb name "people_helped"
       then "People Helped must be a non-negative number"
  else if String.eqb name "events_conducted"
       then "Events Conducted must be a non-negative number"
  else "Funds Utilized must be a non-negative number".

End MissingFieldsTerms.

Section SubmissionsTerms.
Import JS Database Validate Pipeline Routes.
Local Open Scope nat_scope.
Local Open Scope list_scope.

(** A submission is the body of a POST /report or one data row of an upload
    on its turn in the row loop. *)
Inductive submission :=
| Single (body : gmap string value)
| BulkRow (row : gmap string string) (rowIndex : nat).

Definition validated (x : submission) : validation :=
  match x with
  | Single body => validateReport body
  | BulkRow row rowIndex => validateRow row rowIndex
  end.

(** What a submission does to [reports], through the code of its path *)
Definition submit (x : submission) (t : list report) : list report :=
  match x with
  | Single body => snd (post_report run_insertOrUpdateReport body t)
  | BulkRow row rowIndex =>
      reports_table
        (tables (fx_so_far
           (process_row run_insertOrUpdateReport "" 0
              (loop_entry "" 0 {| reports_table := t; jobs_table := ∅ |})
              (row, rowIndex))))
  end.

Definition submit_all (xs : list submission) (t : list report) : list report :=
  foldl (fun t x => submit x t) t xs.

Definition report_body (ngo month : string) (people events funds : Z)
  : gmap string value :=
  {[ "ngo_id" := Str ngo; "month" := Str month; "people_helped" := Num people;
     "events_conducted" := Num events; "funds_utilized" := Num funds ]}.

End SubmissionsTerms.

Section NumericPrefixesTerms.
Import JS Database Validate.

Definition json_row (ngo month people events funds : string) : gmap string value :=
  {[ "ngo_id" := Str ngo; "month" := Str month; "people_helped" := Str people;
     "events_conducted" := Str events; "funds_utilized" := Str funds ]}.

Definition stored_as (people events funds : number) : report :=
  {| ngo_id := "NGO001"; month := "2024-01"; people_helped := people;
     events_conducted := events; funds_utilized := funds |}.

End NumericPrefixesTerms.

Section PaginationTerms.
Import JS Database Validate Routes.
Local Open Scope Z_scope.
Local Open Scope list_scope.

Definition paging (offset limit : option string) : query :=
  {| q_month := None; q_month_from := None; q_month_to := None;
     q_ngo_id := None; q_offset := offset; q_limit := limit |}.

Definition three_reports : list report :=
  [ stored_as (Finite 1 0) (Finite 1 0) (Finite 1 0);
    {| ngo_id := "NGO002"; month := "2024-01"; people_helped := Finite 2 0;
       events_conducted := Finite 2 0; funds_utilized := Finite 2 0 |};
    {| ngo_id := "NGO001"; month := "2024-02"; people_helped := Finite 3 0;
       events_conducted := Finite 3 0; funds_utilized := Finite 3 0 |} ].

End PaginationTerms.

Section NgoFilterTerms.
Import JS Database Validate Routes.
Local Open Scope string_scope.




(** The query with nothing but an ngo_id filter *)
Definition only_ngoId (f : string) : filters :=
  {| monthFrom := None; monthTo := None; ngoId := Some f |}.

End NgoFilterTerms.

Section NormalTerms.
Import JS Database Validate.
Local Open Scope Z_scope.

(** A count that the validators let through: a non-negative integer, or
    the Infinity that an overlong numeral reads as *)
Definition count_like (n : number) : Prop :=
  match n with
  | Finite c e => e = 0 /\ 0 <= c
  | Infinity neg => neg = false
  | NaN => False
  end.

(** An amount that the validators let through *)
Definition amount_like (n : number) : Prop :=
  isNaN n = false /\ negative n = false.

(** What the validators hand to the store *)
Definition normalised (d : report) : Prop :=
  trim (ngo_id d) = ngo_id d
  /\ ngo_id d <> ""%string
  /\ test_year_month (month d) = true
  /\ count_like (people_helped d)
  /\ count_like (events_conducted d)
  /\ amount_like (funds_utilized d).

(** The checks of the validators on the five fields they read *)
Definition checks (ngo month people events funds : value) : Prop :=
  (falsy ngo || String.eqb (trim (ToString ngo)) "")%bool = false
  /\ (falsy month || String.eqb (trim (ToString month)) "")%bool = false
  /\ test_year_month (trim (ToString month)) = true
  /\ (isNaN (parseInt people) || negative (parseInt people))%bool = false
  /\ (isNaN (parseInt events) || negative (parseInt events))%bool = false
  /\ (isNaN (parseFloat funds) || negative (parseFloat funds))%bool = false.

(** The JSON body whose fields are the strings of a CSV record *)
Definition body_of_row (row : gmap string string) : gmap string value :=
  Str <$> row.

End NormalTerms.

Section UploadTerms.
Import JS Database Validate Pipeline.
Local Open Scope nat_scope.
Local Open Scope list_scope.

(** The run goes through the row loop: a first record with an accepted
    header, and a stream that ends without an error *)
Definition reaches_loop (u : upload) : bool :=
  match records u, ending_of u with
  | row :: _, End => headersValid (validateHeaders (keys row))
  | _, _ => false
  end.

(** The latest statement of a batch for a key *)
Definition latest_for (k : string * string) (ps : list report) : option report :=
  last (filter (fun p => key p = k) ps).

(** The statements an upload runs on [reports], oldest first *)
Definition statements (u : upload) : list report :=
  map row_data (accepted (records u)).

(** The [reports] table after an upload on the store of database.js *)
Definition uploaded (u : upload) (jobId : string) (s : store) : list report :=
  reports_table (tables (processCSVFile run_insertOrUpdateReport u jobId s)).

(** The loop variables after each row in turn *)
Fixpoint progress_after (run : report -> list report -> run_result)
    (jobId : string) (total : nat) (p : progress)
    (items : list (gmap string string * nat)) : list progress :=
  match items with
  | [] => []
  | item :: rest =>
      let p' := process_row run jobId total p item in
      p' :: progress_after run jobId total p' rest
  end.

(** Along a list, oldest first, later entries are related to earlier
    ones. *)
Definition ascending {A} (R : A -> A -> Prop) (l : list A) : Prop :=
  forall i k a b, i <= k -> l !! i = Some a -> l !! k = Some b -> R a b.

(** The messages of a job row only grow. *)
Definition errors_grow (a b : job) : Prop :=
  Database.errors a `prefix_of` Database.errors b.

(** The settled promise and the job row tell the same story. *)
Definition agrees (o : settlement) (j : job) : Prop :=
  match o with
  | Resolved result =>
      total_rows j = totalRows result
      /\ successful_rows j = successfulRows result
      /\ failed_rows j = failedRows result
      /\ Database.errors j = summaryErrors result
  | Rejected message =>
      job_status j = failed
      /\ (Database.errors j = [message]
          \/ Database.errors j = [("CSV parse error: " +:+ message)%string])
  end.

(** The row written when the row loop is entered *)
Definition processing_job (total : nat) : job :=
  {| job_status := processing; total_rows := total; processed_rows := 0;
     successful_rows := 0; failed_rows := 0; Database.errors := [] |}.

(** The messages a row adds on a store that takes every statement *)
Definition row_messages (item : gmap string string * nat) : list string :=
  Validate.errors (validateRow item.1 item.2).

(** The messages a row adds on a store that throws [why p] for the
    statement with parameters [p] *)
Definition thrown_messages (why : report -> string)
    (item : gmap string string * nat) : list string :=
  if isValid (validateRow item.1 item.2)
  then [("Row " +:+ show_nat item.2 +:+ ": Database error - "
           +:+ why (data (validateRow item.1 item.2)))%string]
  else Validate.errors (validateRow item.1 item.2).

(** A message that starts with the number of one of the first [n] rows *)
Definition names_row (n : nat) (message : string) : Prop :=
  exists i rest,
    1 <= i <= n /\ message = ("Row " +:+ show_nat i +:+ ": " +:+ rest)%string.

(** A store that throws at every statement *)
Definition run_failing (message : string) (p : report) (t : list report)
  : run_result :=
  Throws message.

(** A second job, created like the first *)
Definition store1 : store :=
  {| reports_table := [];
     jobs_table := {[ "job-1"%string := pending_job; "job-2"%string := pending_job ]} |}.

End UploadTerms.

Section PagesTerms.
Import JS Database Validate Routes Reads.
Local Open Scope Z_scope.
Local Open Scope list_scope.

(** Every entry of a list stands before every later one. *)
Definition in_order (l : list report) : Prop :=
  forall i j a b, (i < j)%nat -> l !! i = Some a -> l !! j = Some b ->
                  before a b = true.

(** The rows that match the filters, in the order of the dashboard *)
Definition matching (f : filters) (table : list report) : list report :=
  orderBy (filter (fun r => whereClause f r = true) table).

(** The rows a client holds after [n] requests, each for the page at the
    offset of the rows it holds already *)
Fixpoint fetched (f : filters) (limit : Z) (table : list report) (n : nat)
  : list report :=
  match n with
  | O => []
  | S n =>
      let held := fetched f limit table n in
      held ++ reports (getFilteredReports f (Some (Z.of_nat (length held)))
                         (Some limit) table)
  end.

(** The query of the legacy single-month parameter *)
Definition month_query (m : option string) (offset limit : option string) : query :=
  {| q_month := m; q_month_from := None; q_month_to := None;
     q_ngo_id := None; q_offset := offset; q_limit := limit |}.

(** The query of a range of months *)
Definition range_query (monthFrom monthTo : string) : query :=
  {| q_month := None; q_month_from := Some monthFrom; q_month_to := Some monthTo;
     q_ngo_id := None; q_offset := None; q_limit := None |}.

End PagesTerms.

Section VariantsTerms.
Import JS Database Validate Pipeline.



(** A table that holds an older report of NGO001 for 2024-01, and one job
    just created *)
Definition store_old : store :=
  {| reports_table := [stored_as (Finite 1 0) (Finite 1 0) (Finite 1 0)];
     jobs_table := {[ "job-1"%string := pending_job ]} |}.

(** The five data columns of a row *)
Definition values (r : report) : string * string * number * number * number :=
  (ngo_id r, month r, people_helped r, events_conducted r, funds_utilized r).

End VariantsTerms.

(* ===================================================================== *)
(** ** The report store: one row per (ngo_id, month) *)
(* ===================================================================== *)

Section ReportStore.
Import Database.

Lemma same_key_true p r : same_key p r = true <-> key p = key r.
Proof.
  unfold same_key, key. rewrite andb_true_iff, !String.eqb_eq.
  split; [intros [-> ->]; reflexivity | intros [= -> ->]; auto].
Qed.

Lemma same_key_false p r : same_key p r = false <-> key p <> key r.
Proof.
  rewrite <- same_key_true. destruct (same_key p r); split; congruence.
Qed.

Lemma do_update_same p r : key p = key r -> do_update p r = p.
Proof.
  destruct p, r. unfold key, do_update. simpl. intros [= -> ->]. reflexivity.
Qed.

Lemma existsb_same_key p t :
  existsb (same_key p) t = true <-> key p ∈ map key t.
Proof.
  rewrite existsb_exists, list_elem_of_fmap. split.
  - intros (r & Hin & Hk). exists r. split; [now apply same_key_true |].
    now apply list_elem_of_In.
  - intros (r & Hk & Hin). exists r. split; [now apply list_elem_of_In |].
    now apply same_key_true.
Qed.

Lemma update_keys p t :
  map key (map (fun r => if same_key p r then do_update p r else r) t)
  = map key t.
Proof.
  induction t as [|r t IH]; simpl; [reflexivity |]. rewrite IH. f_equal.
  destruct (same_key p r); reflexivity.
Qed.

Lemma insertOrUpdateReport_unique p t :
  unique t -> unique (insertOrUpdateReport p t).
Proof.
  unfold unique, insertOrUpdateReport. intros Hu.
  destruct (existsb (same_key p) t) eqn:He.
  - now rewrite update_keys.
  - rewrite map_app. simpl. apply NoDup_app. repeat split; auto.
    + intros k Hk Hk'. apply list_elem_of_singleton in Hk'. subst k.
      apply existsb_same_key in Hk. congruence.
    + apply NoDup_singleton.
Qed.

Lemma stored_absent k t : k ∉ map key t -> stored k t = [].
Proof.
  unfold stored. induction t as [|r t IH]; simpl; intros Hk; [reflexivity |].
  rewrite filter_cons. destruct (decide (key r = k)) as [<-|_].
  - exfalso. apply Hk. left.
  - apply IH. intros Hin. apply Hk. now right.
Qed.

Lemma stored_update_same p t :
  unique t -> key p ∈ map key t ->
  stored (key p) (map (fun r => if same_key p r then do_update p r else r) t)
  = [p].
Proof.
  unfold unique, stored. induction t as [|r t IH]; simpl; intros Hu Hin.
  - now apply elem_of_nil in Hin.
  - apply NoDup_cons in Hu as [Hr Hu]. rewrite filter_cons.
    destruct (same_key p r) eqn:Hs.
    + apply same_key_true in Hs. rewrite do_update_same by assumption.
      rewrite decide_True by reflexivity. f_equal.
      fold (stored (key p) (map (fun r => if same_key p r then do_update p r else r) t)).
      apply stored_absent. rewrite update_keys. now rewrite Hs.
    + apply same_key_false in Hs. rewrite decide_False by congruence.
      apply IH; [assumption |]. apply elem_of_cons in Hin as [Hin|Hin];
        [congruence | assumption].
Qed.

(** After an upsert the key of the statement holds exactly its
    parameters. *)
Lemma stored_insertOrUpdateReport_same p t :
  unique t -> stored (key p) (insertOrUpdateReport p t) = [p].
Proof.
  intros Hu. unfold insertOrUpdateReport.
  destruct (existsb (same_key p) t) eqn:He.
  - apply stored_update_same; [assumption |]. now apply existsb_same_key.
  - unfold stored. rewrite filter_app. fold (stored (key p) t).
    rewrite stored_absent.
    + rewrite filter_cons, decide_True by reflexivity. reflexivity.
    + intros Hin. apply existsb_same_key in Hin. congruence.
Qed.

(** Every other key is left as it was. *)
Lemma stored_insertOrUpdateReport_other p k t :
  key p <> k -> stored k (insertOrUpdateReport p t) = stored k t.
Proof.
  intros Hk. unfold insertOrUpdateReport, stored.
  destruct (existsb (same_key p) t).
  - induction t as [|r t IH]; simpl; [reflexivity |].
    rewrite !filter_cons, IH. destruct (same_key p r) eqn:Hs.
    + apply same_key_true in Hs.
      rewrite do_update_same by assumption.
      rewrite !decide_False by congruence. reflexivity.
    + reflexivity.
  - rewrite filter_app, filter_cons, decide_False by assumption.
    now rewrite filter_nil, app_nil_r.
Qed.

Lemma insertOrUpdateReport_has_key p t :
  key p ∈ map key (insertOrUpdateReport p t).
Proof.
  unfold insertOrUpdateReport. destruct (existsb (same_key p) t) eqn:He.
  - rewrite update_keys. now apply existsb_same_key.
  - rewrite map_app. apply elem_of_app. right. simpl. left.
Qed.

Lemma insertOrUpdateReport_keeps_keys p k t :
  k ∈ map key t -> k ∈ map key (insertOrUpdateReport p t).
Proof.
  unfold insertOrUpdateReport. destruct (existsb (same_key p) t).
  - now rewrite update_keys.
  - rewrite map_app. intros H. apply elem_of_app. now left.
Qed.

Lemma upserts_snoc ps p t :
  upserts (ps ++ [p]) t = insertOrUpdateReport p (upserts ps t).
Proof. unfold upserts. now rewrite foldl_app. Qed.

Lemma upserts_unique ps t : unique t -> unique (upserts ps t).
Proof.
  revert t. induction ps as [|p ps IH]; simpl; intros t Hu; [assumption |].
  apply IH. now apply insertOrUpdateReport_unique.
Qed.

Lemma upserts_has_key ps p t : p ∈ ps -> key p ∈ map key (upserts ps t).
Proof.
  induction ps as [|q ps IH] using rev_ind; intros Hin.
  - now apply elem_of_nil in Hin.
  - rewrite upserts_snoc. apply elem_of_app in Hin as [Hin|Hin].
    + apply insertOrUpdateReport_keeps_keys. now apply IH.
    + apply list_elem_of_singleton in Hin. subst q.
      apply insertOrUpdateReport_has_key.
Qed.

(** Last write wins: after a run of upserts that ends with [p], the key of
    [p] holds [p] and nothing else. *)
Lemma upserts_last ps p t :
  unique t -> stored (key p) (upserts (ps ++ [p]) t) = [p].
Proof.
  intros Hu. rewrite upserts_snoc.
  apply stored_insertOrUpdateReport_same. now apply upserts_unique.
Qed.

End ReportStore.

(* ===================================================================== *)
(** ** Batches of upserts *)
(* ===================================================================== *)

Section Batches.
Import Database.
Local Open Scope nat_scope.
Local Open Scope list_scope.

Lemma stored_upserts k ps t :
  unique t ->
  stored k (upserts ps t)
  = match latest_for k ps with
    | Some p => [p]
    | None => stored k t
    end.
Proof.
  intros Hu. unfold latest_for.
  induction ps as [|p ps IH] using rev_ind; [reflexivity |].
  rewrite upserts_snoc, filter_app, filter_cons, filter_nil.
  destruct (decide (key p = k)) as [<- | Hk].
  - rewrite last_snoc. apply stored_insertOrUpdateReport_same.
    now apply upserts_unique.
  - rewrite app_nil_r, stored_insertOrUpdateReport_other by assumption.
    exact IH.
Qed.

Lemma insertOrUpdateReport_keys p t :
  map key (insertOrUpdateReport p t)
  = map key t ++ (if existsb (same_key p) t then [] else [key p]).
Proof.
  unfold insertOrUpdateReport. destruct (existsb (same_key p) t).
  - now rewrite update_keys, app_nil_r.
  - now rewrite map_app.
Qed.

Lemma upserts_keys_present ps t :
  (forall p, p ∈ ps -> key p ∈ map key t) ->
  map key (upserts ps t) = map key t.
Proof.
  revert t. induction ps as [|p ps IH]; intros t Hin; [reflexivity |].
  unfold upserts in *. simpl.
  assert (map key (insertOrUpdateReport p t) = map key t) as Hk.
  { rewrite insertOrUpdateReport_keys.
    assert (existsb (same_key p) t = true) as ->
      by (apply existsb_same_key, Hin; left).
    apply app_nil_r. }
  rewrite IH; [exact Hk |].
  intros q Hq. rewrite Hk. apply Hin. now right.
Qed.

(** A table under its UNIQUE constraint is determined by the order of its
    keys and by what it stores under each key. *)
Lemma table_ext t1 t2 :
  unique t1 ->
  map key t1 = map key t2 ->
  (forall k, stored k t1 = stored k t2) ->
  t1 = t2.
Proof.
  unfold unique, stored. revert t2.
  induction t1 as [|r1 t1 IH]; intros t2 Hu Hk Hs.
  - destruct t2; [reflexivity | discriminate Hk].
  - destruct t2 as [|r2 t2]; [discriminate Hk |].
    change (key r1 :: map key t1 = key r2 :: map key t2) in Hk.
    change (NoDup (key r1 :: map key t1)) in Hu.
    assert (key r1 = key r2 /\ map key t1 = map key t2) as [Hr Hk']
      by (split; congruence).
    clear Hk. rename Hk' into Hk.
    apply NoDup_cons in Hu as [Hnot Hu].
    assert (forall t, map key t = map key t1 ->
                      filter (fun r => key r = key r1) t = []) as Hnone.
    { intros t Ht. apply (stored_absent (key r1) t). now rewrite Ht. }
    pose proof (Hs (key r1)) as H1.
    rewrite !filter_cons in H1.
    rewrite decide_True in H1 by reflexivity.
    rewrite decide_True in H1 by (symmetry; exact Hr).
    rewrite (Hnone t1 eq_refl), (Hnone t2 (eq_sym Hk)) in H1.
    injection H1 as <-. f_equal.
    apply IH; [assumption | assumption |].
    intros k. specialize (Hs k). rewrite !filter_cons in Hs.
    destruct (decide (key r1 = k)); [now injection Hs | exact Hs].
Qed.

Lemma upserts_twice ps t :
  unique t -> upserts ps (upserts ps t) = upserts ps t.
Proof.
  intros Hu. symmetry. apply table_ext.
  - now apply upserts_unique.
  - symmetry. apply upserts_keys_present.
    intros p Hp. now apply upserts_has_key.
  - intros k. rewrite (stored_upserts k ps (upserts ps t))
      by now apply upserts_unique.
    rewrite (stored_upserts k ps t) by assumption.
    destruct (latest_for k ps); reflexivity.
Qed.

Lemma upserts_Forall (P : report -> Prop) ps t :
  Forall P t -> Forall P ps -> Forall P (upserts ps t).
Proof.
  revert t. induction ps as [|p ps IH]; intros t Ht Hps; [exact Ht |].
  apply Forall_cons in Hps as [Hp Hps].
  unfold upserts in *. simpl. apply IH; [| exact Hps].
  unfold insertOrUpdateReport. destruct (existsb (same_key p) t).
  - rewrite Forall_forall in Ht |- *. intros r Hr.
    apply list_elem_of_fmap in Hr as (r0 & -> & Hr0).
    destruct (same_key p r0) eqn:E; [| now apply Ht].
    apply same_key_true in E. now rewrite do_update_same.
  - apply Forall_app. split; [exact Ht | now constructor].
Qed.

Lemma latest_for_only k d ps :
  d ∈ ps -> key d = k ->
  (forall p, p ∈ ps -> key p = k -> p = d) ->
  latest_for k ps = Some d.
Proof.
  intros Hd Hk Hall. unfold latest_for.
  assert (d ∈ filter (fun p => key p = k) ps) as Hin
    by (apply list_elem_of_filter; now split).
  destruct (last (filter (fun p => key p = k) ps)) as [p |] eqn:E.
  - f_equal. apply last_Some in E as [l E].
    assert (p ∈ filter (fun p => key p = k) ps) as Hp
      by (rewrite E; apply elem_of_app; right; left).
    apply list_elem_of_filter in Hp as [Hpk Hp]. now apply Hall.
  - apply last_None in E. rewrite E in Hin. now apply elem_of_nil in Hin.
Qed.

End Batches.

(* ===================================================================== *)
(** ** The first pass of processCSVFile *)
(* ===================================================================== *)

Section FirstPass.
Import JS Database Validate Pipeline.

Variable jobId : string.

Lemma numbered_length k rows : length (numbered k rows) = length rows.
Proof. unfold numbered. apply length_imap. Qed.

Lemma numbered_cons k row rows :
  numbered k (row :: rows) = (row, S k) :: numbered (S k) rows.
Proof.
  unfold numbered. simpl. rewrite Nat.add_0_r. f_equal.
  apply imap_ext. intros i x _. simpl. f_equal. lia.
Qed.

Lemma numbered_rows k rows : (numbered k rows).*1 = rows.
Proof.
  revert k. induction rows as [|r rows IH]; intros k; [reflexivity |].
  rewrite numbered_cons. simpl. now rewrite IH.
Qed.

(** Once the header is accepted every further record is kept. *)
Lemma first_pass_keeps rows acc k fx :
  parserDestroyed fx = false ->
  foldl (emit_data jobId)
    ({| results := acc; rowIndex := k; headersValidated := true;
        processingAborted := false |}, fx) rows
  = ({| results := acc ++ numbered k rows; rowIndex := k + length rows;
        headersValidated := true; processingAborted := false |}, fx).
Proof.
  intros Hfx. revert acc k.
  induction rows as [|r rows IH]; intros acc k; simpl.
  - now rewrite app_nil_r, Nat.add_0_r.
  - unfold emit_data at 2. simpl. rewrite Hfx. unfold keep. simpl.
    rewrite IH, numbered_cons, <- app_assoc. simpl.
    repeat f_equal. lia.
Qed.

(** A destroyed parser delivers nothing more. *)
Lemma first_pass_destroyed rows c fx :
  parserDestroyed fx = true ->
  foldl (emit_data jobId) (c, fx) rows = (c, fx).
Proof.
  intros Hfx. induction rows as [|r rows IH]; simpl; [reflexivity |].
  unfold emit_data at 2. simpl. now rewrite Hfx.
Qed.

Lemma first_pass_accepts row rows s :
  headersValid (validateHeaders (keys row)) = true ->
  foldl (emit_data jobId) (fresh, start s) (row :: rows)
  = ({| results := numbered 0 (row :: rows); rowIndex := S (length rows);
        headersValidated := true; processingAborted := false |}, start s).
Proof.
  intros Hv. simpl. unfold emit_data at 2. simpl. rewrite Hv.
  unfold keep. simpl. rewrite first_pass_keeps by reflexivity.
  now rewrite numbered_cons.
Qed.

Lemma first_pass_rejects row rows s :
  headersValid (validateHeaders (keys row)) = false ->
  foldl (emit_data jobId) (fresh, start s) (row :: rows)
  = (abort fresh,
     let message := default "" (error (validateHeaders (keys row))) in
     settle (Rejected message) (setJobFailed jobId message (destroy (start s)))).
Proof.
  intros Hv. simpl. unfold emit_data at 2. simpl. rewrite Hv.
  now rewrite first_pass_destroyed by reflexivity.
Qed.

End FirstPass.

(* ===================================================================== *)
(** ** The header check on the records of a well-formed upload *)
(* ===================================================================== *)

Section Headers.
Import JS Validate Pipeline.

Lemma includes_true arr x : includes arr x = true <-> x ∈ arr.
Proof.
  unfold includes. rewrite existsb_exists. split.
  - intros (y & Hin & Heq). apply String.eqb_eq in Heq. subst y.
    now apply list_elem_of_In.
  - intros Hin. exists x. split; [now apply list_elem_of_In | apply String.eqb_refl].
Qed.

Lemma includes_same_elements (f : string -> string) l1 l2 x :
  (forall k, k ∈ l1 <-> k ∈ l2) ->
  includes (map f l1) x = includes (map f l2) x.
Proof.
  intros Hsame. apply eq_true_iff_eq. rewrite !includes_true.
  rewrite !list_elem_of_fmap. split; intros (k & -> & Hk); exists k;
    (split; [reflexivity | now apply Hsame]).
Qed.

(** The header check looks at the set of names only. *)
Lemma missingHeaders_same_elements l1 l2 :
  (forall k, k ∈ l1 <-> k ∈ l2) -> missingHeaders l1 = missingHeaders l2.
Proof.
  intros Hsame. unfold missingHeaders. apply List.filter_ext. intros x.
  now rewrite (includes_same_elements _ l1 l2).
Qed.

Lemma elem_of_keys (row : gmap string string) k :
  k ∈ keys row <-> is_Some (row !! k).
Proof.
  unfold keys. rewrite list_elem_of_fmap. split.
  - intros ([k' v] & -> & Hin). apply elem_of_map_to_list in Hin. now exists v.
  - intros [v Hv]. exists (k, v). split; [reflexivity |].
    now apply elem_of_map_to_list.
Qed.

Lemma validateHeaders_row u row :
  well_formed u -> row ∈ records u ->
  validateHeaders (keys row) = validateHeaders (columns u).
Proof.
  intros Hwf Hin. unfold validateHeaders.
  rewrite (missingHeaders_same_elements (keys row) (columns u)); [reflexivity |].
  intros k. rewrite elem_of_keys.
  unfold well_formed in Hwf. rewrite Forall_forall in Hwf. now apply Hwf.
Qed.

(** A required name is reported missing exactly when no column reads as it
    once lower-cased and trimmed. *)
Lemma elem_of_missingHeaders headers name :
  name ∈ missingHeaders headers
  <-> name ∈ REQUIRED_HEADERS
      /\ forall h, h ∈ headers -> trim (toLowerCase h) <> name.
Proof.
  unfold missingHeaders. rewrite list_elem_of_In, List.filter_In.
  rewrite <- list_elem_of_In, negb_true_iff.
  split; intros [Hreq Hno]; (split; [assumption |]).
  - intros h Hh Heq.
    assert (includes (map (fun h => trim (toLowerCase h)) headers) name = true)
      as Hinc; [| congruence].
    apply includes_true, list_elem_of_fmap. eauto.
  - destruct (includes _ name) eqn:Hinc; [| reflexivity].
    apply includes_true, list_elem_of_fmap in Hinc as (h & -> & Hh).
    now destruct (Hno h Hh).
Qed.

Lemma validateHeaders_valid headers :
  headersValid (validateHeaders headers) = true <-> missingHeaders headers = [].
Proof.
  unfold validateHeaders. destruct (missingHeaders headers); simpl;
    split; congruence.
Qed.

Lemma validateHeaders_invalid headers :
  missingHeaders headers <> [] ->
  validateHeaders headers
  = {| headersValid := false;
       error := Some ("Missing required columns: "
                      +:+ join ", " (missingHeaders headers)) |}.
Proof.
  unfold validateHeaders. destruct (missingHeaders headers); congruence.
Qed.

End Headers.

(* ===================================================================== *)
(** ** The second pass: the row loop and what it writes to [jobs] *)
(* ===================================================================== *)

Section SecondPass.
Import JS Database Validate Pipeline.
Local Open Scope nat_scope.
Local Open Scope list_scope.

Variable run : report -> list report -> run_result.
Variable jobId : string.
Variable total : nat.

Lemma persisted_write_job j fx :
  persisted jobId (write_job jobId j fx)
  = persisted jobId fx
    ++ (if decide (registered jobId (tables fx)) then [j] else []).
Proof.
  unfold persisted, getJob, write_job, registered, updateJobProgress. simpl.
  rewrite omap_app. f_equal. simpl. rewrite lookup_alter_eq.
  destruct (jobs_table (tables fx) !! jobId) eqn:E; reflexivity.
Qed.

Lemma registered_write_job j fx :
  registered jobId (tables (write_job jobId j fx))
  <-> registered jobId (tables fx).
Proof.
  unfold registered, write_job, updateJobProgress. simpl.
  rewrite lookup_alter_eq. apply fmap_is_Some.
Qed.

Lemma final_job_write_job j fx :
  registered jobId (tables fx) ->
  final_job jobId (write_job jobId j fx) = Some j.
Proof.
  unfold registered, final_job, getJob, write_job, updateJobProgress. simpl.
  rewrite lookup_alter_eq. now intros [x ->].
Qed.

(** Every turn is one of these cases followed by the progress write. *)
Lemma process_row_turn p row rowIndex :
  exists q, turn run p row rowIndex q
    /\ process_row run jobId total p (row, rowIndex)
       = {| processedRows := processedRows q;
            successfulRows_so_far := successfulRows_so_far q;
            failedRows_so_far := failedRows_so_far q;
            errors_so_far := errors_so_far q;
            fx_so_far := write_job jobId (snapshot total q) (fx_so_far q) |}.
Proof.
  unfold process_row.
  destruct (isValid (validateRow row rowIndex)) eqn:Hv.
  - destruct (run _ _) as [t|message] eqn:Hr.
    + eexists. split; [eapply turn_stored; eassumption | reflexivity].
    + eexists. split; [eapply turn_thrown; eassumption | reflexivity].
  - eexists. split; [eapply turn_invalid; eassumption | reflexivity].
Qed.

Lemma process_rows_snoc p items item :
  process_rows run jobId total p (items ++ [item])
  = process_row run jobId total (process_rows run jobId total p items) item.
Proof. unfold process_rows. now rewrite foldl_app. Qed.

Lemma turn_counts p row i q :
  turn run p row i q ->
  processedRows q = S (processedRows p)
  /\ successfulRows_so_far q + failedRows_so_far q
     = S (successfulRows_so_far p + failedRows_so_far p)
  /\ successfulRows_so_far p <= successfulRows_so_far q
  /\ failedRows_so_far p <= failedRows_so_far q
  /\ journal (fx_so_far q) = journal (fx_so_far p)
  /\ jobs_table (tables (fx_so_far q)) = jobs_table (tables (fx_so_far p)).
Proof. intros H. destruct H; simpl; repeat split; lia. Qed.

(** *** The counters along the journal *)

Lemma counts_le_refl j : counts_le j j.
Proof. unfold counts_le. lia. Qed.

Lemma monotone_nil : monotone [].
Proof. intros i j a b _ Ha. now rewrite lookup_nil in Ha. Qed.

Lemma monotone_snoc js x :
  monotone js -> Forall (fun a => counts_le a x) js -> monotone (js ++ [x]).
Proof.
  intros Hm Hall i j a b Hij Ha Hb.
  destruct (decide (j < length js)) as [Hj|Hj].
  - rewrite lookup_app_l in Ha by lia. rewrite lookup_app_l in Hb by lia.
    exact (Hm i j a b Hij Ha Hb).
  - rewrite lookup_app_r in Hb by lia.
    destruct (j - length js) eqn:Hd; simpl in Hb; [| now rewrite lookup_nil in Hb].
    injection Hb as <-.
    destruct (decide (i < length js)) as [Hi|Hi].
    + rewrite lookup_app_l in Ha by lia.
      rewrite Forall_forall in Hall. apply Hall.
      eapply list_elem_of_lookup_2; eassumption.
    + rewrite lookup_app_r in Ha by lia.
      replace (i - length js) with 0 in Ha by lia. injection Ha as <-.
      apply counts_le_refl.
Qed.

Lemma steady_step p row i :
  steady jobId p -> processedRows p < total ->
  steady jobId (process_row run jobId total p (row, i)).
Proof.
  intros (Htally & Hall & Hmono) Hlt.
  destruct (process_row_turn p row i) as (q & Hturn & ->).
  apply turn_counts in Hturn as (Hproc & Hsum & Hs & Hf & Hj & _).
  assert (persisted jobId (fx_so_far q) = persisted jobId (fx_so_far p)) as Hsame.
  { unfold persisted. now rewrite Hj. }
  assert (Forall (fun j => counts_ok j /\ below q j) (persisted jobId (fx_so_far p)))
    as Hall'.
  { eapply Forall_impl; [exact Hall |]. intros j [Hok (Hb1 & Hb2 & Hb3)].
    split; [assumption |]. unfold below. lia. }
  unfold steady. simpl. rewrite persisted_write_job, Hsame.
  split; [lia |]. destruct (decide _); [| rewrite app_nil_r; auto].
  split.
  - apply Forall_app. split; [exact Hall' |]. constructor; [| constructor].
    unfold counts_ok, below, snapshot. simpl. lia.
  - apply monotone_snoc; [assumption |].
    eapply Forall_impl; [exact Hall' |]. intros j [_ Hb]. exact Hb.
Qed.

Lemma process_row_processed p item :
  processedRows (process_row run jobId total p item) = S (processedRows p).
Proof.
  destruct item as [row i].
  destruct (process_row_turn p row i) as (q & Hturn & ->).
  now apply turn_counts in Hturn as (Hproc & _).
Qed.

Lemma process_rows_cons p item items :
  process_rows run jobId total p (item :: items)
  = process_rows run jobId total (process_row run jobId total p item) items.
Proof. reflexivity. Qed.

Lemma process_rows_processed items p :
  processedRows (process_rows run jobId total p items)
  = processedRows p + length items.
Proof.
  revert p. induction items as [|item items IH]; intros p; [simpl; lia |].
  rewrite process_rows_cons, IH, process_row_processed. simpl. lia.
Qed.

Lemma steady_rows items p :
  steady jobId p -> processedRows p + length items <= total ->
  steady jobId (process_rows run jobId total p items).
Proof.
  revert p. induction items as [|[row i] items IH]; intros p Hp Hlen;
    [assumption |].
  simpl in Hlen. rewrite process_rows_cons. apply IH.
  - apply steady_step; [assumption | lia].
  - rewrite process_row_processed. lia.
Qed.

(** The loop never unregisters the job, and its last write is what a poller
    reads at the end. *)
Lemma process_row_registered p item :
  registered jobId (tables (fx_so_far (process_row run jobId total p item)))
  <-> registered jobId (tables (fx_so_far p)).
Proof.
  destruct item as [row i].
  destruct (process_row_turn p row i) as (q & Hturn & ->). cbn [fx_so_far].
  rewrite registered_write_job.
  apply turn_counts in Hturn as (_ & _ & _ & _ & _ & Hjobs).
  unfold registered. now rewrite Hjobs.
Qed.

Lemma process_rows_registered items p :
  registered jobId (tables (fx_so_far (process_rows run jobId total p items)))
  <-> registered jobId (tables (fx_so_far p)).
Proof.
  revert p. induction items as [|item items IH]; intros p; [reflexivity |].
  now rewrite process_rows_cons, IH, process_row_registered.
Qed.

Lemma process_row_final p item :
  registered jobId (tables (fx_so_far p)) ->
  final_job jobId (fx_so_far (process_row run jobId total p item))
  = Some (snapshot total (process_row run jobId total p item)).
Proof.
  intros Hreg. destruct item as [row i].
  destruct (process_row_turn p row i) as (q & Hturn & ->). cbn [fx_so_far].
  rewrite final_job_write_job; [reflexivity |].
  apply turn_counts in Hturn as (_ & _ & _ & _ & _ & Hjobs).
  unfold registered. now rewrite Hjobs.
Qed.

Lemma process_rows_final items p :
  items <> [] ->
  registered jobId (tables (fx_so_far p)) ->
  final_job jobId (fx_so_far (process_rows run jobId total p items))
  = Some (snapshot total (process_rows run jobId total p items)).
Proof.
  intros Hne Hreg. destruct items as [|item items] using rev_ind; [congruence |].
  rewrite process_rows_snoc. apply process_row_final.
  now apply process_rows_registered.
Qed.

End SecondPass.

(* ===================================================================== *)
(** ** The row validator: what depends on the row number *)
(* ===================================================================== *)

Section RowNumber.
Import JS Database Validate.
Local Open Scope list_scope.

Lemma push_if_length cond msg (errors : list string) :
  length (push_if cond msg errors)
  = (length errors + if cond then 1 else 0)%nat.
Proof. destruct cond; simpl; [| lia]. rewrite length_app. simpl. lia. Qed.

(** Only the text of the messages mentions the row number. *)
Lemma validateRow_isValid_any_index row i j :
  isValid (validateRow row i) = isValid (validateRow row j).
Proof.
  unfold validateRow. cbn [isValid]. f_equal.
  rewrite !push_if_length.
  destruct (falsy (prop row "month") || _)%bool;
    rewrite ?length_app, ?push_if_length; reflexivity.
Qed.

Lemma validateRow_data_any_index row i j :
  data (validateRow row i) = data (validateRow row j).
Proof. reflexivity. Qed.

End RowNumber.

(* ===================================================================== *)
(** ** The runs of processCSVFile, case by case *)
(* ===================================================================== *)

Section Runs.
Import JS Database Validate Pipeline.
Local Open Scope nat_scope.
Local Open Scope list_scope.

Variable run : report -> list report -> run_result.
Variable jobId : string.

(** The header of the first record is refused: the job fails at once. *)
Lemma processCSVFile_refused u s row rows :
  records u = row :: rows ->
  headersValid (validateHeaders (keys row)) = false ->
  processCSVFile run u jobId s
  = let message := default ""%string (error (validateHeaders (keys row))) in
    settle (Rejected message) (setJobFailed jobId message (destroy (start s))).
Proof.
  intros Hrec Hv. unfold processCSVFile. rewrite Hrec.
  fold fresh. rewrite (first_pass_rejects jobId row rows s Hv). reflexivity.
Qed.

(** No record at all: the ['end'] or ['error'] handler sees empty results. *)
Lemma processCSVFile_no_record u s :
  records u = [] ->
  processCSVFile run u jobId s
  = match ending_of u with
    | End =>
        settle (Resolved {| totalRows := 0; successfulRows := 0; failedRows := 0;
                            summaryErrors := [empty_message] |})
          (setJobFailed jobId empty_message (start s))
    | ParseError message =>
        settle (Rejected message)
          (setJobFailed jobId ("CSV parse error: " +:+ message) (start s))
    end.
Proof.
  intros Hrec. unfold processCSVFile. rewrite Hrec. simpl.
  destruct (ending_of u); reflexivity.
Qed.

(** The header is accepted: all records are kept and the stream's ending
    decides. *)
Lemma processCSVFile_accepted u s row rows :
  records u = row :: rows ->
  headersValid (validateHeaders (keys row)) = true ->
  processCSVFile run u jobId s
  = match ending_of u with
    | End =>
        let p := loop_exit run jobId (records u) s in
        settle (Resolved {| totalRows := length (records u);
                            successfulRows := successfulRows_so_far p;
                            failedRows := failedRows_so_far p;
                            summaryErrors := errors_so_far p |})
          (fx_so_far p)
    | ParseError message =>
        settle (Rejected message)
          (setJobFailed jobId ("CSV parse error: " +:+ message) (start s))
    end.
Proof.
  intros Hrec Hv. unfold processCSVFile. rewrite Hrec.
  fold fresh. rewrite (first_pass_accepts jobId row rows s Hv).
  cbn [snd parserDestroyed start].
  destruct (ending_of u); [| reflexivity].
  unfold on_end. cbn [processingAborted results].
  rewrite numbered_cons. cbn [length]. rewrite numbered_length.
  unfold loop_exit, loop_entry. now rewrite numbered_cons.
Qed.

Lemma persisted_start s : persisted jobId (start s) = [].
Proof. reflexivity. Qed.

Lemma persisted_settle o fx :
  persisted jobId (settle o fx) = persisted jobId fx.
Proof. reflexivity. Qed.

Lemma persisted_destroy fx : persisted jobId (destroy fx) = persisted jobId fx.
Proof. reflexivity. Qed.

Lemma persisted_setJobFailed message fx :
  persisted jobId (setJobFailed jobId message fx)
  = persisted jobId fx
    ++ (if decide (registered jobId (tables fx)) then [failed_job message] else []).
Proof. unfold setJobFailed. apply persisted_write_job. Qed.

Lemma final_job_settle o fx : final_job jobId (settle o fx) = final_job jobId fx.
Proof. reflexivity. Qed.

Lemma final_job_setJobFailed message fx :
  registered jobId (tables fx) ->
  final_job jobId (setJobFailed jobId message fx) = Some (failed_job message).
Proof. intros H. unfold setJobFailed. now apply final_job_write_job. Qed.

(** A single consistent row, or none, is a consistent history. *)
Lemma history_single j :
  counts_ok j -> Forall counts_ok [j] /\ monotone [j].
Proof.
  intros Hj. split; [now constructor |].
  apply (monotone_snoc [] j); [apply monotone_nil | constructor].
Qed.

Lemma history_none : Forall counts_ok [] /\ monotone [].
Proof. split; [constructor | apply monotone_nil]. Qed.

Lemma failed_job_ok message : counts_ok (failed_job message).
Proof. unfold counts_ok, failed_job. simpl. lia. Qed.

Lemma loop_entry_steady total s : steady jobId (loop_entry jobId total s).
Proof.
  unfold steady, loop_entry. cbn [processedRows successfulRows_so_far
    failedRows_so_far fx_so_far].
  rewrite persisted_write_job, persisted_start. cbn [app].
  split; [reflexivity |].
  destruct (decide _).
  - split.
    + constructor; [| constructor]. unfold counts_ok, below. simpl. lia.
    + apply (monotone_snoc [] _); [apply monotone_nil | constructor].
  - split; [constructor | apply monotone_nil].
Qed.

Lemma loop_exit_steady rows s :
  steady jobId (loop_exit run jobId rows s)
  /\ processedRows (loop_exit run jobId rows s) = length rows.
Proof.
  unfold loop_exit. split.
  - apply steady_rows; [apply loop_entry_steady |].
    rewrite numbered_length. simpl. lia.
  - rewrite process_rows_processed, numbered_length. reflexivity.
Qed.

(** The job fails with a single write. *)
Ltac one_write :=
  match goal with
  | |- context [ decide ?P ] =>
      destruct (decide P);
      [apply history_single, failed_job_ok | apply history_none]
  end.

(** Whatever the upload and the store do, the rows written to [jobs] are
    consistent and never go down. *)
Lemma history_ok u s :
  let js := persisted jobId (processCSVFile run u jobId s) in
  Forall counts_ok js /\ monotone js.
Proof.
  destruct (records u) as [|row rows] eqn:Hrec.
  - rewrite (processCSVFile_no_record u s Hrec).
    destruct (ending_of u); rewrite persisted_settle, persisted_setJobFailed,
      persisted_start; cbn [app];
      one_write.
  - destruct (headersValid (validateHeaders (keys row))) eqn:Hv.
    + rewrite (processCSVFile_accepted u s row rows Hrec Hv).
      destruct (ending_of u).
      * cbn zeta. rewrite persisted_settle.
        destruct (loop_exit_steady (records u) s) as [(_ & Hall & Hmono) _].
        split; [| exact Hmono].
        eapply Forall_impl; [exact Hall |]. now intros j [Hok _].
      * rewrite persisted_settle, persisted_setJobFailed, persisted_start.
        cbn [app].
        one_write.
    + rewrite (processCSVFile_refused u s row rows Hrec Hv). cbn zeta.
      rewrite persisted_settle, persisted_setJobFailed, persisted_destroy,
        persisted_start. cbn [app].
      one_write.
Qed.

End Runs.

(* ===================================================================== *)
(** ** What the row loop counts and stores *)
(* ===================================================================== *)

Section Tally.
Import JS Database Validate Pipeline.
Local Open Scope nat_scope.
Local Open Scope list_scope.

Variable jobId : string.
Variable total : nat.

Lemma accepted_refused_length rows :
  length (accepted rows) + length (refused rows) = length rows.
Proof.
  unfold accepted, refused. induction rows as [|r rows IH]; [reflexivity |].
  rewrite !filter_cons. fold (accepted rows) (refused rows) in *.
  destruct (decide (well_formed_row r = true)) as [H|H];
    destruct (decide (well_formed_row r = false)) as [H'|H']; simpl;
    try lia; try congruence.
  destruct (well_formed_row r); congruence.
Qed.

Section Accepting.

(** A store that takes every statement *)
Variable run : report -> list report -> run_result.
Hypothesis run_accepts : forall p t, exists t', run p t = Done t'.

Lemma process_row_tally p row i :
  let p' := process_row run jobId total p (row, i) in
  successfulRows_so_far p'
    = successfulRows_so_far p + length (accepted [row])
  /\ failedRows_so_far p' = failedRows_so_far p + length (refused [row]).
Proof.
  destruct (process_row_turn run jobId total p row i) as (q & Hturn & ->).
  cbn zeta. cbn [successfulRows_so_far failedRows_so_far].
  unfold accepted, refused, well_formed_row.
  rewrite !filter_cons, !filter_nil.
  rewrite (validateRow_isValid_any_index row 1 i).
  destruct Hturn as [t Hv _| message Hv Hr | Hv].
  - rewrite decide_True, decide_False by congruence. simpl. lia.
  - destruct (run_accepts (data (validateRow row i))
                (reports_table (tables (fx_so_far p)))) as [t' Ht'].
    congruence.
  - rewrite decide_False, decide_True by congruence. simpl. lia.
Qed.

Lemma process_rows_tally rows k p :
  let p' := process_rows run jobId total p (numbered k rows) in
  successfulRows_so_far p' = successfulRows_so_far p + length (accepted rows)
  /\ failedRows_so_far p' = failedRows_so_far p + length (refused rows).
Proof.
  revert k p. induction rows as [|row rows IH]; intros k p.
  - simpl. lia.
  - rewrite numbered_cons, process_rows_cons. cbn zeta.
    destruct (IH (S k) (process_row run jobId total p (row, S k))) as [-> ->].
    destruct (process_row_tally p row (S k)) as [-> ->].
    unfold accepted, refused. rewrite !filter_cons, !filter_nil.
    destruct (decide (well_formed_row row = true));
      destruct (decide (well_formed_row row = false)); simpl; lia.
Qed.

End Accepting.

Lemma run_insertOrUpdateReport_accepts p t :
  exists t', run_insertOrUpdateReport p t = Done t'.
Proof. now exists (insertOrUpdateReport p t). Qed.

(** With the statement of database.js the loop upserts the accepted rows, in
    file order, and touches nothing else in [reports]. *)
Lemma process_row_table p row i :
  reports_table
    (tables (fx_so_far (process_row run_insertOrUpdateReport jobId total p (row, i))))
  = upserts (map row_data (accepted [row])) (reports_table (tables (fx_so_far p))).
Proof.
  destruct (process_row_turn run_insertOrUpdateReport jobId total p row i)
    as (q & Hturn & ->).
  cbn [fx_so_far write_job tables reports_table].
  unfold accepted, well_formed_row. rewrite filter_cons, filter_nil.
  rewrite (validateRow_isValid_any_index row 1 i).
  destruct Hturn as [t Hv Hr| message Hv Hr | Hv].
  - rewrite decide_True by assumption.
    unfold run_insertOrUpdateReport in Hr. injection Hr as <-. reflexivity.
  - discriminate Hr.
  - rewrite decide_False by congruence. reflexivity.
Qed.

Lemma upserts_app ps qs t : upserts (ps ++ qs) t = upserts qs (upserts ps t).
Proof. unfold upserts. apply foldl_app. Qed.

Lemma process_rows_table rows k p :
  reports_table
    (tables (fx_so_far
       (process_rows run_insertOrUpdateReport jobId total p (numbered k rows))))
  = upserts (map row_data (accepted rows)) (reports_table (tables (fx_so_far p))).
Proof.
  revert k p. induction rows as [|row rows IH]; intros k p; [reflexivity |].
  rewrite numbered_cons, process_rows_cons, IH, process_row_table.
  rewrite <- upserts_app, <- map_app. unfold accepted.
  rewrite <- filter_app. reflexivity.
Qed.

End Tally.

(* ===================================================================== *)
(** ** The number of writes and the settled promise *)
(* ===================================================================== *)

Section Writes.
Import JS Database Validate Pipeline.
Local Open Scope nat_scope.
Local Open Scope list_scope.

Variable run : report -> list report -> run_result.
Variable jobId : string.

Lemma process_rows_history_length total items p :
  registered jobId (tables (fx_so_far p)) ->
  length (persisted jobId (fx_so_far (process_rows run jobId total p items)))
  = length (persisted jobId (fx_so_far p)) + length items.
Proof.
  revert p. induction items as [|[row i] items IH]; intros p Hreg; [simpl; lia |].
  rewrite process_rows_cons, IH by now apply process_row_registered.
  destruct (process_row_turn run jobId total p row i) as (q & Hturn & ->).
  cbn [fx_so_far]. rewrite persisted_write_job.
  apply turn_counts in Hturn as (_ & _ & _ & _ & Hj & Hjobs).
  rewrite decide_True by (unfold registered; now rewrite Hjobs).
  rewrite length_app. unfold persisted. rewrite Hj. simpl. lia.
Qed.

(** A registered job is written once when it fails and once more than it has
    rows when it runs. *)
Lemma history_length u s :
  registered jobId s ->
  length (persisted jobId (processCSVFile run u jobId s))
  = match records u, ending_of u with
    | row :: _, End =>
        if headersValid (validateHeaders (keys row))
        then S (length (records u)) else 1
    | _, _ => 1
    end.
Proof.
  intros Hreg. destruct (records u) as [|row rows] eqn:Hrec.
  - rewrite (processCSVFile_no_record run jobId u s Hrec).
    destruct (ending_of u); rewrite persisted_settle, persisted_setJobFailed;
      rewrite decide_True by exact Hreg; reflexivity.
  - destruct (headersValid (validateHeaders (keys row))) eqn:Hv.
    + rewrite (processCSVFile_accepted run jobId u s row rows Hrec Hv).
      destruct (ending_of u).
      * cbn zeta. rewrite persisted_settle. unfold loop_exit.
        rewrite process_rows_history_length.
        -- unfold loop_entry. cbn [fx_so_far]. rewrite persisted_write_job.
           rewrite decide_True by exact Hreg.
           rewrite numbered_length, Hrec. simpl. lia.
        -- unfold loop_entry. cbn [fx_so_far]. now apply registered_write_job.
      * rewrite persisted_settle, persisted_setJobFailed.
        rewrite decide_True by exact Hreg. reflexivity.
    + rewrite (processCSVFile_refused run jobId u s row rows Hrec Hv). cbn zeta.
      rewrite persisted_settle, persisted_setJobFailed.
      rewrite decide_True by exact Hreg. destruct (ending_of u); reflexivity.
Qed.

End Writes.

(* ===================================================================== *)
(** ** The job counters (C1) *)
(* ===================================================================== *)

Section JobCounters.
Import JS Database Validate Pipeline.
Local Open Scope nat_scope.
Local Open Scope list_scope.

(** C1.  Every row the pipeline writes to [jobs] for its job has
    processed_rows = successful_rows + failed_rows and
    processed_rows <= total_rows, and from any write to a later one none of
    processed_rows, successful_rows and failed_rows goes down.  This holds
    for every upload, whatever the store does with the upserts; a registered
    job is written at least once. *)
Theorem job_counters_consistent_and_monotone
    (run : report -> list report -> run_result) (u : upload) (jobId : string)
    (s : store) :
  let js := persisted jobId (processCSVFile run u jobId s) in
  (forall j, j ∈ js ->
     processed_rows j = successful_rows j + failed_rows j
     /\ processed_rows j <= total_rows j)
  /\ (forall i k a b, i <= k -> js !! i = Some a -> js !! k = Some b ->
        processed_rows a <= processed_rows b
        /\ successful_rows a <= successful_rows b
        /\ failed_rows a <= failed_rows b)
  /\ (registered jobId s -> js <> []).
Proof.
  cbn zeta. destruct (history_ok run jobId u s) as [Hall Hmono].
  split; [| split].
  - intros j Hj. rewrite Forall_forall in Hall. exact (Hall j Hj).
  - intros i k a b Hik Ha Hb. exact (Hmono i k a b Hik Ha Hb).
  - intros Hreg Hnil. pose proof (history_length run jobId u s Hreg) as Hlen.
    rewrite Hnil in Hlen. simpl in Hlen.
    destruct (records u) as [|row rows]; [discriminate |].
    destruct (ending_of u); [| discriminate].
    destruct (headersValid _); discriminate.
Qed.

End JobCounters.

(* ===================================================================== *)
(** ** Scenarios used to exercise the statements *)
(* ===================================================================== *)

Section Scenarios.
Import JS Database Validate Pipeline.

(** The job that POST /reports/upload creates is registered when the
    pipeline starts. *)
Lemma createJob_registered jobId total jobs jobs' reports :
  createJob jobId total jobs = Some jobs' ->
  registered jobId {| reports_table := reports; jobs_table := jobs' |}.
Proof.
  unfold createJob, registered. destruct (jobs !! jobId); [discriminate |].
  intros [= <-]. cbn [jobs_table]. rewrite lookup_insert_eq. eauto.
Qed.

Lemma store0_created :
  createJob "job-1" 0 ∅ = Some (jobs_table store0).
Proof. reflexivity. Qed.

Lemma store0_registered : registered "job-1" store0.
Proof. unfold registered, store0. simpl. rewrite lookup_singleton_eq. eauto. Qed.

Lemma well_formed_check_sound u : well_formed_check u = true -> well_formed u.
Proof.
  unfold well_formed_check, well_formed. rewrite forallb_forall, Forall_forall.
  intros H row Hrow k. apply list_elem_of_In, H in Hrow.
  apply andb_true_iff in Hrow as [H1 H2].
  rewrite forallb_forall in H1, H2. rewrite <- elem_of_keys. split; intros Hk.
  - apply includes_true, H1. now apply list_elem_of_In.
  - apply includes_true, H2. now apply list_elem_of_In.
Qed.

End Scenarios.

(* ===================================================================== *)
(** ** Uploads whose header is accepted (C2, C4) *)
(* ===================================================================== *)

Section AcceptedUploads.
Import JS Database Validate Pipeline.
Local Open Scope nat_scope.
Local Open Scope list_scope.

Lemma refused_none rows :
  (forall row, row ∈ rows -> well_formed_row row = true) -> refused rows = [].
Proof.
  unfold refused. induction rows as [|r rows IH]; intros H; [reflexivity |].
  rewrite filter_cons, decide_False.
  - apply IH. intros row Hrow. apply H. now right.
  - rewrite (H r) by left. discriminate.
Qed.

Lemma accepted_all rows :
  (forall row, row ∈ rows -> well_formed_row row = true) -> accepted rows = rows.
Proof.
  unfold accepted. induction rows as [|r rows IH]; intros H; [reflexivity |].
  rewrite filter_cons, decide_True by (apply H; left).
  f_equal. apply IH. intros row Hrow. apply H. now right.
Qed.

(** The job row at the end of a run that went through the row loop. *)
Lemma final_job_after_loop run jobId u s :
  registered jobId s ->
  well_formed u ->
  headersValid (validateHeaders (columns u)) = true ->
  records u <> [] ->
  ending_of u = End ->
  let fx := processCSVFile run u jobId s in
  let p := loop_exit run jobId (records u) s in
  fx_so_far p = {| tables := tables fx; journal := journal fx; promise := None;
                   parserDestroyed := false |}
  /\ final_job jobId fx
     = Some {| job_status := completed;
               total_rows := length (records u);
               processed_rows := length (records u);
               successful_rows := successfulRows_so_far p;
               failed_rows := failedRows_so_far p;
               Database.errors := errors_so_far p |}
  /\ length (records u) = successfulRows_so_far p + failedRows_so_far p.
Proof.
  intros Hreg Hwf Hhead Hne Hend. cbn zeta.
  destruct (records u) as [|row rows] eqn:Hrec; [congruence |].
  assert (headersValid (validateHeaders (keys row)) = true) as Hv.
  { rewrite (validateHeaders_row u row Hwf); [assumption |]. rewrite Hrec. left. }
  rewrite (processCSVFile_accepted run jobId u s row rows Hrec Hv), Hend.
  cbn zeta. rewrite Hrec.
  destruct (loop_exit_steady run jobId (row :: rows) s) as [(Htally & _) Hproc].
  set (p := loop_exit run jobId (row :: rows) s) in *.
  assert (promise (fx_so_far p) = None /\ parserDestroyed (fx_so_far p) = false)
    as [Hprom Hdes].
  { unfold p, loop_exit. generalize (numbered 0 (row :: rows)).
    generalize (length (row :: rows)). intros total items.
    assert (promise (fx_so_far (loop_entry jobId total s)) = None
            /\ parserDestroyed (fx_so_far (loop_entry jobId total s)) = false)
      as Hstart by (split; reflexivity).
    revert Hstart. generalize (loop_entry jobId total s).
    induction items as [|[r i] items IH]; intros q Hq; [exact Hq |].
    rewrite process_rows_cons. apply IH.
    destruct (process_row_turn run jobId total q r i) as (q' & Hturn & ->).
    cbn [fx_so_far write_job promise parserDestroyed].
    destruct Hturn; exact Hq. }
  split; [| split].
  - unfold settle. rewrite Hprom. cbn [tables journal].
    destruct (fx_so_far p); simpl in *. now subst.
  - rewrite final_job_settle. unfold p, loop_exit.
    rewrite process_rows_final.
    + fold (loop_exit run jobId (row :: rows) s). fold p.
      unfold snapshot. rewrite Hproc, Nat.eqb_refl. reflexivity.
    + rewrite numbered_cons. discriminate.
    + unfold loop_entry. cbn [fx_so_far]. now apply registered_write_job.
  - rewrite <- Hproc. exact Htally.
Qed.

(** C2.  An upload whose header passes the header check and that holds
    N >= 1 well-formed data rows ends with its job [completed],
    total_rows = N and processed_rows = successful_rows + failed_rows = N;
    on a store that takes every upsert all N rows are successful. *)
Theorem well_formed_rows_complete_the_job
    (run : report -> list report -> run_result) (u : upload) (jobId : string)
    (s : store) :
  registered jobId s ->
  well_formed u ->
  headersValid (validateHeaders (columns u)) = true ->
  1 <= length (records u) ->
  ending_of u = End ->
  (forall row, row ∈ records u -> well_formed_row row = true) ->
  exists j,
    final_job jobId (processCSVFile run u jobId s) = Some j
    /\ job_status j = completed
    /\ total_rows j = length (records u)
    /\ processed_rows j = length (records u)
    /\ processed_rows j = successful_rows j + failed_rows j
    /\ ((forall p t, exists t', run p t = Done t') ->
        successful_rows j = length (records u) /\ failed_rows j = 0).
Proof.
  intros Hreg Hwf Hhead Hlen Hend Hrows.
  assert (records u <> []) as Hne by (destruct (records u); simpl in *; [lia | discriminate]).
  destruct (final_job_after_loop run jobId u s Hreg Hwf Hhead Hne Hend)
    as (_ & Hfinal & Hsum).
  eexists. split; [exact Hfinal |]. cbn [job_status total_rows processed_rows
    successful_rows failed_rows].
  split; [reflexivity |]. split; [reflexivity |]. split; [reflexivity |].
  split; [exact Hsum |]. intros Haccepts.
  destruct (process_rows_tally jobId (length (records u)) run Haccepts
              (records u) 0 (loop_entry jobId (length (records u)) s))
    as [Hs Hf].
  fold (loop_exit run jobId (records u) s) in Hs, Hf. rewrite Hs, Hf.
  rewrite accepted_all, refused_none by assumption.
  split; reflexivity.
Qed.

(** The statement above on two good rows over the required header. *)
Lemma well_formed_rows_complete_the_job_witness :
  exists j,
    final_job "job-1"
      (processCSVFile run_insertOrUpdateReport upload_good "job-1" store0) = Some j
    /\ job_status j = completed
    /\ total_rows j = 2
    /\ processed_rows j = 2
    /\ processed_rows j = successful_rows j + failed_rows j
    /\ ((forall p t, exists t', run_insertOrUpdateReport p t = Done t') ->
        successful_rows j = 2 /\ failed_rows j = 0).
Proof.
  apply (well_formed_rows_complete_the_job run_insertOrUpdateReport upload_good
           "job-1" store0).
  - exact store0_registered.
  - apply well_formed_check_sound. vm_compute. reflexivity.
  - vm_compute. reflexivity.
  - simpl. lia.
  - reflexivity.
  - intros row Hrow. simpl in Hrow.
    apply elem_of_cons in Hrow as [-> | Hrow]; [vm_compute; reflexivity |].
    apply list_elem_of_singleton in Hrow as ->. vm_compute. reflexivity.
Defined.

End AcceptedUploads.

(* ===================================================================== *)
(** ** Uploads that fail as a whole (C3, C6) *)
(* ===================================================================== *)

Section FailedUploads.
Import JS Database Validate Pipeline.
Local Open Scope nat_scope.
Local Open Scope list_scope.

(** C3, as amended.  When the header misses one or more required columns
    and the upload has at least one data row, the job ends [failed] with
    total_rows = 0 and exactly one error message, which lists every missing
    column, comma-joined; that is the only write to the job, the promise is
    rejected with the same message, and [reports] is left untouched: no data
    row is validated or stored. *)
Theorem missing_columns_fail_the_job
    (run : report -> list report -> run_result) (u : upload) (jobId : string)
    (s : store) :
  registered jobId s ->
  well_formed u ->
  1 <= length (records u) ->
  missingHeaders (columns u) <> [] ->
  let fx := processCSVFile run u jobId s in
  let message := "Missing required columns: " +:+ join ", " (missingHeaders (columns u)) in
  final_job jobId fx
    = Some {| job_status := failed; total_rows := 0; processed_rows := 0;
              successful_rows := 0; failed_rows := 0;
              Database.errors := [message] |}
  /\ length (persisted jobId fx) = 1
  /\ promise fx = Some (Rejected message)
  /\ reports_table (tables fx) = reports_table s
  /\ (forall name,
        name ∈ missingHeaders (columns u)
        <-> name ∈ REQUIRED_HEADERS
            /\ forall h, h ∈ columns u -> trim (toLowerCase h) <> name).
Proof.
  intros Hreg Hwf Hlen Hmiss. cbn zeta.
  destruct (records u) as [|row rows] eqn:Hrec; [simpl in Hlen; lia |].
  assert (validateHeaders (keys row) = validateHeaders (columns u)) as Hrow.
  { apply validateHeaders_row; [assumption |]. rewrite Hrec. left. }
  pose proof (validateHeaders_invalid (columns u) Hmiss) as Hinv.
  assert (headersValid (validateHeaders (keys row)) = false) as Hv
    by now rewrite Hrow, Hinv.
  rewrite (processCSVFile_refused run jobId u s row rows Hrec Hv).
  rewrite Hrow, Hinv. cbn zeta. cbn [error default].
  split; [| split; [| split; [| split]]].
  - rewrite final_job_settle. now apply final_job_setJobFailed.
  - rewrite persisted_settle, persisted_setJobFailed.
    rewrite decide_True by exact Hreg. reflexivity.
  - reflexivity.
  - reflexivity.
  - apply elem_of_missingHeaders.
Qed.

(** The statement above on a header that lacks three columns, over one data
    line. *)
Lemma missing_columns_fail_the_job_witness :
  let fx := processCSVFile run_insertOrUpdateReport upload_short_header
              "job-1" store0 in
  let message :=
    "Missing required columns: people_helped, events_conducted, funds_utilized" in
  final_job "job-1" fx
    = Some {| job_status := failed; total_rows := 0; processed_rows := 0;
              successful_rows := 0; failed_rows := 0;
              Database.errors := [message] |}
  /\ length (persisted "job-1" fx) = 1
  /\ promise fx = Some (Rejected message)
  /\ reports_table (tables fx) = [].
Proof.
  destruct (missing_columns_fail_the_job run_insertOrUpdateReport
              upload_short_header "job-1" store0) as (H1 & H2 & H3 & H4 & _).
  - exact store0_registered.
  - apply well_formed_check_sound. vm_compute. reflexivity.
  - simpl. lia.
  - vm_compute. discriminate.
  - exact (conj H1 (conj H2 (conj H3 H4))).
Defined.

(** C3 as stated fails on a header-only file: the header misses three
    required columns, yet the single error message of the failed job does
    not name them. *)
Lemma header_only_upload_does_not_name_missing_columns :
  well_formed upload_header_only
  /\ registered "job-1" store0
  /\ missingHeaders (columns upload_header_only)
     = ["people_helped"; "events_conducted"; "funds_utilized"]
  /\ final_job "job-1"
       (processCSVFile run_insertOrUpdateReport upload_header_only "job-1" store0)
     = Some {| job_status := failed; total_rows := 0; processed_rows := 0;
               successful_rows := 0; failed_rows := 0;
               Database.errors :=
                 ["CSV file is empty or contains no data rows"] |}
  /\ ~ (exists j,
          final_job "job-1"
            (processCSVFile run_insertOrUpdateReport upload_header_only
               "job-1" store0) = Some j
          /\ Database.errors j
             = ["Missing required columns: people_helped, events_conducted, funds_utilized"]).
Proof.
  split; [apply well_formed_check_sound; vm_compute; reflexivity |].
  split; [exact store0_registered |].
  split; [vm_compute; reflexivity |].
  split; [vm_compute; reflexivity |].
  intros (j & Hj & Herr).
  vm_compute in Hj. injection Hj as <-. simpl in Herr. discriminate Herr.
Qed.

(** C6.  When the stream delivers no data row and then ends, whatever the
    header line was, the job ends [failed] with total_rows = 0 and the
    message of the empty file.  The outcome is that of the ['end'] handler
    run on the untouched closure: the header check never ran
    ([headersValidated] is still false there), the parser was not destroyed,
    and the promise is resolved, not rejected. *)
Theorem no_data_rows_fail_at_end_of_stream
    (run : report -> list report -> run_result) (u : upload) (jobId : string)
    (s : store) :
  registered jobId s ->
  records u = [] ->
  ending_of u = End ->
  let fx := processCSVFile run u jobId s in
  let message := "CSV file is empty or contains no data rows" in
  final_job jobId fx
    = Some {| job_status := failed; total_rows := 0; processed_rows := 0;
              successful_rows := 0; failed_rows := 0;
              Database.errors := [message] |}
  /\ length (persisted jobId fx) = 1
  /\ fx = on_end run jobId
            ({| results := []; rowIndex := 0; headersValidated := false;
                processingAborted := false |}, start s)
  /\ parserDestroyed fx = false
  /\ promise fx
     = Some (Resolved {| totalRows := 0; successfulRows := 0; failedRows := 0;
                         summaryErrors := [message] |})
  /\ reports_table (tables fx) = reports_table s.
Proof.
  intros Hreg Hrec Hend. cbn zeta.
  rewrite (processCSVFile_no_record run jobId u s Hrec), Hend.
  split; [| split; [| repeat split]].
  - rewrite final_job_settle. now apply final_job_setJobFailed.
  - rewrite persisted_settle, persisted_setJobFailed.
    rewrite decide_True by exact Hreg. reflexivity.
Qed.

(** The statement above on a file that has a header line only, and one that
    misses required columns at that. *)
Lemma no_data_rows_fail_at_end_of_stream_witness :
  let fx := processCSVFile run_insertOrUpdateReport upload_header_only
              "job-1" store0 in
  missingHeaders (columns upload_header_only) <> []
  /\ final_job "job-1" fx
     = Some {| job_status := failed; total_rows := 0; processed_rows := 0;
               successful_rows := 0; failed_rows := 0;
               Database.errors := ["CSV file is empty or contains no data rows"] |}
  /\ parserDestroyed fx = false.
Proof.
  destruct (no_data_rows_fail_at_end_of_stream run_insertOrUpdateReport
              upload_header_only "job-1" store0 store0_registered
              eq_refl eq_refl) as (H1 & _ & _ & H4 & _).
  cbn zeta. split; [vm_compute; discriminate |]. split; [exact H1 | exact H4].
Defined.

End FailedUploads.

(* ===================================================================== *)
(** ** The row validator on records that lack a field *)
(* ===================================================================== *)

Section MissingFields.
Import JS Database Validate Pipeline.
Local Open Scope nat_scope.
Local Open Scope list_scope.

Lemma elem_of_push_if cond msg errors x :
  x ∈ push_if cond msg errors <-> x ∈ errors \/ (cond = true /\ x = msg).
Proof.
  unfold push_if. destruct cond.
  - rewrite elem_of_app, list_elem_of_singleton. intuition.
  - intuition congruence.
Qed.

Lemma prop_absent row name : row !! name = None -> prop row name = Undefined.
Proof. unfold prop. now intros ->. Qed.

Lemma validateRow_absent_field row i name :
  name ∈ REQUIRED_HEADERS ->
  row !! name = None ->
  ("Row " +:+ show_nat i +:+ ": " +:+ absent_field_message name)%string
    ∈ Validate.errors (validateRow row i).
Proof.
  unfold REQUIRED_HEADERS. rewrite !elem_of_cons, elem_of_nil.
  intros [-> | [-> | [-> | [-> | [-> | []]]]]] Hnone;
    apply prop_absent in Hnone; unfold validateRow; cbn [Validate.errors];
    rewrite ?Hnone.
  - repeat (apply elem_of_push_if; left).
    destruct (_ || _)%bool; [apply elem_of_app; left |
                             apply elem_of_push_if; left];
      apply elem_of_push_if; right; split; reflexivity.
  - repeat (apply elem_of_push_if; left).
    cbn [falsy orb]. apply elem_of_app. right. now left.
  - do 2 (apply elem_of_push_if; left).
    apply elem_of_push_if. right. split; reflexivity.
  - apply elem_of_push_if; left.
    apply elem_of_push_if. right. split; reflexivity.
  - apply elem_of_push_if. right. split; reflexivity.
Qed.

Lemma errors_make_invalid row i x :
  x ∈ Validate.errors (validateRow row i) -> well_formed_row row = false.
Proof.
  intros Hx. unfold well_formed_row.
  rewrite (validateRow_isValid_any_index row 1 i).
  assert (isValid (validateRow row i)
          = Nat.eqb (length (Validate.errors (validateRow row i))) 0) as ->
    by reflexivity.
  destruct (Validate.errors (validateRow row i)); [| reflexivity].
  now apply elem_of_nil in Hx.
Qed.

(** A record accepted by [validateRow] has all five required fields under
    their exact names. *)
Lemma well_formed_row_fields row name :
  well_formed_row row = true -> name ∈ REQUIRED_HEADERS -> is_Some (row !! name).
Proof.
  intros Hwf Hname. destruct (row !! name) eqn:E; [eauto |].
  pose proof (validateRow_absent_field row 1 name Hname E) as Herr.
  apply errors_make_invalid in Herr. congruence.
Qed.

(** So its keys pass the header check. *)
Lemma well_formed_row_header row :
  well_formed_row row = true -> headersValid (validateHeaders (keys row)) = true.
Proof.
  intros Hwf. apply validateHeaders_valid.
  destruct (missingHeaders (keys row)) as [|name rest] eqn:E; [reflexivity |].
  assert (name ∈ missingHeaders (keys row)) as Hin by (rewrite E; left).
  apply elem_of_missingHeaders in Hin as [Hreq Hno].
  exfalso. apply (Hno name).
  - apply elem_of_keys. now apply well_formed_row_fields.
  - revert Hreq. unfold REQUIRED_HEADERS. rewrite !elem_of_cons, elem_of_nil.
    intros [-> | [-> | [-> | [-> | [-> | []]]]]]; reflexivity.
Qed.

End MissingFields.

(* ===================================================================== *)
(** ** Row isolation (C4) *)
(* ===================================================================== *)

Section RowIsolation.
Import JS Database Validate Pipeline.
Local Open Scope nat_scope.
Local Open Scope list_scope.

Lemma accepted_around pre bad post :
  (forall row, row ∈ pre ++ post -> well_formed_row row = true) ->
  well_formed_row bad = false ->
  accepted (pre ++ bad :: post) = pre ++ post
  /\ refused (pre ++ bad :: post) = [bad].
Proof.
  intros Hgood Hbad. unfold accepted, refused.
  rewrite !filter_app, !filter_cons.
  rewrite decide_False, decide_True by congruence.
  fold (accepted pre) (accepted post) (refused pre) (refused post).
  rewrite !accepted_all, !refused_none;
    try (intros row Hrow; apply Hgood, elem_of_app; auto).
  split; reflexivity.
Qed.

Lemma loop_entry_table jobId total s :
  reports_table (tables (fx_so_far (loop_entry jobId total s))) = reports_table s.
Proof. reflexivity. Qed.

(** C4.  One malformed data row among N rows, the other N-1 well-formed,
    wherever it stands: the job ends [completed] with failed_rows = 1 and
    successful_rows = N-1, and [reports] ends as the upserts of the N-1
    well-formed rows in file order, so each of them has its key in the
    table.  On a table with one row per (ngo_id, month) the table keeps
    its constraint, every key holds exactly the data of the last
    well-formed row of the file with that key (an older row of that key is
    overwritten with them), every other key holds what it held before, and
    a well-formed row whose key no other well-formed row of the file has
    with other data is stored exactly as validated.
    (For N = 1 the header must pass the header check; for N >= 2 it does,
    since a well-formed row carries every required column.) *)
Theorem one_malformed_row_is_isolated
    (u : upload) (jobId : string) (s : store)
    (pre : list (gmap string string)) (bad : gmap string string)
    (post : list (gmap string string)) :
  registered jobId s ->
  well_formed u ->
  records u = pre ++ bad :: post ->
  ending_of u = End ->
  (pre ++ post <> [] \/ headersValid (validateHeaders (columns u)) = true) ->
  (forall row, row ∈ pre ++ post -> well_formed_row row = true) ->
  well_formed_row bad = false ->
  let fx := processCSVFile run_insertOrUpdateReport u jobId s in
  let t' := reports_table (tables fx) in
  (exists j,
     final_job jobId fx = Some j
     /\ job_status j = completed
     /\ total_rows j = S (length (pre ++ post))
     /\ failed_rows j = 1
     /\ successful_rows j = length (pre ++ post))
  /\ t' = upserts (map row_data (pre ++ post)) (reports_table s)
  /\ (forall row, row ∈ pre ++ post -> key (row_data row) ∈ map key t')
  /\ (unique (reports_table s) ->
      unique t'
      /\ (forall k,
            stored k t'
            = match latest_for k (map row_data (pre ++ post)) with
              | Some d => [d]
              | None => stored k (reports_table s)
              end)
      /\ (forall row, row ∈ pre ++ post ->
            (forall other, other ∈ pre ++ post ->
               key (row_data other) = key (row_data row) ->
               row_data other = row_data row) ->
            stored (key (row_data row)) t' = [row_data row])).
Proof.
  intros Hreg Hwf Hrec Hend Hhead Hgood Hbad. cbn zeta.
  assert (headersValid (validateHeaders (columns u)) = true) as Hv.
  { destruct Hhead as [Hne | Hv]; [| exact Hv].
    assert (exists row, row ∈ pre ++ post) as [row Hrow].
    { destruct (pre ++ post) as [|row rest]; [congruence |]. exists row. left. }
    rewrite <- (validateHeaders_row u row Hwf).
    - apply well_formed_row_header, Hgood, Hrow.
    - rewrite Hrec. apply elem_of_app in Hrow as [Hrow | Hrow];
        apply elem_of_app; [now left | right; now right]. }
  assert (records u <> []) as Hne by (rewrite Hrec; now destruct pre).
  destruct (final_job_after_loop run_insertOrUpdateReport jobId u s
              Hreg Hwf Hv Hne Hend) as (Hfx & Hfinal & _).
  destruct (accepted_around pre bad post Hgood Hbad) as [Hacc Href].
  destruct (process_rows_tally jobId (length (records u))
              run_insertOrUpdateReport run_insertOrUpdateReport_accepts
              (records u) 0 (loop_entry jobId (length (records u)) s))
    as [Hs Hf].
  fold (loop_exit run_insertOrUpdateReport jobId (records u) s) in Hs, Hf.
  pose proof (process_rows_table jobId (length (records u)) (records u) 0
                (loop_entry jobId (length (records u)) s)) as Ht.
  fold (loop_exit run_insertOrUpdateReport jobId (records u) s) in Ht.
  rewrite Hfx, loop_entry_table in Ht. cbn [tables] in Ht.
  cbn [loop_entry successfulRows_so_far failedRows_so_far] in Hs, Hf.
  rewrite Hrec in Hs, Hf, Ht, Hfinal.
  rewrite Hacc in Hs, Ht. rewrite Href in Hf.
  split; [| split; [| split]].
  - eexists. split; [exact Hfinal |].
    cbn [job_status total_rows failed_rows successful_rows].
    rewrite Hs, Hf. rewrite !length_app. simpl. repeat split; lia.
  - exact Ht.
  - intros row Hrow. rewrite Ht. apply upserts_has_key.
    apply list_elem_of_fmap. eauto.
  - intros Hu. rewrite Ht.
    assert (forall k,
              stored k (upserts (map row_data (pre ++ post)) (reports_table s))
              = match latest_for k (map row_data (pre ++ post)) with
                | Some d => [d]
                | None => stored k (reports_table s)
                end) as Hstored
      by (intros k; now apply stored_upserts).
    split; [now apply upserts_unique |]. split; [exact Hstored |].
    intros row Hrow Hsame. rewrite Hstored.
    rewrite (latest_for_only _ (row_data row)); [reflexivity | | reflexivity |].
    + apply list_elem_of_fmap. eauto.
    + intros p Hp Hk. apply list_elem_of_fmap in Hp as (other & -> & Hother).
      now apply Hsame.
Qed.

(** The statement above with the malformed row in the middle of three, on
    a table that already holds an older report for the key of the first
    row: the older values are replaced by those of the file. *)
Lemma one_malformed_row_is_isolated_witness :
  let fx := processCSVFile run_insertOrUpdateReport upload_one_bad "job-1"
              store_old in
  let t' := reports_table (tables fx) in
  (exists j,
     final_job "job-1" fx = Some j
     /\ job_status j = completed
     /\ total_rows j = 3
     /\ failed_rows j = 1
     /\ successful_rows j = 2)
  /\ unique t'
  /\ stored ("NGO001", "2024-01")%string t'
     = [stored_as (Finite 150 0) (Finite 5 0) (Finite 50000 0)]
  /\ stored ("NGO002", "2024-01")%string t' = [row_data row_b]
  /\ length t' = 2.
Proof.
  destruct (one_malformed_row_is_isolated upload_one_bad "job-1" store_old
              [row_a] row_bad [row_b]) as (Hjob & Htable & _ & Hstored).
  - unfold registered, store_old. cbn [jobs_table].
    rewrite lookup_singleton_eq. eauto.
  - apply well_formed_check_sound. vm_compute. reflexivity.
  - reflexivity.
  - reflexivity.
  - left. discriminate.
  - intros row Hrow. simpl in Hrow.
    apply elem_of_cons in Hrow as [-> | Hrow]; [vm_compute; reflexivity |].
    apply list_elem_of_singleton in Hrow as ->. vm_compute. reflexivity.
  - vm_compute. reflexivity.
  - destruct Hstored as (Hu & Hk & _).
    { apply NoDup_singleton. }
    cbn zeta. split; [exact Hjob |]. split; [exact Hu |].
    split; [exact (Hk ("NGO001", "2024-01")%string) |].
    split; [exact (Hk ("NGO002", "2024-01")%string) |].
    rewrite Htable. vm_compute. reflexivity.
Defined.

End RowIsolation.

(* ===================================================================== *)
(** ** Header names that differ in case or spacing (C9) *)
(* ===================================================================== *)

Section HeaderVariants.
Import JS Database Validate Pipeline.
Local Open Scope nat_scope.
Local Open Scope list_scope.

Variable run : report -> list report -> run_result.
Variable jobId : string.



End HeaderVariants.

Section HeaderVariantsScenario.
Import JS Database Validate Pipeline.
Local Open Scope nat_scope.



End HeaderVariantsScenario.

(* ===================================================================== *)
(** ** Submissions for one key (C5) *)
(* ===================================================================== *)

Section Submissions.
Import JS Database Validate Pipeline Routes.
Local Open Scope nat_scope.
Local Open Scope list_scope.

(** Both paths run the same statement on the validated data. *)
Lemma submit_valid x t :
  isValid (validated x) = true ->
  submit x t = insertOrUpdateReport (data (validated x)) t.
Proof.
  destruct x as [body | row i]; intros Hv; unfold submit.
  - unfold post_report. cbn [validated] in Hv. now rewrite Hv.
  - rewrite process_row_table, loop_entry_table. cbn [reports_table].
    unfold accepted, well_formed_row.
    rewrite filter_cons, filter_nil.
    rewrite (validateRow_isValid_any_index row 1 i).
    cbn [validated] in Hv. rewrite decide_True by exact Hv. reflexivity.
Qed.

Lemma submit_invalid x t : isValid (validated x) = false -> submit x t = t.
Proof.
  destruct x as [body | row i]; intros Hv; unfold submit.
  - unfold post_report. cbn [validated] in Hv. now rewrite Hv.
  - rewrite process_row_table, loop_entry_table. cbn [reports_table].
    unfold accepted, well_formed_row.
    rewrite filter_cons, filter_nil.
    rewrite (validateRow_isValid_any_index row 1 i).
    cbn [validated] in Hv. rewrite decide_False by congruence. reflexivity.
Qed.

Lemma submit_all_valid xs t :
  (forall y, y ∈ xs -> isValid (validated y) = true) ->
  submit_all xs t = upserts (map (fun y => data (validated y)) xs) t.
Proof.
  revert t. induction xs as [|x xs IH]; intros t Hv; [reflexivity |].
  unfold submit_all, upserts in *. simpl.
  rewrite submit_valid by (apply Hv; left).
  apply IH. intros y Hy. apply Hv. now right.
Qed.

(** C5.  After any sequence of valid submissions, single or bulk, that all
    carry the key (ngo_id, month) = k, a table that satisfied its UNIQUE
    constraint still does, and under k it holds exactly one row: the data of
    the latest submission. *)
Theorem same_key_submissions_leave_the_latest
    (t : list report) (earlier : list submission) (latest : submission)
    (k : string * string) :
  unique t ->
  (forall y, y ∈ earlier ++ [latest] ->
     isValid (validated y) = true /\ key (data (validated y)) = k) ->
  let t' := submit_all (earlier ++ [latest]) t in
  stored k t' = [data (validated latest)]
  /\ length (stored k t') = 1
  /\ unique t'.
Proof.
  intros Hu Hall. cbn zeta.
  rewrite submit_all_valid by (intros y Hy; now apply Hall).
  rewrite map_app. cbn [map].
  assert (key (data (validated latest)) = k) as <-.
  { apply Hall, elem_of_app. right. left. }
  rewrite upserts_last by assumption.
  split; [reflexivity |]. split; [reflexivity |].
  now apply upserts_unique.
Qed.

(** The statement above on an upload row for NGO001 in 2024-01 followed by
    two single reports for the same key. *)
Lemma same_key_submissions_leave_the_latest_witness :
  let t' := submit_all
              [BulkRow row_a 1;
               Single (report_body "NGO001" "2024-01" 150 5 50000);
               Single (report_body " NGO001" "2024-01" 200 6 60000)] [] in
  stored ("NGO001", "2024-01")%string t'
    = [ {| ngo_id := "NGO001"; month := "2024-01";
           people_helped := Finite 200 0; events_conducted := Finite 6 0;
           funds_utilized := Finite 60000 0 |} ]
  /\ length (stored ("NGO001", "2024-01")%string t') = 1
  /\ unique t'.
Proof.
  apply (same_key_submissions_leave_the_latest []
           [BulkRow row_a 1; Single (report_body "NGO001" "2024-01" 150 5 50000)]
           (Single (report_body " NGO001" "2024-01" 200 6 60000))
           ("NGO001", "2024-01")%string).
  - apply NoDup_nil. constructor.
  - intros y Hy. simpl in Hy.
    repeat (apply elem_of_cons in Hy as [-> | Hy];
            [split; vm_compute; reflexivity |]).
    now apply elem_of_nil in Hy.
Defined.

End Submissions.

(* ===================================================================== *)
(** ** Numeric fields are read by their leading numeral (C10) *)
(* ===================================================================== *)

Section NumericPrefixes.
Import JS Database Validate.

(** C10.  Field texts that are not integers are accepted without any error
    and stored as their leading numeral: [parseInt] turns "5.7" into 5 and
    "12abc" into 12, for people_helped and for events_conducted alike, and
    [parseFloat] turns "12.5abc" into 12.5 and "1e3x" into 1000 for
    funds_utilized; [validateRow] and [validateReport] agree on this. *)
Theorem numeric_fields_keep_their_leading_numeral :
  parseInt (Str "5.7") = Finite 5 0
  /\ parseInt (Str "12abc") = Finite 12 0
  /\ parseFloat (Str "12.5abc") = Finite 125 (-1)
  /\ parseFloat (Str "1e3x") = Finite 1 3
  /\ validateRow (csv_row "NGO001" "2024-01" "5.7" "12abc" "12.5abc") 1
     = {| isValid := true; Validate.errors := [];
          data := stored_as (Finite 5 0) (Finite 12 0) (Finite 125 (-1)) |}
  /\ validateRow (csv_row "NGO001" "2024-01" "12abc" "5.7" "1e3x") 2
     = {| isValid := true; Validate.errors := [];
          data := stored_as (Finite 12 0) (Finite 5 0) (Finite 1 3) |}
  /\ validateReport (json_row "NGO001" "2024-01" "5.7" "12abc" "12.5abc")
     = {| isValid := true; Validate.errors := [];
          data := stored_as (Finite 5 0) (Finite 12 0) (Finite 125 (-1)) |}
  /\ validateReport (json_row "NGO001" "2024-01" "12abc" "5.7" "1e3x")
     = {| isValid := true; Validate.errors := [];
          data := stored_as (Finite 12 0) (Finite 5 0) (Finite 1 3) |}.
Proof. repeat split; vm_compute; reflexivity. Qed.

End NumericPrefixes.

(* ===================================================================== *)
(** ** Pagination of the dashboard (C7) *)
(* ===================================================================== *)

Section Pagination.
Import JS Database Validate Routes.
Local Open Scope Z_scope.
Local Open Scope list_scope.

Lemma lt_integers a b : lt (Finite a 0) (Finite b 0) = (a <? b).
Proof. unfold lt. simpl. now rewrite !Z.mul_1_r. Qed.

Lemma max_integers a b : max (Finite a 0) (Finite b 0) = Finite (Z.max a b) 0.
Proof.
  unfold max. cbn [isNaN orb]. rewrite lt_integers.
  destruct (a <? b) eqn:E; f_equal; lia.
Qed.

Lemma min_integers a b : min (Finite a 0) (Finite b 0) = Finite (Z.min a b) 0.
Proof.
  unfold min. cbn [isNaN orb]. rewrite lt_integers.
  destruct (b <? a) eqn:E; f_equal; lia.
Qed.

Lemma place_length r sorted : length (place r sorted) = S (length sorted).
Proof.
  induction sorted as [|x rest IH]; simpl; [reflexivity |].
  destruct (before r x); simpl; congruence.
Qed.

Lemma orderBy_length rows : length (orderBy rows) = length rows.
Proof.
  unfold orderBy. induction rows as [|r rows IH]; simpl; [reflexivity |].
  now rewrite place_length, IH.
Qed.

(** The size of a page: at most [limit] rows of what is left after
    [offset]. *)
Lemma limitOffset_length limit offset rows :
  0 <= limit -> 0 <= offset ->
  Z.of_nat (length (limitOffset limit offset rows))
  = Z.min limit (Z.max 0 (Z.of_nat (length rows) - offset)).
Proof.
  intros Hl Ho. unfold limitOffset.
  destruct (limit <? 0) eqn:E; [lia |].
  rewrite length_take, length_drop. lia.
Qed.

(** C7, as amended.  The effective offset is max(0, n) for a given offset
    that reads as the integer n, and 0 when none is given or it does not
    read as a number.  The effective limit is n clamped into [1, 100] for a
    given limit that reads as a non-zero integer n, and 20 when none is
    given, when it reads as 0, or when it does not read as a number.  In
    every 200 reply,
    totalRecords counts the rows that match the filters, the page holds
    min(limit, max(0, totalRecords - offset)) rows, and hasMore is true
    exactly when offset + returned_count < totalRecords. *)
Theorem dashboard_pagination (q : query) (t : list report) :
  (q_offset q = None -> offsetNum q = Finite 0 0)
  /\ (forall text n,
        q_offset q = Some text -> parseInt (Str text) = Finite n 0 ->
        offsetNum q = Finite (Z.max 0 n) 0)
  /\ (q_limit q = None -> limitNum q = Finite 20 0)
  /\ (forall text n,
        q_limit q = Some text -> parseInt (Str text) = Finite n 0 -> n <> 0 ->
        limitNum q = Finite (Z.min 100 (Z.max 1 n)) 0)
  /\ (forall text,
        q_limit q = Some text ->
        parseInt (Str text) = Finite 0 0 \/ parseInt (Str text) = NaN ->
        limitNum q = Finite 20 0)
  /\ (forall text,
        q_offset q = Some text -> parseInt (Str text) = NaN ->
        offsetNum q = Finite 0 0)
  /\ (forall d,
        get_dashboard q t = Ok d ->
        exists o l,
          sql_integer (offset (d_pagination d)) = Some o
          /\ sql_integer (limit (d_pagination d)) = Some l
          /\ offset (d_pagination d) = offsetNum q
          /\ limit (d_pagination d) = limitNum q
          /\ p_totalRecords (d_pagination d)
             = Z.of_nat (length (filter (fun r => whereClause (d_filters d) r = true) t))
          /\ (0 <= o -> 0 <= l ->
              Z.of_nat (length (d_reports d))
              = Z.min l (Z.max 0 (p_totalRecords (d_pagination d) - o)))
          /\ (p_hasMore (d_pagination d) = true
              <-> o + Z.of_nat (length (d_reports d))
                  < p_totalRecords (d_pagination d))).
Proof.
  split; [| split; [| split; [| split; [| split; [| split]]]]].
  - intros Hq. unfold offsetNum. rewrite Hq. reflexivity.
  - intros text n Hq Hn. unfold offsetNum. rewrite Hq.
    change (default "0"%string (Some text)) with text. rewrite Hn. unfold or_default.
    destruct (n =? 0) eqn:E; rewrite max_integers; f_equal; lia.
  - intros Hq. unfold limitNum. rewrite Hq. reflexivity.
  - intros text n Hq Hn Hnz. unfold limitNum. rewrite Hq.
    change (default "20"%string (Some text)) with text. rewrite Hn. unfold or_default.
    destruct (n =? 0) eqn:E; [lia |].
    now rewrite max_integers, min_integers.
  - intros text Hq Hn. unfold limitNum. rewrite Hq.
    change (default "20"%string (Some text)) with text.
    destruct Hn as [-> | ->]; reflexivity.
  - intros text Hq Hn. unfold offsetNum. rewrite Hq.
    change (default "0"%string (Some text)) with text. rewrite Hn. reflexivity.
  - intros d. unfold get_dashboard.
    destruct (build_filters q) as [message | f]; [discriminate |].
    destruct (sql_integer (offsetNum q)) as [o |] eqn:Ho; [| discriminate].
    destruct (sql_integer (limitNum q)) as [l |] eqn:Hl; [| discriminate].
    intros [= <-]. cbn [d_pagination d_reports d_filters offset limit
      p_totalRecords p_hasMore].
    exists o, l. unfold getFilteredReports.
    change (default 0 (Some o)) with o. change (default 20 (Some l)) with l.
    cbn [reports totalRecords hasMore].
    repeat (split; [reflexivity || assumption |]).
    split.
    + intros Ho0 Hl0. rewrite limitOffset_length, orderBy_length by assumption.
      reflexivity.
    + apply Z.ltb_lt.
Qed.

(** The statement above on the query [offset=-3&limit=500] and on the first
    page of two of three reports. *)
Lemma dashboard_pagination_witness :
  offsetNum (paging (Some "-3") (Some "500")) = Finite 0 0
  /\ limitNum (paging (Some "-3") (Some "500")) = Finite 100 0
  /\ (exists d,
        get_dashboard (paging (Some "0") (Some "2")) three_reports = Ok d
        /\ p_totalRecords (d_pagination d) = 3
        /\ length (d_reports d) = 2%nat
        /\ p_hasMore (d_pagination d) = true).
Proof.
  destruct (dashboard_pagination (paging (Some "-3") (Some "500")) three_reports)
    as (_ & Hoff & _ & Hlim & _).
  split; [exact (Hoff "-3"%string (-3) eq_refl eq_refl) |].
  split; [refine (Hlim "500"%string 500 eq_refl eq_refl _); discriminate |].
  destruct (dashboard_pagination (paging (Some "0") (Some "2")) three_reports)
    as (_ & _ & _ & _ & _ & _ & Hpage).
  eexists. split; [vm_compute; reflexivity |].
  destruct (Hpage _ eq_refl) as (o & l & Ho & Hl & _ & _ & Htot & Hlen & Hmore).
  vm_compute in Ho. injection Ho as <-.
  split; [exact Htot |]. split; [reflexivity |].
  apply Hmore. vm_compute. reflexivity.
Defined.

(** C7 as stated fails for [limit=0]: the limit given is the integer 0,
    whose clamp into [1, 100] is 1, but the effective limit is 20. *)
Lemma zero_limit_is_not_clamped :
  q_limit (paging None (Some "0")) = Some "0"%string
  /\ parseInt (Str "0") = Finite 0 0
  /\ limitNum (paging None (Some "0")) = Finite 20 0
  /\ limitNum (paging None (Some "0")) <> Finite (Z.min 100 (Z.max 1 0)) 0.
Proof.
  split; [reflexivity |]. split; [reflexivity |]. split; [reflexivity |].
  vm_compute. discriminate.
Qed.

End Pagination.

(* ===================================================================== *)
(** ** The ngo_id filter of the dashboard (C8) *)
(* ===================================================================== *)

Section NgoFilter.
Import JS Database Validate Routes.
Local Open Scope string_scope.


Lemma append_cons c (a b : string) : String c a +:+ b = String c (a +:+ b).
Proof. reflexivity. Qed.

Lemma append_assoc (a b c : string) : (a +:+ b) +:+ c = a +:+ (b +:+ c).
Proof.
  induction a as [|x a IH]; [reflexivity |].
  rewrite !append_cons. now rewrite IH.
Qed.











End NgoFilter.

(* ===================================================================== *)
(** ** What the validators accept *)
(* ===================================================================== *)

Section TrimFacts.
Import JS.

Lemma trimStart_head s :
  trimStart s = "" \/ exists c t, trimStart s = String c t /\ is_space c = false.
Proof.
  induction s as [|c s IH]; [now left |].
  simpl. destruct (is_space c) eqn:E; [exact IH |]. right. eauto.
Qed.

Lemma trimEnd_idempotent t : trimEnd (trimEnd t) = trimEnd t.
Proof.
  induction t as [|c t IH]; [reflexivity |].
  cbn [trimEnd]. destruct (trimEnd t) as [|d r] eqn:E.
  - destruct (is_space c) eqn:Hc; [reflexivity |].
    cbn [trimEnd]. now rewrite Hc.
  - cbn [trimEnd]. cbn [trimEnd] in IH. 
    destruct (trimEnd r) as [|d' r'] eqn:E'.
    + destruct (is_space d); [discriminate IH |]. now rewrite IH.
    + now rewrite IH.
Qed.

Lemma trimEnd_head c t :
  is_space c = false -> exists r, trimEnd (String c t) = String c r.
Proof.
  intros Hc. cbn [trimEnd]. destruct (trimEnd t); [rewrite Hc |]; eauto.
Qed.

Lemma trim_idempotent s : trim (trim s) = trim s.
Proof.
  unfold trim. destruct (trimStart_head s) as [-> | (c & t & -> & Hc)];
    [reflexivity |].
  destruct (trimEnd_head c t Hc) as [r Hr]. rewrite Hr.
  cbn [trimStart]. rewrite Hc, <- Hr. apply trimEnd_idempotent.
Qed.

End TrimFacts.

Section Normal.
Import JS Database Validate Pipeline Routes.
Local Open Scope Z_scope.
Local Open Scope list_scope.

Lemma number_of_decimal_integer c :
  number_of_decimal c 0 = Finite 0 0
  \/ (exists neg, number_of_decimal c 0 = Infinity neg /\ neg = (c <? 0))
  \/ number_of_decimal c 0 = Finite c 0.
Proof.
  unfold number_of_decimal.
  destruct (scaled_le _ _ _ _); [now left |].
  destruct (scaled_ge _ _ _ _); right; [left; eauto | now right].
Qed.

Lemma parseInt_shape v :
  parseInt v = NaN
  \/ (exists neg, parseInt v = Infinity neg)
  \/ (exists c, parseInt v = Finite c 0).
Proof.
  unfold parseInt, parseInt_string.
  destruct (strip_sign _) as [neg s1]. destruct (strip_hex_prefix _) as [radix s2].
  destruct (read_digits radix None s2) as [n |]; [| now left].
  right.
  destruct (number_of_decimal_integer (if neg then - n else n))
    as [-> | [(b & -> & _) | ->]]; eauto.
Qed.

Lemma negative_integer c : negative (Finite c 0) = (c <? 0).
Proof. unfold negative, lt. simpl. now rewrite Z.mul_1_r. Qed.

Lemma count_like_or_default n :
  (isNaN n || negative n)%bool = false ->
  (n = NaN \/ (exists neg, n = Infinity neg) \/ (exists c, n = Finite c 0)) ->
  count_like (or_default n (Finite 0 0)).
Proof.
  intros Hok Hshape. apply orb_false_iff in Hok as [Hnan Hneg].
  destruct Hshape as [-> | [(neg & ->) | (c & ->)]].
  - discriminate Hnan.
  - exact Hneg.
  - unfold or_default. rewrite negative_integer in Hneg.
    destruct (c =? 0) eqn:E; simpl; split; auto; lia.
Qed.

Lemma amount_like_or_default n :
  (isNaN n || negative n)%bool = false ->
  amount_like (or_default n (Finite 0 0)).
Proof.
  intros Hok. apply orb_false_iff in Hok as [Hnan Hneg].
  unfold amount_like, or_default. destruct n as [| neg | c e];
    [discriminate | auto |].
  destruct (c =? 0); auto.
Qed.

Lemma checks_normalised ngo month people events funds :
  checks ngo month people events funds ->
  normalised
    {| ngo_id := trim (ToString ngo);
       Database.month := trim (ToString month);
       people_helped := or_default (parseInt people) (Finite 0 0);
       events_conducted := or_default (parseInt events) (Finite 0 0);
       funds_utilized := or_default (parseFloat funds) (Finite 0 0) |}.
Proof.
  intros (Hn & Hm & Ht & Hp & He & Hf). unfold normalised. cbn.
  split; [apply trim_idempotent |].
  split. { apply orb_false_iff in Hn as [_ Hn]. now apply String.eqb_neq in Hn. }
  split; [exact Ht |].
  split; [apply count_like_or_default; [exact Hp | apply parseInt_shape] |].
  split; [apply count_like_or_default; [exact He | apply parseInt_shape] |].
  now apply amount_like_or_default.
Qed.

Lemma validateRow_valid_checks row i :
  isValid (validateRow row i) = true ->
  checks (prop row "ngo_id") (prop row "month") (prop row "people_helped")
    (prop row "events_conducted") (prop row "funds_utilized").
Proof.
  unfold validateRow, checks. cbn [isValid]. rewrite !push_if_length.
  destruct (falsy (prop row "ngo_id") || _)%bool;
  destruct (falsy (prop row "month") || _)%bool;
  rewrite ?length_app, ?push_if_length;
  destruct (test_year_month _);
  destruct (isNaN (parseInt (prop row "people_helped")) || _)%bool;
  destruct (isNaN (parseInt (prop row "events_conducted")) || _)%bool;
  destruct (isNaN (parseFloat (prop row "funds_utilized")) || _)%bool;
  simpl; intros H; try discriminate H; repeat split.
Qed.

Lemma validateReport_valid_checks body :
  isValid (validateReport body) = true ->
  checks (field body "ngo_id") (field body "month") (field body "people_helped")
    (field body "events_conducted") (field body "funds_utilized").
Proof.
  unfold validateReport, checks. cbn [isValid]. rewrite !push_if_length.
  destruct (falsy (field body "ngo_id") || _)%bool;
  destruct (falsy (field body "month") || _)%bool;
  rewrite ?length_app, ?push_if_length;
  destruct (test_year_month _);
  destruct (isNaN (parseInt (field body "people_helped")) || _)%bool;
  destruct (isNaN (parseInt (field body "events_conducted")) || _)%bool;
  destruct (isNaN (parseFloat (field body "funds_utilized")) || _)%bool;
  simpl; intros H; try discriminate H; repeat split.
Qed.

Lemma field_body_of_row row name :
  field (body_of_row row) name = prop row name.
Proof.
  unfold field, body_of_row, prop. rewrite lookup_fmap.
  destruct (row !! name); reflexivity.
Qed.

(** X1.  What either validator accepts, it hands to the store normalised:
    a trimmed, non-empty ngo_id, a month of the form YYYY-MM, two counts
    that are non-negative integers (an overlong numeral reads as
    Infinity), and an amount that is a number and not negative. *)
Theorem accepted_data_is_normalised (x : submission) :
  isValid (validated x) = true -> normalised (data (validated x)).
Proof.
  destruct x as [body | row i]; cbn [validated]; intros H.
  - apply validateReport_valid_checks in H.
    exact (checks_normalised _ _ _ _ _ H).
  - apply validateRow_valid_checks in H.
    exact (checks_normalised _ _ _ _ _ H).
Qed.

(** The statement above on the second row of the sample upload. *)
Lemma accepted_data_is_normalised_witness :
  normalised (data (validated (BulkRow row_b 2))).
Proof. apply accepted_data_is_normalised. vm_compute. reflexivity. Defined.

(** X2.  A report is accepted by the bulk path exactly when POST /report
    accepts the body with the same five strings, both paths hand the same
    parameters to the store, and they give the same number of messages. *)
Theorem both_paths_validate_alike (row : gmap string string) (i : nat) :
  isValid (validated (Single (body_of_row row)))
  = isValid (validated (BulkRow row i))
  /\ data (validated (Single (body_of_row row)))
     = data (validated (BulkRow row i))
  /\ length (Validate.errors (validated (Single (body_of_row row))))
     = length (Validate.errors (validated (BulkRow row i))).
Proof.
  cbn [validated].
  unfold validateReport, validateRow. cbn [isValid data Validate.errors].
  rewrite !field_body_of_row.
  assert (forall a b : list string, length a = length b ->
            Nat.eqb (length a) 0 = Nat.eqb (length b) 0) as Heq
    by (intros a b ->; reflexivity).
  match goal with
  | |- _ /\ _ /\ ?l = ?r => assert (l = r) as Hlen
  end.
  { rewrite !push_if_length.
    destruct (falsy (prop row "month") || _)%bool;
      rewrite ?length_app, ?push_if_length; reflexivity. }
  split; [now apply Heq | split; [reflexivity | exact Hlen]].
Qed.

(** X3.  The header check accepts a header line exactly when each of the
    five required names is the trimmed lower-case form of one of its
    names: order, repetition and further columns play no part. *)
Theorem header_check_accepts_exactly (headers : list string) :
  headersValid (validateHeaders headers) = true
  <-> forall name, name ∈ REQUIRED_HEADERS ->
        exists h, h ∈ headers /\ trim (toLowerCase h) = name.
Proof.
  rewrite validateHeaders_valid. split.
  - intros Hnone name Hname.
    destruct (includes (map (fun h => trim (toLowerCase h)) headers) name) eqn:E.
    + apply includes_true, list_elem_of_fmap in E as (h & -> & Hh). eauto.
    + assert (name ∈ missingHeaders headers) as Hin.
      { apply elem_of_missingHeaders. split; [exact Hname |].
        intros h Hh Heq. 
        assert (includes (map (fun h => trim (toLowerCase h)) headers) name = true)
          as Hincl.
        { apply includes_true, list_elem_of_fmap. eauto. }
        congruence. }
      rewrite Hnone in Hin. now apply not_elem_of_nil in Hin.
  - intros Hall. destruct (missingHeaders headers) as [|name rest] eqn:E;
      [reflexivity |].
    assert (name ∈ missingHeaders headers) as Hin by (rewrite E; left).
    apply elem_of_missingHeaders in Hin as [Hname Hno].
    destruct (Hall name Hname) as (h & Hh & Heq). now destruct (Hno h Hh).
Qed.

End Normal.

(* ===================================================================== *)
(** ** The rows of a job, write by write *)
(* ===================================================================== *)

Section Loop.
Import JS Database Validate Pipeline.
Local Open Scope nat_scope.
Local Open Scope list_scope.

Variable run : report -> list report -> run_result.
Variable jobId : string.
Variable total : nat.

Lemma process_row_snapshot p row i :
  exists q, turn run p row i q
    /\ snapshot total (process_row run jobId total p (row, i)) = snapshot total q
    /\ fx_so_far (process_row run jobId total p (row, i))
       = write_job jobId (snapshot total q) (fx_so_far q)
    /\ processedRows (process_row run jobId total p (row, i)) = processedRows q
    /\ successfulRows_so_far (process_row run jobId total p (row, i))
       = successfulRows_so_far q
    /\ failedRows_so_far (process_row run jobId total p (row, i))
       = failedRows_so_far q
    /\ errors_so_far (process_row run jobId total p (row, i)) = errors_so_far q.
Proof.
  destruct (process_row_turn run jobId total p row i) as (q & Hturn & ->).
  exists q. repeat split; auto.
Qed.

Lemma persisted_process_row p item :
  registered jobId (tables (fx_so_far p)) ->
  persisted jobId (fx_so_far (process_row run jobId total p item))
  = persisted jobId (fx_so_far p)
    ++ [snapshot total (process_row run jobId total p item)].
Proof.
  intros Hreg. destruct item as [row i].
  destruct (process_row_snapshot p row i) as (q & Hturn & -> & -> & _).
  apply turn_counts in Hturn as (_ & _ & _ & _ & Hj & Hjobs).
  rewrite persisted_write_job, decide_True
    by (unfold registered; now rewrite Hjobs).
  unfold persisted. now rewrite Hj.
Qed.

Lemma persisted_process_rows items p :
  registered jobId (tables (fx_so_far p)) ->
  persisted jobId (fx_so_far (process_rows run jobId total p items))
  = persisted jobId (fx_so_far p)
    ++ map (snapshot total) (progress_after run jobId total p items).
Proof.
  revert p. induction items as [|item items IH]; intros p Hreg.
  - simpl. now rewrite app_nil_r.
  - rewrite process_rows_cons, IH by now apply process_row_registered.
    rewrite persisted_process_row by assumption.
    now rewrite <- app_assoc.
Qed.

Lemma statuses_progress_after items p :
  processedRows p + length items = total ->
  map job_status (map (snapshot total) (progress_after run jobId total p items))
  = match items with
    | [] => []
    | _ :: rest => replicate (length rest) processing ++ [completed]
    end.
Proof.
  revert p. induction items as [|item items IH]; intros p Hlen; [reflexivity |].
  cbn [progress_after map length] in *.
  pose proof (process_row_processed run jobId total p item) as Hproc.
  rewrite IH by (rewrite Hproc; lia).
  unfold snapshot at 1. cbn [job_status]. rewrite Hproc.
  destruct items as [|item' items]; cbn [length replicate app] in *;
    destruct (Nat.eqb_spec (S (processedRows p)) total); try lia; reflexivity.
Qed.

Lemma turn_errors_grow p row i q :
  turn run p row i q -> errors_so_far p `prefix_of` errors_so_far q.
Proof.
  intros H. destruct H; simpl; [reflexivity | |]; now apply prefix_app_r.
Qed.

Lemma process_row_errors_grow p item :
  errors_so_far p `prefix_of` errors_so_far (process_row run jobId total p item).
Proof.
  destruct item as [row i].
  destruct (process_row_snapshot p row i) as (q & Hturn & _ & _ & _ & _ & _ & ->).
  eapply turn_errors_grow; eassumption.
Qed.

End Loop.

Section Ascending.
Local Open Scope nat_scope.
Local Open Scope list_scope.

Lemma ascending_nil {A} (R : A -> A -> Prop) : ascending R [].
Proof. intros i k a b _ Ha. now rewrite lookup_nil in Ha. Qed.

Lemma ascending_cons {A} (R : A -> A -> Prop) x l :
  (forall a, R a a) ->
  Forall (R x) l -> ascending R l -> ascending R (x :: l).
Proof.
  intros Hrefl Hx Hl i k a b Hik Ha Hb.
  destruct i as [|i]; destruct k as [|k]; simpl in *.
  - injection Ha as <-. injection Hb as <-. apply Hrefl.
  - injection Ha as <-. rewrite Forall_forall in Hx. apply Hx.
    eapply list_elem_of_lookup_2; eassumption.
  - lia.
  - apply (Hl i k a b); [lia | assumption | assumption].
Qed.

End Ascending.

Section LoopErrors.
Import JS Database Validate Pipeline.
Local Open Scope nat_scope.
Local Open Scope list_scope.

Variable run : report -> list report -> run_result.
Variable jobId : string.
Variable total : nat.

Lemma errors_grow_refl j : errors_grow j j.
Proof. unfold errors_grow. reflexivity. Qed.

Lemma errors_progress_after items p :
  Forall (fun j => errors_so_far p `prefix_of` Database.errors j)
    (map (snapshot total) (progress_after run jobId total p items))
  /\ ascending errors_grow
       (map (snapshot total) (progress_after run jobId total p items)).
Proof.
  revert p. induction items as [|item items IH]; intros p.
  - split; [constructor | apply ascending_nil].
  - cbn [progress_after map].
    destruct (IH (process_row run jobId total p item)) as [Hall Hasc].
    pose proof (process_row_errors_grow run jobId total p item) as Hstep.
    split.
    + constructor; [exact Hstep |].
      eapply Forall_impl; [exact Hall |]. intros j Hj. cbn beta in Hj.
      etransitivity; eassumption.
    + apply ascending_cons; [exact errors_grow_refl | exact Hall | exact Hasc].
Qed.

End LoopErrors.

Section Outcomes.
Import JS Database Validate Pipeline.
Local Open Scope nat_scope.
Local Open Scope list_scope.

Variable run : report -> list report -> run_result.
Variable jobId : string.

(** A run that does not reach the row loop fails the job with one write. *)
Lemma processCSVFile_fails u s :
  reaches_loop u = false ->
  exists message o fx0,
    (fx0 = start s \/ fx0 = destroy (start s))
    /\ processCSVFile run u jobId s = settle o (setJobFailed jobId message fx0)
    /\ agrees o (failed_job message).
Proof.
  unfold reaches_loop. intros Hloop.
  destruct (records u) as [|row rows] eqn:Hrec.
  - rewrite (processCSVFile_no_record run jobId u s Hrec).
    destruct (ending_of u) as [|m].
    + eexists _, _, (start s). split; [now left |]. split; [reflexivity |].
      simpl. auto.
    + eexists _, _, (start s). split; [now left |]. split; [reflexivity |].
      simpl. auto.
  - destruct (headersValid (validateHeaders (keys row))) eqn:Hv.
    + rewrite (processCSVFile_accepted run jobId u s row rows Hrec Hv).
      destruct (ending_of u) as [|m]; [discriminate |].
      eexists _, _, (start s). split; [now left |]. split; [reflexivity |].
      simpl. auto.
    + rewrite (processCSVFile_refused run jobId u s row rows Hrec Hv).
      eexists _, _, (destroy (start s)). split; [now right |].
      split; [reflexivity |]. simpl. auto.
Qed.

Lemma processCSVFile_loops u s :
  reaches_loop u = true ->
  processCSVFile run u jobId s
  = let p := loop_exit run jobId (records u) s in
    settle (Resolved {| totalRows := length (records u);
                        successfulRows := successfulRows_so_far p;
                        failedRows := failedRows_so_far p;
                        summaryErrors := errors_so_far p |})
      (fx_so_far p).
Proof.
  unfold reaches_loop. intros Hloop.
  destruct (records u) as [|row rows] eqn:Hrec; [discriminate |].
  destruct (ending_of u) eqn:Hend; [| discriminate].
  rewrite (processCSVFile_accepted run jobId u s row rows Hrec Hloop), Hend.
  now rewrite Hrec.
Qed.

Lemma reaches_loop_records u : reaches_loop u = true -> records u <> [].
Proof. unfold reaches_loop. destruct (records u); [discriminate | discriminate]. Qed.

Lemma persisted_loop_exit rows s :
  registered jobId s ->
  persisted jobId (fx_so_far (loop_exit run jobId rows s))
  = processing_job (length rows) ::
    map (snapshot (length rows))
      (progress_after run jobId (length rows) (loop_entry jobId (length rows) s)
         (numbered 0 rows)).
Proof.
  intros Hreg. unfold loop_exit.
  rewrite persisted_process_rows
    by (unfold loop_entry; cbn [fx_so_far]; now apply registered_write_job).
  unfold loop_entry at 1. cbn [fx_so_far].
  rewrite persisted_write_job, decide_True by exact Hreg.
  rewrite persisted_start. reflexivity.
Qed.

Lemma final_job_reaches_loop u s :
  registered jobId s ->
  reaches_loop u = true ->
  let p := loop_exit run jobId (records u) s in
  final_job jobId (processCSVFile run u jobId s)
  = Some {| job_status := completed;
            total_rows := length (records u);
            processed_rows := length (records u);
            successful_rows := successfulRows_so_far p;
            failed_rows := failedRows_so_far p;
            Database.errors := errors_so_far p |}.
Proof.
  intros Hreg Hloop. cbn zeta.
  rewrite (processCSVFile_loops u s Hloop). cbn zeta.
  rewrite final_job_settle. unfold loop_exit.
  pose proof (reaches_loop_records u Hloop) as Hne.
  rewrite process_rows_final.
  - unfold snapshot.
    rewrite process_rows_processed, numbered_length.
    unfold loop_entry at 1 2. cbn [processedRows]. cbn [Nat.add].
    now rewrite Nat.eqb_refl.
  - destruct (records u); [congruence |]. rewrite numbered_cons. discriminate.
  - unfold loop_entry. cbn [fx_so_far]. now apply registered_write_job.
Qed.

Lemma final_job_terminal u s :
  registered jobId s ->
  exists j,
    final_job jobId (processCSVFile run u jobId s) = Some j
    /\ job_status j = (if reaches_loop u then completed else failed).
Proof.
  intros Hreg. destruct (reaches_loop u) eqn:Hloop.
  - eexists. split; [exact (final_job_reaches_loop u s Hreg Hloop) |].
    reflexivity.
  - destruct (processCSVFile_fails u s Hloop)
      as (message & o & fx0 & Hfx0 & -> & _).
    exists (failed_job message). split; [| reflexivity].
    rewrite final_job_settle. apply final_job_setJobFailed.
    destruct Hfx0 as [-> | ->]; exact Hreg.
Qed.

Lemma process_rows_last total items p :
  items <> [] ->
  last (progress_after run jobId total p items)
  = Some (process_rows run jobId total p items).
Proof.
  revert p. induction items as [|item items IH]; intros p Hne; [congruence |].
  rewrite process_rows_cons. cbn [progress_after].
  destruct items as [|item' items]; [reflexivity |].
  rewrite <- IH by discriminate. reflexivity.
Qed.

Lemma process_rows_keeps_promise total items p :
  promise (fx_so_far (process_rows run jobId total p items))
  = promise (fx_so_far p).
Proof.
  revert p. induction items as [|[row i] items IH]; intros p; [reflexivity |].
  rewrite process_rows_cons, IH.
  destruct (process_row_turn run jobId total p row i) as (q & Hturn & ->).
  cbn [fx_so_far write_job promise]. destruct Hturn; reflexivity.
Qed.

Lemma process_rows_other_job total items p id :
  id <> jobId ->
  getJob id (jobs_table (tables (fx_so_far (process_rows run jobId total p items))))
  = getJob id (jobs_table (tables (fx_so_far p))).
Proof.
  intros Hid. revert p.
  induction items as [|[row i] items IH]; intros p; [reflexivity |].
  rewrite process_rows_cons, IH.
  destruct (process_row_turn run jobId total p row i) as (q & Hturn & ->).
  cbn [fx_so_far write_job tables jobs_table].
  apply turn_counts in Hturn as (_ & _ & _ & _ & _ & Hjobs).
  unfold getJob, updateJobProgress. rewrite lookup_alter_ne by congruence.
  now rewrite Hjobs.
Qed.

End Outcomes.

Section Messages.
Import JS Database Validate Pipeline.
Local Open Scope nat_scope.
Local Open Scope list_scope.

Variable jobId : string.

Lemma valid_no_errors row i :
  isValid (validateRow row i) = true -> Validate.errors (validateRow row i) = [].
Proof.
  assert (isValid (validateRow row i)
          = Nat.eqb (length (Validate.errors (validateRow row i))) 0) as ->
    by reflexivity.
  destruct (Validate.errors (validateRow row i)); [reflexivity | discriminate].
Qed.

Lemma process_rows_messages run total items p :
  (forall q t, exists t', run q t = Done t') ->
  errors_so_far (process_rows run jobId total p items)
  = errors_so_far p ++ flat_map row_messages items.
Proof.
  intros Hacc. revert p.
  induction items as [|[row i] items IH]; intros p.
  - simpl. now rewrite app_nil_r.
  - rewrite process_rows_cons, IH. cbn [flat_map]. rewrite app_assoc. f_equal.
    destruct (process_row_turn run jobId total p row i) as (q & Hturn & ->).
    cbn [errors_so_far]. unfold row_messages. cbn [fst snd].
    destruct Hturn as [t Hv _ | message Hv Hr | Hv]; cbn [errors_so_far].
    + now rewrite valid_no_errors, app_nil_r.
    + destruct (Hacc (data (validateRow row i))
                  (reports_table (tables (fx_so_far p)))) as [t' Ht'].
      congruence.
    + reflexivity.
Qed.

Lemma process_rows_thrown run why total items p :
  (forall q t, run q t = Throws (why q)) ->
  let p' := process_rows run jobId total p items in
  errors_so_far p' = errors_so_far p ++ flat_map (thrown_messages why) items
  /\ successfulRows_so_far p' = successfulRows_so_far p
  /\ failedRows_so_far p' = failedRows_so_far p + length items
  /\ reports_table (tables (fx_so_far p')) = reports_table (tables (fx_so_far p)).
Proof.
  intros Hthrow. revert p.
  induction items as [|[row i] items IH]; intros p.
  - simpl. rewrite app_nil_r. repeat split; lia.
  - rewrite process_rows_cons. cbn zeta.
    destruct (IH (process_row run jobId total p (row, i)))
      as (-> & -> & -> & ->).
    destruct (process_row_turn run jobId total p row i) as (q & Hturn & ->).
    cbn [errors_so_far successfulRows_so_far failedRows_so_far fx_so_far
         write_job tables reports_table flat_map length].
    unfold thrown_messages at 2. cbn [fst snd].
    destruct Hturn as [t Hv Hr | message Hv Hr | Hv];
      cbn [errors_so_far successfulRows_so_far failedRows_so_far fx_so_far].
    + rewrite Hthrow in Hr. discriminate Hr.
    + rewrite Hthrow in Hr. injection Hr as <-. rewrite Hv.
      rewrite <- app_assoc. repeat split; lia.
    + rewrite Hv. rewrite <- app_assoc. repeat split; lia.
Qed.

Lemma validateRow_messages row i m :
  m ∈ Validate.errors (validateRow row i) ->
  exists rest, m = ("Row " +:+ show_nat i +:+ ": " +:+ rest)%string.
Proof.
  unfold validateRow. cbn [Validate.errors].
  rewrite !elem_of_push_if.
  intros [[[H | [_ ->]] | [_ ->]] | [_ ->]]; eauto.
  destruct (falsy (prop row "month") || _)%bool.
  - apply elem_of_app in H as [H | H].
    + apply elem_of_push_if in H as [H | [_ ->]]; eauto.
      now apply elem_of_nil in H.
    + apply list_elem_of_singleton in H as ->. eauto.
  - apply elem_of_push_if in H as [H | [_ ->]]; eauto.
    apply elem_of_push_if in H as [H | [_ ->]]; eauto.
    now apply elem_of_nil in H.
Qed.

Lemma numbered_range k rows :
  Forall (fun item : gmap string string * nat => k < item.2 <= k + length rows)
    (numbered k rows).
Proof.
  revert k. induction rows as [|row rows IH]; intros k; [constructor |].
  rewrite numbered_cons. constructor; [simpl; lia |].
  eapply Forall_impl; [apply IH |]. intros item Hitem. simpl in *. lia.
Qed.

Lemma process_rows_names_rows run total n items p :
  Forall (names_row n) (errors_so_far p) ->
  Forall (fun item : gmap string string * nat => 1 <= item.2 <= n) items ->
  Forall (names_row n) (errors_so_far (process_rows run jobId total p items)).
Proof.
  revert p. induction items as [|[row i] items IH]; intros p Hp Hitems;
    [exact Hp |].
  apply Forall_cons in Hitems as [Hi Hitems]. cbn [snd] in Hi.
  rewrite process_rows_cons. apply IH; [| exact Hitems].
  destruct (process_row_turn run jobId total p row i) as (q & Hturn & ->).
  cbn [errors_so_far].
  destruct Hturn as [t _ _ | message _ _ | _]; cbn [errors_so_far];
    [exact Hp | |]; apply Forall_app; (split; [exact Hp |]).
  - constructor; [| constructor].
    exists i, ("Database error - " +:+ message)%string. split; [exact Hi |].
    reflexivity.
  - apply Forall_forall. intros m Hm.
    apply validateRow_messages in Hm as [rest ->]. exists i, rest. now split.
Qed.

Lemma accepted_no_messages rows k :
  flat_map row_messages (numbered k (accepted rows)) = [].
Proof.
  revert k. unfold accepted. induction rows as [|row rows IH]; intros k;
    [reflexivity |].
  rewrite filter_cons. destruct (decide (well_formed_row row = true)) as [H | H];
    [| apply IH].
  rewrite numbered_cons. cbn [flat_map]. rewrite IH, app_nil_r.
  unfold row_messages. cbn [fst snd]. apply valid_no_errors.
  now rewrite (validateRow_isValid_any_index row (S k) 1).
Qed.

Lemma refused_messages rows k :
  flat_map row_messages (numbered k rows) = [] -> refused rows = [].
Proof.
  revert k. unfold refused. induction rows as [|row rows IH]; intros k;
    [reflexivity |].
  rewrite numbered_cons. cbn [flat_map]. intros H.
  apply app_eq_nil in H as [Hrow Hrest].
  rewrite filter_cons, (IH (S k) Hrest).
  destruct (decide (well_formed_row row = false)) as [Hbad | Hok];
    [| reflexivity].
  unfold row_messages in Hrow. cbn [fst snd] in Hrow.
  unfold well_formed_row in Hbad.
  rewrite (validateRow_isValid_any_index row 1 (S k)) in Hbad.
  assert (isValid (validateRow row (S k))
          = Nat.eqb (length (Validate.errors (validateRow row (S k)))) 0) as Hdef
    by reflexivity.
  rewrite Hrow in Hdef. cbn [length Nat.eqb] in Hdef. congruence.
Qed.

End Messages.

(* ===================================================================== *)
(** ** What a job reports *)
(* ===================================================================== *)

Section JobReports.
Import JS Database Validate Pipeline.
Local Open Scope nat_scope.
Local Open Scope list_scope.

(** X4.  The statuses written for a registered job, oldest first: one
    [processing] on entering the row loop and one per row but the last,
    then [completed]; or a single [failed].  What GET /job-status reads at
    the end is the last of these writes. *)
Theorem job_status_trail
    (run : report -> list report -> run_result) (u : upload) (jobId : string)
    (s : store) :
  registered jobId s ->
  let fx := processCSVFile run u jobId s in
  map job_status (persisted jobId fx)
  = (if reaches_loop u
     then replicate (length (records u)) processing ++ [completed]
     else [failed])
  /\ final_job jobId fx = last (persisted jobId fx).
Proof.
  intros Hreg. cbn zeta. destruct (reaches_loop u) eqn:Hloop.
  - rewrite (processCSVFile_loops run jobId u s Hloop). cbn zeta.
    rewrite persisted_settle, final_job_settle.
    rewrite (persisted_loop_exit run jobId (records u) s Hreg).
    pose proof (reaches_loop_records u Hloop) as Hne.
    split.
    + cbn [map processing_job job_status].
      rewrite statuses_progress_after
        by (unfold loop_entry; cbn [processedRows]; rewrite numbered_length; lia).
      destruct (records u) as [|row rows]; [congruence |].
      rewrite numbered_cons. cbn [length replicate app].
      now rewrite numbered_length.
    + assert (numbered 0 (records u) <> []) as Hne'.
      { destruct (records u); [congruence |]. rewrite numbered_cons. discriminate. }
      rewrite last_cons.
      change (map (snapshot (length (records u))))
        with (fmap (M:=list) (snapshot (length (records u)))).
      rewrite fmap_last, process_rows_last by exact Hne'.
      cbn [fmap option_fmap option_map]. unfold loop_exit.
      apply process_rows_final; [exact Hne' |].
      unfold loop_entry. cbn [fx_so_far]. now apply registered_write_job.
  - destruct (processCSVFile_fails run jobId u s Hloop)
      as (message & o & fx0 & Hfx0 & -> & _).
    rewrite persisted_settle, final_job_settle, persisted_setJobFailed.
    assert (registered jobId (tables fx0) /\ persisted jobId fx0 = [])
      as [Hreg0 ->] by (destruct Hfx0 as [-> | ->]; split; auto).
    rewrite decide_True, final_job_setJobFailed by exact Hreg0.
    split; reflexivity.
Qed.

(** The statement above on the upload with a bad row between two good
    ones. *)
Lemma job_status_trail_witness :
  let fx := processCSVFile run_insertOrUpdateReport upload_one_bad "job-1" store0 in
  map job_status (persisted "job-1" fx)
  = [processing; processing; processing; completed]
  /\ final_job "job-1" fx = last (persisted "job-1" fx).
Proof.
  exact (job_status_trail run_insertOrUpdateReport upload_one_bad "job-1" store0
           store0_registered).
Defined.

(** X5.  The error messages of a job only ever grow: in every row written
    to [jobs], the messages of any earlier write are a prefix. *)
Theorem job_errors_only_grow
    (run : report -> list report -> run_result) (u : upload) (jobId : string)
    (s : store) :
  registered jobId s ->
  ascending errors_grow (persisted jobId (processCSVFile run u jobId s)).
Proof.
  intros Hreg. destruct (reaches_loop u) eqn:Hloop.
  - rewrite (processCSVFile_loops run jobId u s Hloop). cbn zeta.
    rewrite persisted_settle, (persisted_loop_exit run jobId (records u) s Hreg).
    destruct (errors_progress_after run jobId (length (records u))
                (numbered 0 (records u))
                (loop_entry jobId (length (records u)) s)) as [Hall Hasc].
    apply ascending_cons; [exact errors_grow_refl | | exact Hasc].
    eapply Forall_impl; [exact Hall |]. intros j _.
    unfold errors_grow, processing_job. cbn [Database.errors].
    apply prefix_nil.
  - destruct (processCSVFile_fails run jobId u s Hloop)
      as (message & o & fx0 & Hfx0 & -> & _).
    rewrite persisted_settle, persisted_setJobFailed.
    assert (persisted jobId fx0 = []) as ->
      by (destruct Hfx0 as [-> | ->]; reflexivity).
    destruct (decide _); cbn [app].
    + apply ascending_cons; [exact errors_grow_refl | constructor |
                             apply ascending_nil].
    + apply ascending_nil.
Qed.

(** The statement above on a store that throws at every statement. *)
Lemma job_errors_only_grow_witness :
  ascending errors_grow
    (persisted "job-1"
       (processCSVFile (run_failing "disk I/O error") upload_one_bad "job-1" store0)).
Proof.
  apply (job_errors_only_grow (run_failing "disk I/O error") upload_one_bad
           "job-1" store0).
  exact store0_registered.
Defined.

(** X6.  Every run settles its promise, and the settlement agrees with the
    job row: a resolved summary carries the counters and messages of the
    row, a rejection goes with a failed job that carries its message. *)
Theorem promise_agrees_with_job
    (run : report -> list report -> run_result) (u : upload) (jobId : string)
    (s : store) :
  registered jobId s ->
  let fx := processCSVFile run u jobId s in
  exists o j,
    promise fx = Some o /\ final_job jobId fx = Some j /\ agrees o j.
Proof.
  intros Hreg. cbn zeta. destruct (reaches_loop u) eqn:Hloop.
  - rewrite (processCSVFile_loops run jobId u s Hloop). cbn zeta.
    pose proof (reaches_loop_records u Hloop) as Hne.
    assert (numbered 0 (records u) <> []) as Hne'.
    { destruct (records u); [congruence |]. rewrite numbered_cons. discriminate. }
    eexists _, _. split; [| split].
    + unfold settle. cbn [promise]. unfold loop_exit.
      rewrite process_rows_keeps_promise. reflexivity.
    + rewrite final_job_settle. unfold loop_exit.
      apply process_rows_final; [exact Hne' |].
      unfold loop_entry. cbn [fx_so_far]. now apply registered_write_job.
    + unfold agrees, snapshot. cbn. auto.
  - destruct (processCSVFile_fails run jobId u s Hloop)
      as (message & o & fx0 & Hfx0 & -> & Hag).
    exists o, (failed_job message). split; [| split; [| exact Hag]].
    + destruct Hfx0 as [-> | ->]; reflexivity.
    + rewrite final_job_settle. apply final_job_setJobFailed.
      destruct Hfx0 as [-> | ->]; exact Hreg.
Qed.

(** The statement above on the upload whose header lacks three columns. *)
Lemma promise_agrees_with_job_witness :
  let fx := processCSVFile run_insertOrUpdateReport upload_short_header
              "job-1" store0 in
  exists o j,
    promise fx = Some o /\ final_job "job-1" fx = Some j /\ agrees o j.
Proof.
  apply (promise_agrees_with_job run_insertOrUpdateReport upload_short_header
           "job-1" store0).
  exact store0_registered.
Defined.

(** X7.  A run writes to the row of its own job only: every other job reads
    as before, and no job is created or removed. *)
Theorem other_jobs_untouched
    (run : report -> list report -> run_result) (u : upload) (jobId : string)
    (s : store) (id : string) :
  id <> jobId ->
  let fx := processCSVFile run u jobId s in
  getJob id (jobs_table (tables fx)) = getJob id (jobs_table s)
  /\ (registered jobId (tables fx) <-> registered jobId s).
Proof.
  intros Hid. cbn zeta. destruct (reaches_loop u) eqn:Hloop.
  - rewrite (processCSVFile_loops run jobId u s Hloop). cbn zeta.
    cbn [settle tables]. unfold loop_exit. split.
    + rewrite process_rows_other_job by exact Hid.
      unfold loop_entry. cbn [fx_so_far write_job tables jobs_table start].
      unfold getJob, updateJobProgress. now rewrite lookup_alter_ne by congruence.
    + rewrite process_rows_registered. unfold loop_entry. cbn [fx_so_far].
      apply registered_write_job.
  - destruct (processCSVFile_fails run jobId u s Hloop)
      as (message & o & fx0 & Hfx0 & -> & _).
    cbn [settle tables]. unfold setJobFailed. split.
    + cbn [write_job tables jobs_table]. unfold getJob, updateJobProgress.
      rewrite lookup_alter_ne by congruence.
      destruct Hfx0 as [-> | ->]; reflexivity.
    + rewrite registered_write_job. destruct Hfx0 as [-> | ->]; reflexivity.
Qed.

(** The statement above on a store with two jobs. *)
Lemma other_jobs_untouched_witness :
  let fx := processCSVFile run_insertOrUpdateReport upload_one_bad "job-1" store1 in
  getJob "job-2" (jobs_table (tables fx)) = getJob "job-2" (jobs_table store1)
  /\ (registered "job-1" (tables fx) <-> registered "job-1" store1).
Proof.
  apply (other_jobs_untouched run_insertOrUpdateReport upload_one_bad "job-1"
           store1 "job-2").
  discriminate.
Defined.

(** X8.  On a store that takes every statement, the messages of a job that
    went through the row loop are the validation messages of its rows, in
    row order and, within a row, in the order of the checks. *)
Theorem job_errors_in_row_order
    (run : report -> list report -> run_result) (u : upload) (jobId : string) (s : store) :
  registered jobId s ->
  reaches_loop u = true ->
  (forall q t, exists t', run q t = Done t') ->
  exists j,
    final_job jobId (processCSVFile run u jobId s) = Some j
    /\ Database.errors j = flat_map row_messages (numbered 0 (records u)).
Proof.
  intros Hreg Hloop Hacc.
  eexists. split; [exact (final_job_reaches_loop run jobId u s Hreg Hloop) |].
  cbn [Database.errors]. unfold loop_exit.
  now rewrite process_rows_messages.
Qed.

(** The statement above on the upload with a bad row between two good
    ones. *)
Lemma job_errors_in_row_order_witness :
  exists j,
    final_job "job-1"
      (processCSVFile run_insertOrUpdateReport upload_one_bad "job-1" store0) = Some j
    /\ Database.errors j
       = ["Row 2: Month must be in YYYY-MM format"%string;
          "Row 2: People Helped must be a non-negative number"%string;
          "Row 2: Events Conducted must be a non-negative number"%string].
Proof.
  refine (job_errors_in_row_order run_insertOrUpdateReport upload_one_bad "job-1"
           store0 _ _ _).
  - exact store0_registered.
  - vm_compute. reflexivity.
  - exact run_insertOrUpdateReport_accepts.
Defined.

(** X9.  On a store that takes every statement, a job that went through
    the row loop counts as successful the rows its validator accepts and
    as failed the rows it refuses, and it carries no message exactly when
    no row failed. *)
Theorem job_counts_accepted_and_refused_rows
    (run : report -> list report -> run_result) (u : upload) (jobId : string)
    (s : store) :
  registered jobId s ->
  reaches_loop u = true ->
  (forall q t, exists t', run q t = Done t') ->
  exists j,
    final_job jobId (processCSVFile run u jobId s) = Some j
    /\ successful_rows j = length (accepted (records u))
    /\ failed_rows j = length (refused (records u))
    /\ (Database.errors j = [] <-> failed_rows j = 0).
Proof.
  intros Hreg Hloop Hacc.
  eexists. split; [exact (final_job_reaches_loop run jobId u s Hreg Hloop) |].
  cbn [successful_rows failed_rows Database.errors]. unfold loop_exit.
  destruct (process_rows_tally jobId (length (records u)) run Hacc (records u) 0
              (loop_entry jobId (length (records u)) s)) as [-> ->].
  rewrite process_rows_messages by exact Hacc.
  unfold loop_entry. cbn [successfulRows_so_far failedRows_so_far errors_so_far app].
  split; [reflexivity |]. split; [reflexivity |]. split.
  - intros H. apply refused_messages in H. now rewrite H.
  - intros H. apply nil_length_inv in H.
    assert (accepted (records u) = records u) as <-; [| apply accepted_no_messages].
    apply accepted_all. intros row Hrow.
    destruct (well_formed_row row) eqn:E; [reflexivity |].
    assert (row ∈ refused (records u)) as Hin
      by (unfold refused; now apply list_elem_of_filter).
    rewrite H in Hin. now apply elem_of_nil in Hin.
Qed.

(** The statement above on the upload with a bad row between two good
    ones. *)
Lemma job_counts_accepted_and_refused_rows_witness :
  exists j,
    final_job "job-1" (processCSVFile run_insertOrUpdateReport upload_one_bad
                         "job-1" store0) = Some j
    /\ successful_rows j = 2
    /\ failed_rows j = 1
    /\ (Database.errors j = [] <-> failed_rows j = 0).
Proof.
  refine (job_counts_accepted_and_refused_rows run_insertOrUpdateReport
           upload_one_bad "job-1" store0 _ _ _).
  - exact store0_registered.
  - vm_compute. reflexivity.
  - exact run_insertOrUpdateReport_accepts.
Defined.

(** X10.  When the upsert throws at every row, the job still runs
    through all its rows: it is [completed] with no successful row, every
    row counted as failed, nothing stored, and for each row either its
    validation messages or, for a valid row, the one message of the
    persistence error. *)
Theorem failing_store_never_aborts_the_job
    (run : report -> list report -> run_result) (why : report -> string)
    (u : upload) (jobId : string) (s : store) :
  registered jobId s ->
  reaches_loop u = true ->
  (forall q t, run q t = Throws (why q)) ->
  let fx := processCSVFile run u jobId s in
  exists j,
    final_job jobId fx = Some j
    /\ job_status j = completed
    /\ processed_rows j = length (records u)
    /\ successful_rows j = 0
    /\ failed_rows j = length (records u)
    /\ Database.errors j
       = flat_map (thrown_messages why) (numbered 0 (records u))
    /\ reports_table (tables fx) = reports_table s.
Proof.
  intros Hreg Hloop Hthrow. cbn zeta.
  destruct (process_rows_thrown jobId run why (length (records u))
              (numbered 0 (records u))
              (loop_entry jobId (length (records u)) s) Hthrow)
    as (He & Hs & Hf & Ht).
  fold (loop_exit run jobId (records u) s) in He, Hs, Hf, Ht.
  eexists. split; [exact (final_job_reaches_loop run jobId u s Hreg Hloop) |].
  cbn [job_status processed_rows successful_rows failed_rows Database.errors].
  rewrite He, Hs, Hf, numbered_length.
  split; [reflexivity |]. split; [reflexivity |]. split; [reflexivity |].
  split; [reflexivity |]. split; [reflexivity |].
  rewrite (processCSVFile_loops run jobId u s Hloop). cbn zeta.
  cbn [settle tables]. exact Ht.
Qed.

(** The statement above on a store that throws the same message at
    every statement. *)
Lemma failing_store_never_aborts_the_job_witness :
  let fx := processCSVFile (run_failing "disk I/O error") upload_one_bad
              "job-1" store0 in
  exists j,
    final_job "job-1" fx = Some j
    /\ job_status j = completed
    /\ processed_rows j = 3
    /\ successful_rows j = 0
    /\ failed_rows j = 3
    /\ Database.errors j
       = ["Row 1: Database error - disk I/O error"%string;
          "Row 2: Month must be in YYYY-MM format"%string;
          "Row 2: People Helped must be a non-negative number"%string;
          "Row 2: Events Conducted must be a non-negative number"%string;
          "Row 3: Database error - disk I/O error"%string]
    /\ reports_table (tables fx) = [].
Proof.
  refine (failing_store_never_aborts_the_job (run_failing "disk I/O error")
           (fun _ => "disk I/O error"%string) upload_one_bad "job-1" store0 _ _ _).
  - exact store0_registered.
  - vm_compute. reflexivity.
  - reflexivity.
Defined.

(** X11.  Every message of a job that went through the row loop starts
    with ["Row i: "] for the number [i] of one of its rows, whatever the
    store does. *)
Theorem job_errors_name_their_rows
    (run : report -> list report -> run_result) (u : upload) (jobId : string)
    (s : store) :
  registered jobId s ->
  reaches_loop u = true ->
  exists j,
    final_job jobId (processCSVFile run u jobId s) = Some j
    /\ Forall (names_row (length (records u))) (Database.errors j).
Proof.
  intros Hreg Hloop.
  eexists. split; [exact (final_job_reaches_loop run jobId u s Hreg Hloop) |].
  cbn [Database.errors]. unfold loop_exit.
  apply process_rows_names_rows; [constructor |].
  eapply Forall_impl; [apply numbered_range |].
  intros item Hitem. simpl in *. lia.
Qed.

(** The statement above on a store that throws at every statement. *)
Lemma job_errors_name_their_rows_witness :
  exists j,
    final_job "job-1" (processCSVFile (run_failing "disk I/O error")
                         upload_one_bad "job-1" store0) = Some j
    /\ Forall (names_row (length (records upload_one_bad))) (Database.errors j).
Proof.
  apply (job_errors_name_their_rows (run_failing "disk I/O error")
           upload_one_bad "job-1" store0).
  - exact store0_registered.
  - vm_compute. reflexivity.
Defined.

End JobReports.

(* ===================================================================== *)
(** ** What an upload leaves in [reports] *)
(* ===================================================================== *)

Section Stored.
Import JS Database Validate Pipeline.
Local Open Scope nat_scope.
Local Open Scope list_scope.

Lemma uploaded_upserts u jobId s :
  uploaded u jobId s
  = if reaches_loop u then upserts (statements u) (reports_table s)
    else reports_table s.
Proof.
  unfold uploaded, statements. destruct (reaches_loop u) eqn:Hloop.
  - rewrite (processCSVFile_loops run_insertOrUpdateReport jobId u s Hloop).
    cbn zeta. cbn [settle tables]. unfold loop_exit.
    now rewrite process_rows_table, loop_entry_table.
  - destruct (processCSVFile_fails run_insertOrUpdateReport jobId u s Hloop)
      as (message & o & fx0 & Hfx0 & -> & _).
    destruct Hfx0 as [-> | ->]; reflexivity.
Qed.

Lemma statements_normalised u : Forall normalised (statements u).
Proof.
  unfold statements, accepted. apply Forall_forall. intros d Hd.
  apply list_elem_of_fmap in Hd as (row & -> & Hrow).
  apply list_elem_of_filter in Hrow as [Hok _].
  unfold well_formed_row in Hok. apply validateRow_valid_checks in Hok.
  exact (checks_normalised _ _ _ _ _ Hok).
Qed.

(** X12.  An upload changes [reports] in one way only: when it reaches the
    row loop, by the upserts of the rows its validator accepts, in file
    order; a run that fails before the loop leaves the table as it was. *)
Theorem upload_upserts_its_accepted_rows (u : upload) (jobId : string) (s : store) :
  reports_table (tables (processCSVFile run_insertOrUpdateReport u jobId s))
  = if reaches_loop u
    then upserts (map row_data (accepted (records u))) (reports_table s)
    else reports_table s.
Proof.
  destruct (reaches_loop u) eqn:Hloop.
  - rewrite (processCSVFile_loops run_insertOrUpdateReport jobId u s Hloop).
    cbn zeta. cbn [settle tables]. unfold loop_exit.
    now rewrite process_rows_table.
  - destruct (processCSVFile_fails run_insertOrUpdateReport jobId u s Hloop)
      as (message & o & fx0 & Hfx0 & -> & _).
    destruct Hfx0 as [-> | ->]; reflexivity.
Qed.

(** X13.  Uploading the same file a second time, under whatever job, adds
    no row to [reports], removes none, and changes no ngo_id, month,
    people_helped, events_conducted or funds_utilized in it.  (The upsert
    sets updated_at anew on the rows it meets; the timestamps are not
    among the columns of [report].) *)
Theorem second_upload_keeps_every_value
    (u : upload) (job1 job2 : string) (s : store) :
  unique (reports_table s) ->
  let s1 := tables (processCSVFile run_insertOrUpdateReport u job1 s) in
  map values
    (reports_table (tables (processCSVFile run_insertOrUpdateReport u job2 s1)))
  = map values (reports_table s1).
Proof.
  intros Hu. cbn zeta. f_equal.
  change (uploaded u job2 (tables (processCSVFile run_insertOrUpdateReport u job1 s))
          = uploaded u job1 s).
  rewrite (uploaded_upserts u job2).
  change (reports_table (tables (processCSVFile run_insertOrUpdateReport u job1 s)))
    with (uploaded u job1 s).
  rewrite uploaded_upserts.
  destruct (reaches_loop u); [| reflexivity].
  now apply upserts_twice.
Qed.

(** The statement above on a table that holds an older report for the
    key of the first row. *)
Lemma second_upload_keeps_every_value_witness :
  let s1 := tables (processCSVFile run_insertOrUpdateReport upload_one_bad
                      "job-1" store_old) in
  map values
    (reports_table (tables (processCSVFile run_insertOrUpdateReport upload_one_bad
                              "job-2" s1)))
  = map values (reports_table s1).
Proof.
  apply (second_upload_keeps_every_value upload_one_bad "job-1" "job-2" store_old).
  apply NoDup_singleton.
Defined.

(** X14.  An upload keeps the table within its constraint and its rows as
    the validators leave them: if [reports] has one row per
    (ngo_id, month) and holds normalised rows only, so it does after the
    upload. *)
Theorem upload_keeps_the_table_sound (u : upload) (jobId : string) (s : store) :
  unique (reports_table s) ->
  Forall normalised (reports_table s) ->
  let t' := reports_table (tables (processCSVFile run_insertOrUpdateReport u jobId s)) in
  unique t' /\ Forall normalised t'.
Proof.
  intros Hu Hn. cbn zeta.
  change (reports_table (tables (processCSVFile run_insertOrUpdateReport u jobId s)))
    with (uploaded u jobId s).
  rewrite uploaded_upserts. destruct (reaches_loop u); [| now split].
  split; [now apply upserts_unique |].
  apply upserts_Forall; [exact Hn | apply statements_normalised].
Qed.

(** The statement above on an empty table. *)
Lemma upload_keeps_the_table_sound_witness :
  let t' := reports_table
              (tables (processCSVFile run_insertOrUpdateReport upload_one_bad
                         "job-1" store0)) in
  unique t' /\ Forall normalised t'.
Proof.
  apply (upload_keeps_the_table_sound upload_one_bad "job-1" store0).
  - apply NoDup_nil. constructor.
  - constructor.
Defined.

(** X15.  After an upload that reaches the row loop, each key holds the
    parameters of the last accepted row of the file with that key, and
    a key that no accepted row has holds what it held before. *)
Theorem upload_leaves_the_last_row_per_key
    (u : upload) (jobId : string) (s : store) (k : string * string) :
  unique (reports_table s) ->
  reaches_loop u = true ->
  stored k (reports_table (tables (processCSVFile run_insertOrUpdateReport u jobId s)))
  = match latest_for k (map row_data (accepted (records u))) with
    | Some p => [p]
    | None => stored k (reports_table s)
    end.
Proof.
  intros Hu Hloop.
  change (reports_table (tables (processCSVFile run_insertOrUpdateReport u jobId s)))
    with (uploaded u jobId s).
  rewrite uploaded_upserts, Hloop. now apply stored_upserts.
Qed.

(** The statement above on the key of the last row of the sample upload. *)
Lemma upload_leaves_the_last_row_per_key_witness :
  stored ("NGO002", "2024-01")%string
    (reports_table (tables (processCSVFile run_insertOrUpdateReport upload_one_bad
                              "job-1" store0)))
  = [ {| ngo_id := "NGO002"; month := "2024-01"; people_helped := Finite 80 0;
         events_conducted := Finite 2 0; funds_utilized := Finite 120050 (-2) |} ].
Proof.
  refine (upload_leaves_the_last_row_per_key upload_one_bad "job-1" store0
           ("NGO002", "2024-01")%string _ _).
  - apply NoDup_nil. constructor.
  - vm_compute. reflexivity.
Defined.

End Stored.

(* ===================================================================== *)
(** ** The routes that write *)
(* ===================================================================== *)

Section WritingRoutes.
Import JS Database Validate Pipeline Routes Reads.
Local Open Scope nat_scope.
Local Open Scope list_scope.

(** X16.  An upload under an unused job id is taken, and once its run has
    settled GET /job-status finds the job in a status at which the upload
    page stops polling: [completed] when the run went through the row
    loop, [failed] otherwise. *)
Theorem upload_job_ends_in_a_terminal_status
    (run : report -> list report -> run_result) (u : upload) (jobId : string)
    (s : store) :
  jobs_table s !! jobId = None ->
  exists fx j,
    post_reports_upload run u jobId s = Some fx
    /\ get_job_status jobId (jobs_table (tables fx)) = JobFound j
    /\ isTerminalStatus (job_status j) = true
    /\ job_status j = (if reaches_loop u then completed else failed).
Proof.
  unfold post_reports_upload, createJob. intros Hfree. rewrite Hfree.
  set (s' := {| reports_table := reports_table s;
                jobs_table := <[jobId := _]> (jobs_table s) |}).
  assert (registered jobId s') as Hreg.
  { unfold registered, s'. cbn [jobs_table]. rewrite lookup_insert_eq. eauto. }
  destruct (final_job_terminal run jobId u s' Hreg) as (j & Hj & Hstatus).
  exists (processCSVFile run u jobId s'), j.
  split; [reflexivity |]. unfold get_job_status.
  unfold final_job in Hj. rewrite Hj. split; [reflexivity |].
  rewrite Hstatus. destruct (reaches_loop u); split; reflexivity.
Qed.

(** The statement above on a store without jobs. *)
Lemma upload_job_ends_in_a_terminal_status_witness :
  exists fx j,
    post_reports_upload run_insertOrUpdateReport upload_one_bad "job-1"
      {| reports_table := []; jobs_table := ∅ |} = Some fx
    /\ get_job_status "job-1" (jobs_table (tables fx)) = JobFound j
    /\ isTerminalStatus (job_status j) = true
    /\ job_status j = completed.
Proof.
  refine (upload_job_ends_in_a_terminal_status run_insertOrUpdateReport
           upload_one_bad "job-1" {| reports_table := []; jobs_table := ∅ |} _).
  reflexivity.
Defined.



End WritingRoutes.

(* ===================================================================== *)
(** ** The order of the listings *)
(* ===================================================================== *)

Section TextOrder.

Lemma ascii_compare_refl c : Ascii.compare c c = Eq.
Proof. unfold Ascii.compare. apply N.compare_refl. Qed.

Lemma ascii_compare_lt_trans a b c :
  Ascii.compare a b = Lt -> Ascii.compare b c = Lt -> Ascii.compare a c = Lt.
Proof.
  unfold Ascii.compare. rewrite !N.compare_lt_iff. apply N.lt_trans.
Qed.

Lemma string_compare_refl s : String.compare s s = Eq.
Proof.
  induction s as [|c s IH]; [reflexivity |].
  simpl. now rewrite ascii_compare_refl.
Qed.

Lemma string_compare_lt_trans s1 s2 s3 :
  String.compare s1 s2 = Lt -> String.compare s2 s3 = Lt ->
  String.compare s1 s3 = Lt.
Proof.
  revert s2 s3. induction s1 as [|c1 s1 IH]; intros [|c2 s2] [|c3 s3];
    simpl; try congruence.
  destruct (Ascii.compare c1 c2) eqn:E12; try discriminate;
  destruct (Ascii.compare c2 c3) eqn:E23; try discriminate; intros H12 H23.
  - apply Ascii.compare_eq_iff in E12 as ->. apply Ascii.compare_eq_iff in E23 as ->.
    rewrite ascii_compare_refl. eapply IH; eassumption.
  - apply Ascii.compare_eq_iff in E12 as ->. now rewrite E23.
  - apply Ascii.compare_eq_iff in E23 as <-. now rewrite E12.
  - now rewrite (ascii_compare_lt_trans c1 c2 c3 E12 E23).
Qed.

Lemma string_leb_refl s : String.leb s s = true.
Proof. unfold String.leb. now rewrite string_compare_refl. Qed.

Lemma string_ltb_irrefl s : String.ltb s s = false.
Proof. unfold String.ltb. now rewrite string_compare_refl. Qed.

Lemma string_ltb_trans s1 s2 s3 :
  String.ltb s1 s2 = true -> String.ltb s2 s3 = true -> String.ltb s1 s3 = true.
Proof.
  unfold String.ltb. intros H12 H23.
  destruct (String.compare s1 s2) eqn:E12; try discriminate.
  destruct (String.compare s2 s3) eqn:E23; try discriminate.
  now rewrite (string_compare_lt_trans s1 s2 s3 E12 E23).
Qed.

Lemma string_leb_cases s1 s2 :
  String.leb s1 s2 = true <-> String.ltb s1 s2 = true \/ s1 = s2.
Proof.
  unfold String.leb, String.ltb. split.
  - destruct (String.compare s1 s2) eqn:E; try discriminate; intros _.
    + right. now apply String.compare_eq_iff.
    + now left.
  - intros [H | ->]; [| now rewrite string_compare_refl].
    destruct (String.compare s1 s2); try discriminate; reflexivity.
Qed.

Lemma string_leb_trans s1 s2 s3 :
  String.leb s1 s2 = true -> String.leb s2 s3 = true -> String.leb s1 s3 = true.
Proof.
  rewrite !string_leb_cases. intros [H12 | ->] [H23 | ->]; auto.
  left. eapply string_ltb_trans; eassumption.
Qed.

Lemma string_ltb_not_leb s1 s2 :
  String.ltb s1 s2 = true -> String.leb s2 s1 = false.
Proof.
  unfold String.ltb, String.leb. rewrite (String.compare_antisym s1 s2).
  destruct (String.compare s2 s1); simpl; congruence.
Qed.

Lemma string_not_ltb_leb s1 s2 :
  String.ltb s1 s2 = false -> String.leb s2 s1 = true.
Proof.
  unfold String.ltb, String.leb. rewrite (String.compare_antisym s1 s2).
  destruct (String.compare s2 s1); simpl; congruence.
Qed.

End TextOrder.

Section Order.
Import JS Database.
Local Open Scope nat_scope.
Local Open Scope list_scope.

Lemma before_total a b : before a b = false -> before b a = true.
Proof.
  unfold before. intros H. apply orb_false_iff in H as [Hlt Hrest].
  destruct (String.eqb_spec (month a) (month b)) as [Heq | Hne].
  - rewrite <- Heq, String.eqb_refl, string_ltb_irrefl. simpl in *.
    rewrite <- Heq in Hlt.
    destruct (String.leb_total (ngo_id a) (ngo_id b)) as [H | H]; congruence.
  - apply string_not_ltb_leb, string_leb_cases in Hlt as [Hlt | Heq];
      [now rewrite Hlt | congruence].
Qed.

Lemma before_trans a b c :
  before a b = true -> before b c = true -> before a c = true.
Proof.
  unfold before. intros Hab Hbc.
  apply orb_true_iff in Hab as [Hab | Hab];
  apply orb_true_iff in Hbc as [Hbc | Hbc].
  - now rewrite (string_ltb_trans _ _ _ Hbc Hab).
  - apply andb_true_iff in Hbc as [Hm _]. apply String.eqb_eq in Hm.
    rewrite <- Hm. now rewrite Hab.
  - apply andb_true_iff in Hab as [Hm _]. apply String.eqb_eq in Hm.
    rewrite Hm. now rewrite Hbc.
  - apply andb_true_iff in Hab as [Hm1 Hn1]. apply andb_true_iff in Hbc as [Hm2 Hn2].
    apply String.eqb_eq in Hm1, Hm2. rewrite Hm1, Hm2, String.eqb_refl.
    rewrite (string_leb_trans _ _ _ Hn1 Hn2). apply orb_true_r.
Qed.

Lemma in_order_cons x l :
  in_order (x :: l) <-> Forall (fun y => before x y = true) l /\ in_order l.
Proof.
  unfold in_order. split.
  - intros H. split.
    + apply Forall_lookup. intros j b Hb. exact (H 0 (S j) x b ltac:(lia) eq_refl Hb).
    + intros i j a b Hij Ha Hb. exact (H (S i) (S j) a b ltac:(lia) Ha Hb).
  - intros [Hx Hl] i j a b Hij Ha Hb.
    destruct j as [|j]; [lia |]. destruct i as [|i].
    + injection Ha as <-. rewrite Forall_lookup in Hx. exact (Hx j b Hb).
    + exact (Hl i j a b ltac:(lia) Ha Hb).
Qed.

Lemma in_order_nil : in_order [].
Proof. intros i j a b _ Ha. now rewrite lookup_nil in Ha. Qed.

Lemma elem_of_place r x sorted : x ∈ place r sorted <-> x = r \/ x ∈ sorted.
Proof.
  induction sorted as [|y rest IH]; simpl.
  - rewrite list_elem_of_singleton, elem_of_nil. tauto.
  - destruct (before r y); rewrite !elem_of_cons; [tauto |].
    rewrite IH. tauto.
Qed.

Lemma place_in_order r sorted : in_order sorted -> in_order (place r sorted).
Proof.
  induction sorted as [|x rest IH]; intros Hs; simpl.
  - apply in_order_cons. split; [constructor | apply in_order_nil].
  - apply in_order_cons in Hs as [Hx Hrest].
    destruct (before r x) eqn:E.
    + apply in_order_cons. split; [| now apply in_order_cons].
      constructor; [exact E |].
      eapply Forall_impl; [exact Hx |]. intros y Hy. cbn beta in Hy.
      eapply before_trans; eassumption.
    + apply in_order_cons. split; [| now apply IH].
      apply Forall_forall. intros y Hy. apply elem_of_place in Hy as [-> | Hy].
      * now apply before_total.
      * rewrite Forall_forall in Hx. now apply Hx.
Qed.

Lemma orderBy_in_order rows : in_order (orderBy rows).
Proof.
  unfold orderBy. induction rows as [|r rows IH]; simpl;
    [apply in_order_nil | now apply place_in_order].
Qed.

Lemma place_Permutation r sorted : place r sorted ≡ₚ r :: sorted.
Proof.
  induction sorted as [|x rest IH]; simpl; [reflexivity |].
  destruct (before r x); [reflexivity |].
  rewrite IH. apply Permutation_swap.
Qed.

Lemma orderBy_Permutation rows : orderBy rows ≡ₚ rows.
Proof.
  unfold orderBy. induction rows as [|r rows IH]; simpl; [reflexivity |].
  now rewrite place_Permutation, IH.
Qed.

Lemma in_order_drop n l : in_order l -> in_order (drop n l).
Proof.
  intros H i j a b Hij Ha Hb. rewrite lookup_drop in Ha, Hb.
  exact (H (n + i) (n + j) a b ltac:(lia) Ha Hb).
Qed.

Lemma in_order_take n l : in_order l -> in_order (take n l).
Proof.
  intros H i j a b Hij Ha Hb.
  apply lookup_take_Some in Ha as [Ha _]. apply lookup_take_Some in Hb as [Hb _].
  exact (H i j a b Hij Ha Hb).
Qed.

Lemma limitOffset_in_order limit offset rows :
  in_order rows -> in_order (limitOffset limit offset rows).
Proof.
  intros H. unfold limitOffset. destruct (limit <? 0)%Z.
  - now apply in_order_drop.
  - now apply in_order_take, in_order_drop.
Qed.

Lemma limitOffset_subseteq limit offset rows r :
  r ∈ limitOffset limit offset rows -> r ∈ rows.
Proof.
  unfold limitOffset. intros H.
  assert (r ∈ drop (Z.to_nat offset) rows) as Hd.
  { destruct (limit <? 0)%Z; [exact H |].
    apply list_elem_of_lookup in H as [i Hi].
    apply lookup_take_Some in Hi as [Hi _].
    eapply list_elem_of_lookup_2; eassumption. }
  apply list_elem_of_lookup in Hd as [i Hi]. rewrite lookup_drop in Hi.
  eapply list_elem_of_lookup_2; eassumption.
Qed.

End Order.

(* ===================================================================== *)
(** ** The pages of the dashboard *)
(* ===================================================================== *)

Section Pages.
Import JS Database Validate Routes Reads.
Local Open Scope Z_scope.
Local Open Scope list_scope.

Lemma limitNum_range q :
  exists l, limitNum q = Finite l 0 /\ 1 <= l <= 100.
Proof.
  unfold limitNum.
  destruct (parseInt_shape (Str (default "20"%string (q_limit q))))
    as [-> | [([|] & ->) | (c & ->)]].
  - exists 20. split; [reflexivity | lia].
  - exists 1. split; [reflexivity | lia].
  - exists 100. split; [reflexivity | lia].
  - unfold or_default. destruct (c =? 0).
    + exists 20. split; [reflexivity | lia].
    + rewrite max_integers, min_integers. eexists. split; [reflexivity | lia].
Qed.

Lemma offsetNum_range q :
  offsetNum q = Infinity false
  \/ exists o, offsetNum q = Finite o 0 /\ 0 <= o.
Proof.
  unfold offsetNum.
  destruct (parseInt_shape (Str (default "0"%string (q_offset q))))
    as [-> | [([|] & ->) | (c & ->)]].
  - right. exists 0. split; [reflexivity | lia].
  - right. exists 0. split; [reflexivity | lia].
  - now left.
  - right. unfold or_default. destruct (c =? 0).
    + exists 0. split; [reflexivity | lia].
    + rewrite max_integers. eexists. split; [reflexivity | lia].
Qed.

Lemma sql_integer_small l : Z.abs l < 2 ^ 63 - 512 -> sql_integer (Finite l 0) = Some l.
Proof.
  intros H. unfold sql_integer. cbn [Z.leb Z.compare Z.abs].
  change (10 ^ 0) with 1. rewrite Z.mul_1_r.
  apply Z.ltb_lt in H. now rewrite H.
Qed.

Lemma sql_integer_offsetNum q o : sql_integer (offsetNum q) = Some o -> 0 <= o.
Proof.
  destruct (offsetNum_range q) as [-> | (o' & -> & Ho')]; [discriminate |].
  unfold sql_integer. cbn [Z.leb Z.compare Z.abs].
  change (10 ^ 0) with 1. rewrite Z.mul_1_r.
  destruct (Z.abs o' <? 2 ^ 63 - 512); [| discriminate].
  now intros [= <-].
Qed.

Lemma sql_integer_limitNum q :
  exists l, sql_integer (limitNum q) = Some l /\ 1 <= l <= 100.
Proof.
  destruct (limitNum_range q) as (l & -> & Hl). exists l.
  split; [apply sql_integer_small; lia | exact Hl].
Qed.

(** X18.  Whatever the query strings are, the limit handed to the statement
    is an integer between 1 and 100, and the offset is a non-negative
    integer or, for an overlong numeral, Infinity. *)
Theorem pagination_parameters_are_in_range (q : query) :
  (exists l, limitNum q = Finite l 0 /\ 1 <= l <= 100
             /\ sql_integer (limitNum q) = Some l)
  /\ (offsetNum q = Infinity false
      \/ exists o, offsetNum q = Finite o 0 /\ 0 <= o).
Proof.
  split; [| apply offsetNum_range].
  destruct (limitNum_range q) as (l & Hl & Hr). exists l.
  split; [exact Hl |]. split; [exact Hr |].
  rewrite Hl. apply sql_integer_small. lia.
Qed.

Lemma get_dashboard_Ok q t d :
  get_dashboard q t = Ok d ->
  exists f o l,
    build_filters q = inr f
    /\ sql_integer (offsetNum q) = Some o /\ 0 <= o
    /\ sql_integer (limitNum q) = Some l /\ 1 <= l <= 100
    /\ d_filters d = f
    /\ d_reports d = take (Z.to_nat l) (drop (Z.to_nat o) (matching f t))
    /\ p_totalRecords (d_pagination d) = Z.of_nat (length (matching f t))
    /\ p_hasMore (d_pagination d)
       = (o + Z.of_nat (length (d_reports d)) <? Z.of_nat (length (matching f t))).
Proof.
  unfold get_dashboard. destruct (build_filters q) as [message | f]; [discriminate |].
  destruct (sql_integer (offsetNum q)) as [o |] eqn:Ho; [| discriminate].
  destruct (sql_integer_limitNum q) as (l & Hl & Hr). rewrite Hl.
  intros [= <-]. exists f, o, l.
  cbn [d_filters d_reports d_pagination p_totalRecords p_hasMore].
  unfold getFilteredReports.
  change (default 0 (Some o)) with o. change (default 20 (Some l)) with l.
  cbn [reports totalRecords hasMore]. unfold limitOffset, matching.
  assert ((l <? 0) = false) as -> by lia.
  rewrite orderBy_length.
  split; [reflexivity |]. split; [reflexivity |].
  split; [now apply (sql_integer_offsetNum q) |].
  split; [reflexivity |]. split; [exact Hr |]. repeat split.
Qed.

Lemma elem_of_matching f t r :
  r ∈ matching f t <-> r ∈ t /\ whereClause f r = true.
Proof.
  unfold matching. rewrite orderBy_Permutation, list_elem_of_filter. tauto.
Qed.

Lemma matching_in_order f t : in_order (matching f t).
Proof. apply orderBy_in_order. Qed.

(** X19.  The reports of a dashboard reply are rows of the table that match
    the filters of the reply, at most 100 of them, listed by month from the
    latest to the earliest and, within a month, by ngo_id upwards. *)
Theorem dashboard_page_matches_and_is_ordered
    (q : query) (t : list report) (d : dashboard_data) :
  get_dashboard q t = Ok d ->
  (forall r, r ∈ d_reports d -> r ∈ t /\ whereClause (d_filters d) r = true)
  /\ in_order (d_reports d)
  /\ (length (d_reports d) <= 100)%nat.
Proof.
  intros H. apply get_dashboard_Ok in H
    as (f & o & l & _ & _ & Ho & _ & Hl & -> & -> & _).
  split; [| split].
  - intros r Hr. apply elem_of_matching.
    apply list_elem_of_lookup in Hr as [i Hi].
    apply lookup_take_Some in Hi as [Hi _]. rewrite lookup_drop in Hi.
    eapply list_elem_of_lookup_2; eassumption.
  - apply in_order_take, in_order_drop, matching_in_order.
  - rewrite length_take. lia.
Qed.

(** The statement above on the first page of two of three reports. *)
Lemma dashboard_page_matches_and_is_ordered_witness :
  exists d,
    get_dashboard (paging (Some "0") (Some "2")) three_reports = Ok d
    /\ (forall r, r ∈ d_reports d ->
          r ∈ three_reports /\ whereClause (d_filters d) r = true)
    /\ in_order (d_reports d)
    /\ (length (d_reports d) <= 100)%nat.
Proof.
  eexists. split; [vm_compute; reflexivity |].
  apply (dashboard_page_matches_and_is_ordered (paging (Some "0") (Some "2"))
           three_reports).
  vm_compute. reflexivity.
Defined.

Lemma reports_getFilteredReports f o l t :
  0 <= l ->
  reports (getFilteredReports f (Some o) (Some l) t)
  = take (Z.to_nat l) (drop (Z.to_nat o) (matching f t)).
Proof.
  intros Hl. unfold getFilteredReports, limitOffset, matching.
  change (default 0 (Some o)) with o. change (default 20 (Some l)) with l.
  cbn [reports]. now assert ((l <? 0) = false) as -> by lia.
Qed.

Lemma fetched_take f l t n :
  1 <= l ->
  fetched f l t n = take (n * Z.to_nat l) (matching f t).
Proof.
  intros Hl. induction n as [|n IH]; [reflexivity |].
  cbn [fetched]. rewrite reports_getFilteredReports by lia. rewrite IH.
  rewrite length_take, Nat2Z.id.
  destruct (decide (n * Z.to_nat l <= length (matching f t))%nat) as [Hle | Hgt].
  - rewrite Nat.min_l by exact Hle.
    rewrite take_take_drop. f_equal. lia.
  - rewrite Nat.min_r by lia.
    rewrite (drop_ge (matching f t)) by lia. rewrite take_nil, app_nil_r.
    rewrite !take_ge by lia. reflexivity.
Qed.

(** X20.  A client that asks page after page, each at the offset of the
    rows it already holds, holds after [n] requests the first [n * limit]
    of the matching rows in dashboard order, and all of them once
    [n * limit] reaches their number. *)
Theorem pages_tile_the_matching_reports
    (f : filters) (limit : Z) (t : list report) (n : nat) :
  1 <= limit ->
  fetched f limit t n = take (n * Z.to_nat limit) (matching f t)
  /\ (Z.of_nat (length (matching f t)) <= Z.of_nat n * limit ->
      fetched f limit t n = matching f t).
Proof.
  intros Hl. rewrite fetched_take by exact Hl. split; [reflexivity |].
  intros Hall. apply take_ge. nia.
Qed.

(** The statement above on two pages of two rows over three reports. *)
Lemma pages_tile_the_matching_reports_witness :
  fetched (only_ngoId "NGO") 2 three_reports 2
  = matching (only_ngoId "NGO") three_reports.
Proof.
  refine (proj2 (pages_tile_the_matching_reports (only_ngoId "NGO") 2
                   three_reports 2 _) _).
  - lia.
  - vm_compute. discriminate.
Defined.

(** X21.  [hasMore] is true exactly when the next request, at the offset
    just after this page, would return a row. *)
Theorem hasMore_tells_whether_rows_remain
    (f : filters) (offset limit : Z) (t : list report) :
  0 <= offset -> 1 <= limit ->
  let page := getFilteredReports f (Some offset) (Some limit) t in
  hasMore page = true
  <-> reports (getFilteredReports f
                 (Some (offset + Z.of_nat (length (reports page))))
                 (Some limit) t) <> [].
Proof.
  intros Ho Hl. cbn zeta.
  rewrite !reports_getFilteredReports by lia.
  unfold getFilteredReports at 1.
  change (default 0 (Some offset)) with offset.
  change (default 20 (Some limit)) with limit. cbn [hasMore].
  fold (matching f t). unfold limitOffset.
  assert ((limit <? 0) = false) as -> by lia.
  set (all := matching f t).
  assert (length (filter (fun r => whereClause f r = true) t) = length all) as ->
    by (unfold all, matching; now rewrite orderBy_length).
  rewrite Z.ltb_lt.
  set (k := length (take (Z.to_nat limit) (drop (Z.to_nat offset) all))).
  assert (k = Nat.min (Z.to_nat limit) (length all - Z.to_nat offset))%nat as Hk
    by (unfold k; now rewrite length_take, length_drop).
  split.
  - intros Hlt Hnil. apply (f_equal length) in Hnil.
    rewrite length_take, length_drop in Hnil. simpl in Hnil. lia.
  - intros Hne.
    destruct (decide (offset + Z.of_nat k < Z.of_nat (length all))) as [Hlt | Hge];
      [exact Hlt |].
    destruct Hne. rewrite drop_ge by lia. apply take_nil.
Qed.

(** The statement above on the first page of two of three reports. *)
Lemma hasMore_tells_whether_rows_remain_witness :
  let page := getFilteredReports (only_ngoId "NGO") (Some 0) (Some 2) three_reports in
  hasMore page = true
  <-> reports (getFilteredReports (only_ngoId "NGO")
                 (Some (0 + Z.of_nat (length (reports page))))
                 (Some 2) three_reports) <> [].
Proof.
  apply (hasMore_tells_whether_rows_remain (only_ngoId "NGO") 0 2 three_reports);
    lia.
Defined.

End Pages.

(* ===================================================================== *)
(** ** Months: one month, a range, and GET /reports *)
(* ===================================================================== *)

Section Months.
Import JS Database Validate Routes Reads.
Local Open Scope Z_scope.
Local Open Scope list_scope.

Lemma test_year_month_truthy m : test_year_month m = true -> truthy (Some m) = Some m.
Proof. destruct m; [discriminate | reflexivity]. Qed.

Lemma whereClause_month_range f a b r :
  truthy (monthFrom f) = Some a -> truthy (monthTo f) = Some b ->
  whereClause f r = true ->
  String.leb a (month r) = true /\ String.leb (month r) b = true.
Proof.
  unfold whereClause, conditions. intros -> ->. cbn [app forallb holds].
  intros H. apply andb_true_iff in H as [H1 H]. apply andb_true_iff in H as [H2 _].
  now split.
Qed.

Lemma whereClause_single_month m r :
  m <> ""%string ->
  whereClause {| monthFrom := Some m; monthTo := Some m; ngoId := None |} r = true
  <-> month r = m.
Proof.
  intros Hm. unfold whereClause, conditions. cbn [monthFrom monthTo ngoId truthy].
  apply String.eqb_neq in Hm. rewrite Hm. cbn [app forallb holds].
  rewrite andb_true_r, andb_true_iff. split.
  - intros [H1 H2]. now apply String.leb_antisym.
  - intros <-. now rewrite string_leb_refl.
Qed.

Lemma NoDup_ngo_ids m (l : list report) :
  NoDup (map key l) -> Forall (fun r => month r = m) l -> NoDup (map ngo_id l).
Proof.
  induction l as [|r l IH]; intros Hk Hm; [constructor |].
  change (NoDup (key r :: map key l)) in Hk.
  change (NoDup (ngo_id r :: map ngo_id l)).
  apply NoDup_cons in Hk as [Hnot Hk]. apply Forall_cons in Hm as [Hr Hm].
  apply NoDup_cons. split; [| now apply IH].
  intros Hin. apply Hnot.
  apply list_elem_of_fmap in Hin as (r' & Heq & Hr').
  apply list_elem_of_fmap. exists r'. split; [| exact Hr'].
  rewrite Forall_forall in Hm. unfold key. rewrite Heq, Hr.
  now rewrite (Hm r' Hr').
Qed.

Lemma remove_dups_length {A} `{EqDecision A} (l : list A) :
  NoDup l -> length (remove_dups l) = length l.
Proof.
  intros Hl. apply Permutation_length, NoDup_Permutation;
    [apply NoDup_remove_dups | exact Hl | apply elem_of_remove_dups].
Qed.

Lemma get_dashboard_month q m t d :
  q_month q = Some m -> m <> ""%string ->
  get_dashboard q t = Ok d ->
  test_year_month m = true
  /\ exists n, build_filters q
               = inr {| monthFrom := Some m; monthTo := Some m; ngoId := n |}.
Proof.
  intros Hq Hm Hd. unfold get_dashboard, build_filters in *. rewrite Hq in *.
  assert (truthy (Some m) = Some m) as Ht
    by (destruct m; [congruence | reflexivity]).
  rewrite Ht in *. destruct (test_year_month m); [eauto | discriminate].
Qed.

(** X22.  With the single-month parameter [month=m], a reply with reports
    means that [m] has the form YYYY-MM and that every report listed is
    of month [m]; under the table's constraint the number of distinct
    NGOs that the summary counts is then the number of matching records. *)
Theorem single_month_query
    (q : query) (m : string) (t : list report) (d : dashboard_data) :
  q_month q = Some m ->
  m <> ""%string ->
  get_dashboard q t = Ok d ->
  test_year_month m = true
  /\ (forall r, r ∈ d_reports d -> month r = m)
  /\ (unique t ->
      Z.of_nat (total_ngos (d_filters d) t) = p_totalRecords (d_pagination d)).
Proof.
  intros Hq Hm Hd.
  destruct (get_dashboard_month q m t d Hq Hm Hd) as (Htest & n & Hf).
  apply get_dashboard_Ok in Hd
    as (f & o & l & Hf' & _ & _ & _ & _ & -> & -> & -> & _).
  rewrite Hf in Hf'. injection Hf' as <-.
  set (f := {| monthFrom := Some m; monthTo := Some m; ngoId := n |}).
  assert (forall r, whereClause f r = true -> month r = m) as Hmonth.
  { intros r Hr.
    destruct (whereClause_month_range f m m r) as [H1 H2]; try exact Hr.
    - apply (test_year_month_truthy m Htest).
    - apply (test_year_month_truthy m Htest).
    - now apply String.leb_antisym. }
  split; [exact Htest |]. split.
  - intros r Hr. apply Hmonth.
    apply list_elem_of_lookup in Hr as [i Hi].
    apply lookup_take_Some in Hi as [Hi _]. rewrite lookup_drop in Hi.
    apply list_elem_of_lookup_2, elem_of_matching in Hi. tauto.
  - intros Hu. unfold total_ngos, matching. rewrite orderBy_length.
    f_equal. rewrite remove_dups_length; [apply length_map |].
    apply (NoDup_ngo_ids m).
    + eapply sublist_NoDup; [exact Hu |].
      apply (fmap_sublist key), sublist_filter.
    + apply Forall_forall. intros r Hr.
      apply list_elem_of_filter in Hr as [Hr _]. now apply Hmonth.
Qed.

(** The statement above on the two reports of 2024-01 among three. *)
Lemma single_month_query_witness :
  exists d,
    get_dashboard (month_query (Some "2024-01") None None) three_reports = Ok d
    /\ test_year_month "2024-01" = true
    /\ (forall r, r ∈ d_reports d -> month r = "2024-01"%string)
    /\ (unique three_reports ->
        Z.of_nat (total_ngos (d_filters d) three_reports)
        = p_totalRecords (d_pagination d)).
Proof.
  eexists. split; [vm_compute; reflexivity |].
  apply (single_month_query (month_query (Some "2024-01") None None) "2024-01"
           three_reports).
  - reflexivity.
  - discriminate.
  - vm_compute. reflexivity.
Defined.

Lemma build_filters_range q a b :
  q_month q = None -> q_month_from q = Some a -> q_month_to q = Some b ->
  a <> ""%string -> b <> ""%string ->
  (test_year_month a = true -> test_year_month b = true ->
   exists n, build_filters q
             = inr {| monthFrom := Some a; monthTo := Some b; ngoId := n |})
  /\ (test_year_month a && test_year_month b = false ->
      exists message, build_filters q = inl message).
Proof.
  intros Hq Ha Hb Hane Hbne. unfold build_filters. rewrite Hq, Ha, Hb.
  cbn [truthy]. apply String.eqb_neq in Hane, Hbne. rewrite Hane, Hbne.
  split.
  - intros -> ->. cbn [negb]. eauto.
  - destruct (test_year_month a); cbn [negb andb]; [| eauto].
    intros ->. eauto.
Qed.

(** X23.  A range of months whose first month comes after its last, the
    range that the dashboard page refuses to send, is not refused by the
    route for being inverted: when both months have the form YYYY-MM and
    the offset is an integer that the statement takes, the reply is a 200;
    the reply is a 400 exactly for a month that is not of that form; and
    every 200 lists no report, with a total of 0 and no more to come. *)
Theorem inverted_range_matches_nothing
    (q : query) (a b : string) (t : list report) :
  q_month q = None ->
  q_month_from q = Some a ->
  q_month_to q = Some b ->
  isDateRangeValid a b = false ->
  (forall d, get_dashboard q t = Ok d ->
     d_reports d = []
     /\ p_totalRecords (d_pagination d) = 0
     /\ p_hasMore (d_pagination d) = false)
  /\ (test_year_month a = true -> test_year_month b = true ->
      is_Some (sql_integer (offsetNum q)) ->
      exists d, get_dashboard q t = Ok d)
  /\ (test_year_month a && test_year_month b = false
      <-> exists message, get_dashboard q t = Invalid message).
Proof.
  intros Hq Ha Hb Hrange.
  unfold isDateRangeValid in Hrange. apply negb_false_iff in Hrange.
  apply andb_true_iff in Hrange as [Hne Hlt].
  apply andb_true_iff in Hne as [Hane Hbne].
  apply negb_true_iff in Hane, Hbne.
  assert (a <> ""%string /\ b <> ""%string) as [Hane' Hbne']
    by (split; now apply String.eqb_neq).
  destruct (build_filters_range q a b Hq Ha Hb Hane' Hbne') as [Hgood Hbadf].
  split; [| split].
  - intros d Hd.
    apply get_dashboard_Ok in Hd
      as (f & o & l & Hf & _ & Ho & _ & Hl & _ & Hrep & Htot & Hmore).
    assert (truthy (monthFrom f) = Some a /\ truthy (monthTo f) = Some b)
      as [Hfa Hfb].
    { unfold build_filters in Hf. rewrite Hq, Ha, Hb in Hf.
      cbn [truthy] in Hf. rewrite Hane, Hbne in Hf.
      destruct (test_year_month a); [| discriminate].
      destruct (test_year_month b); [| discriminate].
      cbn [negb] in Hf. injection Hf as <-. cbn [monthFrom monthTo truthy].
      now rewrite Hane, Hbne. }
    assert (matching f t = []) as Hnone.
    { destruct (matching f t) as [|r rest] eqn:E; [reflexivity |].
      assert (r ∈ matching f t) as Hr by (rewrite E; left).
      apply elem_of_matching in Hr as [_ Hr].
      destruct (whereClause_month_range f a b r Hfa Hfb Hr) as [H1 H2].
      pose proof (string_leb_trans _ _ _ H1 H2) as Hab.
      rewrite (string_ltb_not_leb _ _ Hlt) in Hab. discriminate. }
    rewrite Hnone in *. rewrite drop_nil, take_nil in Hrep.
    rewrite Hmore, Hrep, Htot. cbn [length].
    split; [reflexivity |]. split; [reflexivity |]. lia.
  - intros Hta Htb [o Ho].
    destruct (Hgood Hta Htb) as [n Hf].
    destruct (sql_integer_limitNum q) as (l & Hl & _).
    unfold get_dashboard. rewrite Hf, Ho, Hl. eauto.
  - split.
    + intros Hbad. destruct (Hbadf Hbad) as [message Hf].
      exists message. unfold get_dashboard. now rewrite Hf.
    + intros [message Hinv].
      destruct (test_year_month a) eqn:Hta; [| reflexivity].
      destruct (test_year_month b) eqn:Htb; [| reflexivity].
      destruct (Hgood eq_refl eq_refl) as [n Hf].
      unfold get_dashboard in Hinv. rewrite Hf in Hinv.
      destruct (sql_integer (offsetNum q)); destruct (sql_integer (limitNum q));
        discriminate.
Qed.

(** The statement above on the range from 2024-02 to 2024-01. *)
Lemma inverted_range_matches_nothing_witness :
  exists d,
    get_dashboard (range_query "2024-02" "2024-01") three_reports = Ok d
    /\ d_reports d = []
    /\ p_totalRecords (d_pagination d) = 0
    /\ p_hasMore (d_pagination d) = false.
Proof.
  destruct (inverted_range_matches_nothing (range_query "2024-02" "2024-01")
              "2024-02" "2024-01" three_reports eq_refl eq_refl eq_refl eq_refl)
    as (Hempty & Hreply & _).
  destruct (Hreply eq_refl eq_refl) as [d Hd].
  - vm_compute. eauto.
  - exists d. split; [exact Hd | exact (Hempty d Hd)].
Defined.

Lemma place_by_ngo_id_month m r sorted :
  month r = m -> Forall (fun x => month x = m) sorted ->
  place r sorted = place_by_ngo_id r sorted.
Proof.
  intros Hr. induction sorted as [|x rest IH]; intros Hs; [reflexivity |].
  apply Forall_cons in Hs as [Hx Hs]. cbn [place place_by_ngo_id].
  unfold before. rewrite Hr, Hx, string_ltb_irrefl, String.eqb_refl.
  cbn [orb andb]. now rewrite IH.
Qed.

Lemma orderBy_month m rows :
  Forall (fun x => month x = m) rows ->
  orderBy rows = foldr place_by_ngo_id [] rows.
Proof.
  unfold orderBy. induction rows as [|r rows IH]; intros H; [reflexivity |].
  apply Forall_cons in H as [Hr H]. cbn [foldr]. rewrite <- IH by exact H.
  apply (place_by_ngo_id_month m); [exact Hr |].
  apply Forall_forall. intros x Hx.
  change (foldr place [] rows) with (orderBy rows) in Hx.
  rewrite orderBy_Permutation in Hx. rewrite Forall_forall in H. now apply H.
Qed.

Lemma filter_equiv {A} (P Q : A -> Prop) `{!forall x, Decision (P x)}
    `{!forall x, Decision (Q x)} (l : list A) :
  (forall x, P x <-> Q x) -> filter P l = filter Q l.
Proof.
  intros Heq. induction l as [|x l IH]; [reflexivity |].
  rewrite !filter_cons, IH.
  destruct (decide (P x)) as [HP | HP]; destruct (decide (Q x)) as [HQ | HQ];
    try reflexivity; exfalso; apply Heq in HP || apply Heq in HQ; contradiction.
Qed.

Lemma matching_listing m t :
  matching {| monthFrom := m; monthTo := m; ngoId := None |} t
  = get_reports m t.
Proof.
  unfold matching, get_reports.
  destruct (truthy m) as [m' |] eqn:Ht.
  - assert (m' <> ""%string /\ m = Some m') as [Hne ->].
    { destruct m as [x |]; [| discriminate]. cbn [truthy] in Ht.
      destruct (String.eqb_spec x ""); [discriminate |].
      injection Ht as <-. now split. }
    unfold getReportsByMonth.
    rewrite (filter_equiv _ (fun r => month r = m') t)
      by (intros r; now apply whereClause_single_month).
    apply (orderBy_month m'). apply Forall_forall. intros r Hr.
    now apply list_elem_of_filter in Hr as [Hr _].
  - unfold getAllReports. f_equal.
    assert (forall r, whereClause {| monthFrom := m; monthTo := m; ngoId := None |} r
                      = true) as Hall.
    { intros r. unfold whereClause, conditions. cbn [monthFrom monthTo ngoId].
      rewrite Ht. reflexivity. }
    induction t as [|r t IH]; [reflexivity |].
    rewrite filter_cons, decide_True by apply Hall. now rewrite IH.
Qed.

(** X24.  The two listings agree: each page of the dashboard for a single
    month, or for no filter at all, is the slice at its offset and limit
    of what GET /reports lists for that month, or for none. *)
Theorem dashboard_pages_are_slices_of_the_listing
    (m offset limit : option string) (t : list report) (d : dashboard_data) :
  get_dashboard (month_query m offset limit) t = Ok d ->
  exists o l,
    sql_integer (offsetNum (month_query m offset limit)) = Some o
    /\ sql_integer (limitNum (month_query m offset limit)) = Some l
    /\ d_reports d = take (Z.to_nat l) (drop (Z.to_nat o) (get_reports m t)).
Proof.
  intros Hd.
  assert (forall f, build_filters (month_query m offset limit) = inr f ->
            matching f t = get_reports m t) as Hsame.
  { intros f Hf. unfold build_filters, month_query in Hf.
    cbn [q_month q_month_from q_month_to q_ngo_id truthy] in Hf.
    destruct (truthy m) as [m' |] eqn:Ht.
    - destruct (test_year_month m'); [| discriminate]. injection Hf as <-.
      rewrite <- matching_listing. unfold matching.
      assert (m = Some m') as ->; [| reflexivity].
      destruct m as [x |]; [| discriminate]. cbn [truthy] in Ht.
      destruct (String.eqb x ""); [discriminate | congruence].
    - injection Hf as <-. rewrite <- matching_listing. unfold matching.
      f_equal. apply filter_equiv. intros r.
      unfold whereClause, conditions. cbn [monthFrom monthTo ngoId truthy].
      now rewrite Ht. }
  apply get_dashboard_Ok in Hd
    as (f & o & l & Hf & Ho & _ & Hl & _ & _ & -> & _).
  exists o, l. rewrite (Hsame f Hf). auto.
Qed.

(** The statement above on the second row onwards of 2024-01. *)
Lemma dashboard_pages_are_slices_of_the_listing_witness :
  exists d,
    get_dashboard (month_query (Some "2024-01") (Some "1") (Some "5"))
      three_reports = Ok d
    /\ d_reports d = drop 1 (get_reports (Some "2024-01") three_reports).
Proof.
  eexists. split; [vm_compute; reflexivity |].
  destruct (dashboard_pages_are_slices_of_the_listing (Some "2024-01")
              (Some "1") (Some "5") three_reports _ eq_refl)
    as (o & l & Ho & Hl & H).
  vm_compute in Ho, Hl. injection Ho as <-. injection Hl as <-. exact H.
Defined.

(** X25.  GET /reports lists every stored report, each as often as the
    table holds it, by month from the latest to the earliest and, within
    a month, by ngo_id upwards; with a month it lists the reports of that
    month and no other. *)
Theorem listing_is_complete_and_ordered (m : option string) (t : list report) :
  in_order (get_reports m t)
  /\ get_reports m t
     ≡ₚ match truthy m with
        | Some m' => filter (fun r => month r = m') t
        | None => t
        end.
Proof.
  rewrite <- matching_listing. split; [apply matching_in_order |].
  unfold matching. rewrite orderBy_Permutation.
  destruct (truthy m) as [m' |] eqn:Ht.
  - assert (m' <> ""%string /\ m = Some m') as [Hne ->].
    { destruct m as [x |]; [| discriminate]. cbn [truthy] in Ht.
      destruct (String.eqb_spec x ""); [discriminate |].
      injection Ht as <-. now split. }
    rewrite (filter_equiv _ (fun r => month r = m') t)
      by (intros r; now apply whereClause_single_month).
    reflexivity.
  - assert (filter (fun r => whereClause {| monthFrom := m; monthTo := m;
                                            ngoId := None |} r = true) t = t) as ->;
      [| reflexivity].
    induction t as [|r t IH]; [reflexivity |].
    rewrite filter_cons, decide_True, IH; [reflexivity |].
    unfold whereClause, conditions. cbn [monthFrom monthTo ngoId].
    now rewrite Ht.
Qed.

End Months.
